(** * Tajreba: the chunked translation pipeline

    A shallow embedding of the pipeline core of the two front-ends of the
    repository, [src/app.py] (Flask) and [src/Tajreba_app_llm_ar-en.py]
    (Gradio): the batch sizer, the output sanitizer, the backend client,
    the lock-protected job state, the worker loop and the controller
    commands.

    Python [str] values are sequences of Unicode code points ([list Z]);
    Python integers are [Z].  What the program obtains from its
    environment (Unicode tables, the ollama process, the document writer,
    the clock) is a parameter of the definitions. *)

From Stdlib Require Import String Ascii DecimalString ZArith List Bool Lia.
Import ListNotations.
Open Scope Z_scope.

(* ====================================================================== *)
(** * Python strings *)
(* ====================================================================== *)

Definition str := list Z.

(** An ASCII literal, as code points. *)
Definition lit (s : string) : str :=
  map (fun a => Z.of_N (N_of_ascii a)) (list_ascii_of_string s).

(** ["\n"] *)
Definition nl : str := [10].

Fixpoint str_eqb (a b : str) : bool :=
  match a, b with
  | [], [] => true
  | x :: a', y :: b' => (x =? y) && str_eqb a' b'
  | _, _ => false
  end.

(** [sep.join(parts)] *)
Fixpoint join (sep : str) (parts : list str) : str :=
  match parts with
  | [] => []
  | [p] => p
  | p :: rest => p ++ sep ++ join sep rest
  end.

(** [str(n)] for an integer. *)
Definition str_of_int (n : Z) : str :=
  lit (NilZero.string_of_int (Z.to_int n)).

(** [str.isspace] on one code point (CPython's [_PyUnicode_IsWhitespace]). *)
Definition is_space (c : Z) : bool :=
  ((9 <=? c) && (c <=? 13)) || ((28 <=? c) && (c <=? 32))
  || (c =? 133) || (c =? 160) || (c =? 5760)
  || ((8192 <=? c) && (c <=? 8202))
  || (c =? 8232) || (c =? 8233) || (c =? 8239) || (c =? 8287) || (c =? 12288).

(** Line boundaries of [str.splitlines] (CPython's [_PyUnicode_IsLinebreak]). *)
Definition is_linebreak (c : Z) : bool :=
  ((10 <=? c) && (c <=? 13)) || ((28 <=? c) && (c <=? 30))
  || (c =? 133) || (c =? 8232) || (c =? 8233).

Fixpoint lstrip (s : str) : str :=
  match s with
  | c :: s' => if is_space c then lstrip s' else s
  | [] => []
  end.

Definition rstrip (s : str) : str := rev (lstrip (rev s)).

(** [s.strip()] *)
Definition strip (s : str) : str := rstrip (lstrip s).

(** [s.splitlines()]: [cur] is the current line, reversed.  A carriage
    return followed by a line feed is one boundary; a boundary at the very
    end does not open an empty last line. *)
Fixpoint splitlines_from (cur : str) (s : str) : list str :=
  match s with
  | [] => match cur with [] => [] | _ => [rev cur] end
  | c :: rest =>
      if is_linebreak c then
        rev cur ::
          match rest with
          | d :: rest' =>
              if (c =? 13) && (d =? 10) then splitlines_from [] rest'
              else splitlines_from [] rest
          | [] => []
          end
      else splitlines_from (c :: cur) rest
  end.

Definition splitlines (s : str) : list str := splitlines_from [] s.

(** [s[lo:hi]] for non-negative [lo] and [hi]. *)
Definition slice (s : str) (lo hi : Z) : str :=
  firstn (Z.to_nat (hi - lo)) (skipn (Z.to_nat lo) s).

(** [needle in s] *)
Fixpoint is_prefix (p s : str) : bool :=
  match p, s with
  | [], _ => true
  | x :: p', y :: s' => (x =? y) && is_prefix p' s'
  | _ :: _, [] => false
  end.

Fixpoint contains (needle s : str) : bool :=
  is_prefix needle s ||
  match s with
  | [] => false
  | _ :: s' => contains needle s'
  end.

(** Maximal prefix whose code points satisfy [p], and the rest. *)
Fixpoint span (p : Z -> bool) (s : str) : str * str :=
  match s with
  | c :: s' =>
      if p c then let (a, r) := span p s' in (c :: a, r) else ([], s)
  | [] => ([], [])
  end.

(* ====================================================================== *)
(** * Exceptions *)
(* ====================================================================== *)

(** A raised exception, with the text [str(e)] gives. *)
Inductive exn := Exn (msg : str).

Definition exn_msg (e : exn) : str := let (m) := e in m.

Inductive result (A : Type) :=
| Ok (a : A)
| Raise (e : exn).
Arguments Ok {A} a.
Arguments Raise {A} e.

(* ====================================================================== *)
(** * Unicode tables

    The sanitizer depends on three tables of the Python runtime that are
    not part of the repository; they are parameters. *)
(* ====================================================================== *)

Record unicode_db := {
  (** [str.isalnum] on one code point: with the underscore, the class
      [\w] of a [str] pattern. *)
  uni_alnum : Z -> bool;
  (** whether a cased literal [p] of a pattern compiled with
      [re.IGNORECASE] accepts the code point [c] *)
  sre_ci : Z -> Z -> bool;
  (** [str.lower] *)
  str_lower : str -> str
}.

(** The tables restricted to ASCII: an instance to compute with. *)
Definition ascii_lower (c : Z) : Z :=
  if (65 <=? c) && (c <=? 90) then c + 32 else c.

Definition ascii_alnum (c : Z) : bool :=
  ((48 <=? c) && (c <=? 57)) || ((65 <=? c) && (c <=? 90))
  || ((97 <=? c) && (c <=? 122)).

Definition ascii_db : unicode_db := {|
  uni_alnum := ascii_alnum;
  sre_ci := fun p c => ascii_lower c =? ascii_lower p;
  str_lower := map ascii_lower
|}.

(* ====================================================================== *)
(** * Output sanitizer ([sanitize_output], the same in both files) *)
(* ====================================================================== *)

Section Sanitizer.

Context (db : unicode_db).

(** ** The pattern
    [\b(thought|thinking|reasoning|analysis|chain[- ]of[- ]thought)\b] *)

Inductive pat :=
| PLit (c : Z)            (* a literal, matched ignoring case *)
| PSet (cs : list Z).     (* a character class of uncased literals *)

Definition pat_accepts (p : pat) (c : Z) : bool :=
  match p with
  | PLit l => sre_ci db l c
  | PSet cs => existsb (Z.eqb c) cs
  end.

Definition plits (s : string) : list pat := map PLit (lit s).

Definition dash_or_space : pat := PSet [45; 32].

Definition thought_alternatives : list (list pat) :=
  [ plits "thought";
    plits "thinking";
    plits "reasoning";
    plits "analysis";
    plits "chain" ++ [dash_or_space] ++ plits "of" ++ [dash_or_space]
      ++ plits "thought" ].

(** [\w] *)
Definition is_word (c : Z) : bool := uni_alnum db c || (c =? 95).

Definition word_opt (c : option Z) : bool :=
  match c with Some x => is_word x | None => false end.

(** [\b] between the code point before the position and the one after. *)
Definition boundary (before after : option Z) : bool :=
  xorb (word_opt before) (word_opt after).

(** A sequence of pattern items at the head of [s]: the last code point
    consumed and the rest of [s]. *)
Fixpoint match_items (ps : list pat) (last : option Z) (s : str)
  : option (option Z * str) :=
  match ps with
  | [] => Some (last, s)
  | p :: ps' =>
      match s with
      | c :: s' => if pat_accepts p c then match_items ps' (Some c) s' else None
      | [] => None
      end
  end.

(** The whole pattern at one position: [before] is the code point that
    precedes [s]. *)
Definition thought_at (before : option Z) (s : str) : bool :=
  boundary before (hd_error s) &&
  existsb (fun alt =>
             match match_items alt before s with
             | Some (last, rest) => boundary last (hd_error rest)
             | None => false
             end) thought_alternatives.

(** [thought_pattern.search(ln)], as a truth value. *)
Fixpoint thought_search_from (before : option Z) (s : str) : bool :=
  thought_at before s ||
  match s with
  | c :: s' => thought_search_from (Some c) s'
  | [] => false
  end.

Definition thought_search (ln : str) : bool := thought_search_from None ln.

(** [ln.strip().lower() in ("thinking...", "thought for a moment", "thinking")] *)
Definition boilerplate : list str :=
  [lit "thinking..."; lit "thought for a moment"; lit "thinking"].

Definition is_boilerplate (ln : str) : bool :=
  existsb (str_eqb (str_lower db (strip ln))) boilerplate.

(** The two [continue] tests of the loop over the lines. *)
Definition dropped (ln : str) : bool := thought_search ln || is_boilerplate ln.

Definition filtered_lines (text : str) : list str :=
  filter (fun ln => negb (dropped ln)) (splitlines text).

(** [cleaned = "\n".join(filtered).strip()] *)
Definition cleaned (text : str) : str := strip (join nl (filtered_lines text)).

(** ** The Arabic runs *)

Definition is_arabic (c : Z) : bool :=
  ((1536 <=? c) && (c <=? 1791))          (* 0600-06FF *)
  || ((1872 <=? c) && (c <=? 1919))       (* 0750-077F *)
  || ((2208 <=? c) && (c <=? 2303))       (* 08A0-08FF *)
  || ((64336 <=? c) && (c <=? 65023))     (* FB50-FDFF *)
  || ((65136 <=? c) && (c <=? 65279)).    (* FE70-FEFF *)

Definition not_arabic (c : Z) : bool := negb (is_arabic c).

(** [(?:[^A]+[A]+)*] at the head of [s], greedy: what it consumes and the
    rest.  An iteration needs at least one code point outside the class
    followed by at least one inside; [fuel] bounds the iterations. *)
Fixpoint run_groups (fuel : nat) (s : str) : str * str :=
  match fuel with
  | O => ([], s)
  | S fuel' =>
      let (n, r) := span not_arabic s in
      let (a, r') := span is_arabic r in
      match n, a with
      | _ :: _, _ :: _ =>
          let (m, r'') := run_groups fuel' r' in (n ++ a ++ m, r'')
      | _, _ => ([], s)
      end
  end.

(** [[A]+(?:[^A]+[A]+)*] at the head of [s]. *)
Definition run_at (s : str) : option (str * str) :=
  let (a, r) := span is_arabic s in
  match a with
  | [] => None
  | _ :: _ => let (m, r') := run_groups (length r) r in Some (a ++ m, r')
  end.

(** [re.findall]: the matches from left to right, each search resuming
    where the previous match ended. *)
Fixpoint findall_runs (fuel : nat) (s : str) : list str :=
  match fuel with
  | O => []
  | S fuel' =>
      match s with
      | [] => []
      | _ :: s' =>
          match run_at s with
          | Some (m, r) => m :: findall_runs fuel' r
          | None => findall_runs fuel' s'
          end
      end
  end.

Definition arabic_runs (s : str) : list str := findall_runs (length s) s.

(** ** The function *)

(** The statements after the [if not text] guard, on a [str]. *)
Definition sanitize_str (text : str) : str :=
  let c := cleaned text in
  match arabic_runs c with
  | [] => c
  | runs => strip (join nl (map strip runs))
  end.

(** The values a caller can pass for [text]. *)
Inductive pyval :=
| PyNone
| PyStr (s : str)
| PyBytes (b : list Z)
| PyInt (n : Z).

(** [not text] is false *)
Definition truthy (v : pyval) : bool :=
  match v with
  | PyNone => false
  | PyStr s => match s with [] => false | _ => true end
  | PyBytes b => match b with [] => false | _ => true end
  | PyInt n => negb (n =? 0)
  end.

(** The body of the [try]. *)
Definition sanitize_try (text : pyval) : result pyval :=
  if negb (truthy text) then Ok text
  else
    match text with
    | PyStr s => Ok (PyStr (sanitize_str s))
    | PyBytes _ =>
        (* [thought_pattern.search(ln)] on the first line *)
        Raise (Exn (lit "cannot use a string pattern on a bytes-like object"))
    | PyInt _ =>
        Raise (Exn (lit "'int' object has no attribute 'splitlines'"))
    | PyNone =>
        Raise (Exn (lit "'NoneType' object has no attribute 'splitlines'"))
    end.

(** [sanitize_output(text)]: [except Exception: return text]. *)
Definition sanitize_output (text : pyval) : pyval :=
  match sanitize_try text with
  | Ok r => r
  | Raise _ => text
  end.

(** [sanitize_output] at a [str], as the backend client calls it. *)
Definition sanitize_output_str (s : str) : str :=
  match sanitize_output (PyStr s) with
  | PyStr r => r
  | _ => s
  end.

End Sanitizer.

(* ====================================================================== *)
(** * Batch sizer ([calculate_optimal_batch_size], the same in both files) *)
(* ====================================================================== *)

(** The threshold table on the character count. *)
Definition batch_size_for (total_chars : Z) : Z :=
  if total_chars <? 5000 then 1000
  else if total_chars <? 50000 then 2000
  else if total_chars <? 200000 then 3000
  else 4000.

(** [len(text)] *)
Definition len (s : str) : Z := Z.of_nat (length s).

(** [doc] is what [read_text_from_file(file_path)] does: return the text
    or raise. *)
Definition calculate_optimal_batch_size (doc : result str) : Z :=
  let total_chars :=
    match doc with
    | Ok text => len text
    | Raise _ => 20000
    end in
  batch_size_for total_chars.

(** [(total_chars + batch_size - 1) // batch_size] *)
Definition total_chunks_of (total_chars batch_size : Z) : Z :=
  (total_chars + batch_size - 1) / batch_size.

(** [range(0, stop, step)] for a positive [step]. *)
Definition py_range (stop step : Z) : list Z :=
  map (fun k => Z.of_nat k * step)
      (seq 0 (Z.to_nat ((stop + step - 1) / step))).

(** The chunks the loop of the worker cuts: [text[i:i+batch_size]] for
    [i] in [range(0, len(text), batch_size)]. *)
Definition chunks (text : str) (batch_size : Z) : list str :=
  map (fun i => slice text i (i + batch_size)) (py_range (len text) batch_size).

(* ====================================================================== *)
(** * The environment of a job *)
(* ====================================================================== *)

(** The two front-ends: [src/app.py] and [src/Tajreba_app_llm_ar-en.py]. *)
Inductive frontend := Flask | Gradio.

(** One call of [subprocess.run] on the ollama command line: the model
    name, the arguments after it, and the text sent on standard input. *)
Record request := {
  r_model : option str;
  r_args : list str;
  r_input : option str
}.

(** What [subprocess.run(..., timeout=300)] does. *)
Inductive outcome :=
| TimeoutExpired (msg : str)
| Raised (msg : str)
| Completed (returncode : Z) (stdout stderr : str).

Record world := {
  db : unicode_db;
  (** the invocation number [n] of the backend, counted from zero *)
  ollama : nat -> request -> outcome;
  (** [template.format(text=text)] *)
  str_format : str -> str -> result str;
  (** [write_docx(path, text, direction, alignment)]: [None] when the
      document is saved, the exception otherwise *)
  write_docx : str -> str -> str -> str -> option exn;
  (** [time.time()] when the worker starts and when it finishes *)
  time_start : Z;
  time_finish : Z;
  (** [datetime.now().strftime("%Y%m%d_%H%M%S")] *)
  timestamp : str;
  (** [get_system_stats()] *)
  system_stats : str;
  (** [os.getcwd()] *)
  cwd : str
}.

(** Flask: the JSON body of [/api/start]; Gradio: the model drop-down. *)
Record config := {
  model : option str;       (* [config.get('model')] *)
  rtl : bool                (* [config.get('rtl', True)], as a truth value *)
}.

(** Gradio: the prompt and option widgets passed to [start_translation]. *)
Record options := {
  o_prompt_template : str;
  o_prompt_mode : str;
  o_disable_think : bool;
  o_enable_concise : bool;
  o_enable_filter : bool
}.

(** One job.  [j_doc] is what [read_text_from_file] does on the uploaded
    file, every time it is called during the job; [j_dir] is the directory
    of the output document ([UPLOAD_FOLDER], or the directory of the input
    file). *)
Record job := {
  j_doc : result str;
  j_dir : str;
  j_config : config;
  j_options : options
}.

(** [os.path.join(dir, name)] ([posixpath]): an absolute [name] stands
    alone; no separator is added after an empty [dir] or after one that
    ends with a separator. *)
Definition path_join (dir name : str) : str :=
  if is_prefix (lit "/") name then name
  else
    match rev dir with
    | [] => name
    | c :: _ => if c =? 47 then dir ++ name else dir ++ lit "/" ++ name
    end.

Definition DEFAULT_PROMPT : str :=
  lit "You are a professional English-Arabic translator. "
  ++ lit "Translate the following text from English to Arabic in a refined, sophisticated, and professional book-author style. "
  ++ lit "Ensure that your translation is clear and does not include any notes, disclaimers, or commentary about the original text's quality. "
  ++ lit "Replace numerical figures with their corresponding words in Arabic, including large numbers, decimals, and scientific values. "
  ++ lit "Remove any citation numbers that appear at the end of sentences. "
  ++ lit "Translate all words, including scientific terms. "
  ++ lit "Only provide the translated text." ++ nl ++ nl.

(* ====================================================================== *)
(** * Job state ([TranslationState]) *)
(* ====================================================================== *)

(** Gradio: the option attributes of the state. *)
Record state_options := {
  prompt_template : option str;
  prompt_mode : str;
  think_enabled : bool;
  concise_mode : bool;
  filter_thoughts : bool;
  doc_direction : str;
  doc_alignment : str
}.

(** The attributes of both classes; [error], [output_file] and
    [current_config] exist in [src/app.py] only, [opts] in the Gradio file
    only.  The lock is a component of the system below. *)
Record TranslationState := {
  paused : bool;
  stopped : bool;
  running : bool;
  current_chunk : Z;
  total_chunks : Z;
  translated_chunks : list str;
  live_feed : str;
  status_message : str;
  start_time : option Z;
  error : option str;
  output_file : option str;
  current_config : option config;
  opts : state_options
}.

Definition default_options : state_options := {|
  prompt_template := None;
  prompt_mode := lit "append";
  think_enabled := true;
  concise_mode := false;
  filter_thoughts := false;
  doc_direction := lit "rtl";
  doc_alignment := lit "right"
|}.

(** The state [TranslationState()] builds: [__init__] calls [reset]. *)
Definition fresh_state : TranslationState := {|
  paused := false;
  stopped := false;
  running := false;
  current_chunk := 0;
  total_chunks := 0;
  translated_chunks := [];
  live_feed := [];
  status_message := [];
  start_time := None;
  error := None;
  output_file := None;
  current_config := None;
  opts := default_options
|}.

(** [reset()]: every attribute is assigned. *)
Definition reset (_ : TranslationState) : TranslationState := fresh_state.

(** Assignments to one attribute. *)
Definition set_paused (v : bool) (s : TranslationState) :=
  {| paused := v; stopped := stopped s; running := running s;
     current_chunk := current_chunk s; total_chunks := total_chunks s;
     translated_chunks := translated_chunks s; live_feed := live_feed s;
     status_message := status_message s; start_time := start_time s;
     error := error s; output_file := output_file s;
     current_config := current_config s; opts := opts s |}.

Definition set_stopped (v : bool) (s : TranslationState) :=
  {| paused := paused s; stopped := v; running := running s;
     current_chunk := current_chunk s; total_chunks := total_chunks s;
     translated_chunks := translated_chunks s; live_feed := live_feed s;
     status_message := status_message s; start_time := start_time s;
     error := error s; output_file := output_file s;
     current_config := current_config s; opts := opts s |}.

Definition set_running (v : bool) (s : TranslationState) :=
  {| paused := paused s; stopped := stopped s; running := v;
     current_chunk := current_chunk s; total_chunks := total_chunks s;
     translated_chunks := translated_chunks s; live_feed := live_feed s;
     status_message := status_message s; start_time := start_time s;
     error := error s; output_file := output_file s;
     current_config := current_config s; opts := opts s |}.

Definition set_current_chunk (v : Z) (s : TranslationState) :=
  {| paused := paused s; stopped := stopped s; running := running s;
     current_chunk := v; total_chunks := total_chunks s;
     translated_chunks := translated_chunks s; live_feed := live_feed s;
     status_message := status_message s; start_time := start_time s;
     error := error s; output_file := output_file s;
     current_config := current_config s; opts := opts s |}.

Definition set_total_chunks (v : Z) (s : TranslationState) :=
  {| paused := paused s; stopped := stopped s; running := running s;
     current_chunk := current_chunk s; total_chunks := v;
     translated_chunks := translated_chunks s; live_feed := live_feed s;
     status_message := status_message s; start_time := start_time s;
     error := error s; output_file := output_file s;
     current_config := current_config s; opts := opts s |}.

Definition set_translated_chunks (v : list str) (s : TranslationState) :=
  {| paused := paused s; stopped := stopped s; running := running s;
     current_chunk := current_chunk s; total_chunks := total_chunks s;
     translated_chunks := v; live_feed := live_feed s;
     status_message := status_message s; start_time := start_time s;
     error := error s; output_file := output_file s;
     current_config := current_config s; opts := opts s |}.

Definition set_live_feed (v : str) (s : TranslationState) :=
  {| paused := paused s; stopped := stopped s; running := running s;
     current_chunk := current_chunk s; total_chunks := total_chunks s;
     translated_chunks := translated_chunks s; live_feed := v;
     status_message := status_message s; start_time := start_time s;
     error := error s; output_file := output_file s;
     current_config := current_config s; opts := opts s |}.

Definition set_status_message (v : str) (s : TranslationState) :=
  {| paused := paused s; stopped := stopped s; running := running s;
     current_chunk := current_chunk s; total_chunks := total_chunks s;
     translated_chunks := translated_chunks s; live_feed := live_feed s;
     status_message := v; start_time := start_time s;
     error := error s; output_file := output_file s;
     current_config := current_config s; opts := opts s |}.

Definition set_start_time (v : option Z) (s : TranslationState) :=
  {| paused := paused s; stopped := stopped s; running := running s;
     current_chunk := current_chunk s; total_chunks := total_chunks s;
     translated_chunks := translated_chunks s; live_feed := live_feed s;
     status_message := status_message s; start_time := v;
     error := error s; output_file := output_file s;
     current_config := current_config s; opts := opts s |}.

Definition set_error (v : option str) (s : TranslationState) :=
  {| paused := paused s; stopped := stopped s; running := running s;
     current_chunk := current_chunk s; total_chunks := total_chunks s;
     translated_chunks := translated_chunks s; live_feed := live_feed s;
     status_message := status_message s; start_time := start_time s;
     error := v; output_file := output_file s;
     current_config := current_config s; opts := opts s |}.

Definition set_output_file (v : option str) (s : TranslationState) :=
  {| paused := paused s; stopped := stopped s; running := running s;
     current_chunk := current_chunk s; total_chunks := total_chunks s;
     translated_chunks := translated_chunks s; live_feed := live_feed s;
     status_message := status_message s; start_time := start_time s;
     error := error s; output_file := v;
     current_config := current_config s; opts := opts s |}.

Definition set_current_config (v : option config) (s : TranslationState) :=
  {| paused := paused s; stopped := stopped s; running := running s;
     current_chunk := current_chunk s; total_chunks := total_chunks s;
     translated_chunks := translated_chunks s; live_feed := live_feed s;
     status_message := status_message s; start_time := start_time s;
     error := error s; output_file := output_file s;
     current_config := v; opts := opts s |}.

Definition set_opts (v : state_options) (s : TranslationState) :=
  {| paused := paused s; stopped := stopped s; running := running s;
     current_chunk := current_chunk s; total_chunks := total_chunks s;
     translated_chunks := translated_chunks s; live_feed := live_feed s;
     status_message := status_message s; start_time := start_time s;
     error := error s; output_file := output_file s;
     current_config := current_config s; opts := v |}.

(* ====================================================================== *)
(** * Backend client ([translate_with_ollama]) *)
(* ====================================================================== *)

(** [subprocess.run]: the one place where the backend is invoked.  The log
    records every invocation, in order. *)
Definition subprocess_run (w : world) (r : request) (log : list request)
  : outcome * list request :=
  (ollama w (length log) r, log ++ [r]).

Definition arabic_translation_suffix : str :=
  nl ++ nl ++ lit "Arabic Translation:".

(** [x or y] on strings *)
Definition str_or (x y : str) : str :=
  match x with [] => y | _ => x end.

Module FlaskClient.

Definition prompt (text : str) : str :=
  DEFAULT_PROMPT ++ text ++ arabic_translation_suffix.

Definition build_request (text : str) (model : option str) : request :=
  {| r_model := model; r_args := []; r_input := Some (prompt text) |}.

(** What the call returns after [subprocess.run]. *)
Definition result_of (w : world) (o : outcome) : str :=
  match o with
  | TimeoutExpired m | Raised m => lit "[Error: " ++ m ++ lit "]"
  | Completed rc out err =>
      if negb (rc =? 0) then
        lit "[Error: " ++ str_or err (lit "Unknown error") ++ lit "]"
      else sanitize_output_str (db w) (strip out)
  end.

Definition translate_with_ollama (w : world) (text : str)
    (model : option str) (log : list request)
  : result str * list request :=
  let (o, log') := subprocess_run w (build_request text model) log in
  (Ok (result_of w o), log').

End FlaskClient.

Module GradioClient.

Definition text_placeholder : str := lit "{text}".

(** The prompt; [str.format] can raise on a template with other fields. *)
Definition prompt (w : world) (st : TranslationState) (text : str)
  : result str :=
  let o := opts st in
  let base :=
    match prompt_template o with
    | Some ((_ :: _) as template) =>
        if contains text_placeholder template then
          str_format w template text
        else if str_eqb (prompt_mode o) (lit "replace") then
          Ok (template ++ nl ++ nl ++ text)
        else
          Ok (DEFAULT_PROMPT ++ nl ++ template ++ nl ++ nl ++ text
                ++ arabic_translation_suffix)
    | _ => Ok (DEFAULT_PROMPT ++ text ++ arabic_translation_suffix)
    end in
  match base with
  | Ok p =>
      Ok (if concise_mode o then
            lit "Respond concisely; minimal reasoning." ++ nl ++ nl ++ p
          else p)
  | Raise e => Raise e
  end.

Definition build_request (st : TranslationState) (model : option str)
    (prompt : str) : request :=
  {| r_model := model;
     r_args := (if think_enabled (opts st) then []
                else [lit "--think=false"]) ++ [prompt];
     r_input := None |}.

Definition timeout_message : str :=
  [0x26a0; 0xfe0f] ++ lit " Translation timeout (5 minutes exceeded)".

Definition no_output_message : str :=
  [0x26a0; 0xfe0f] ++ lit " No output received from Ollama.".

Definition result_of (w : world) (st : TranslationState) (o : outcome)
  : str :=
  match o with
  | TimeoutExpired _ => timeout_message
  | Raised m => [0x274c] ++ lit " Exception: " ++ m
  | Completed rc out err =>
      if negb (rc =? 0) then
        [0x274c] ++ lit " Error: " ++
          match str_or err out with
          | [] => lit "unknown error"
          | o => strip o
          end
      else
        let raw := strip out in
        let raw :=
          match raw with
          | _ :: _ =>
              if filter_thoughts (opts st)
              then sanitize_output_str (db w) raw else raw
          | [] => raw
          end in
        str_or raw no_output_message
  end.

Definition translate_with_ollama (w : world) (st : TranslationState)
    (text : str) (model : option str) (log : list request)
  : result str * list request :=
  match prompt w st text with
  | Raise e => (Raise e, log)
  | Ok p =>
      let (o, log') := subprocess_run w (build_request st model p) log in
      (Ok (result_of w st o), log')
  end.

End GradioClient.

Definition translate_with_ollama (fe : frontend) (w : world)
    (st : TranslationState) (text : str) (model : option str)
    (log : list request) : result str * list request :=
  match fe with
  | Flask => FlaskClient.translate_with_ollama w text model log
  | Gradio => GradioClient.translate_with_ollama w st text model log
  end.

(* ====================================================================== *)
(** * The system: job state, lock, worker thread *)
(* ====================================================================== *)

(** Where the worker thread stands.  Each constructor is a point where the
    thread can be descheduled: before a [with lock] block, inside the
    pause loop, or during the backend call. *)
Inductive pc :=
| PStart                     (* thread started *)
| PLoop (i : Z)              (* at the head of the [for], next index [i] *)
| PPaused (i : Z)            (* in [while paused: time.sleep(..)] *)
| PStatus (i : Z)            (* Flask: before the status-message block *)
| PTranslate (i : Z)         (* in [translate_with_ollama] *)
| PStore (i : Z) (tr : str)  (* before the block that stores the result *)
| PFinish                    (* after the loop *)
| PExcept (e : exn)          (* in [except Exception as e] *)
| PDone.                     (* returned *)

(** [locked] is [state.lock]: between two steps only the worker can hold
    it, since every other [with lock] block runs within one step.
    [backend_log] records the invocations of the backend since the job
    started, [artifacts] the documents (path and text) the worker wrote,
    [exports] those the export command wrote. *)
Record system := {
  state : TranslationState;
  locked : bool;
  worker : pc;
  backend_log : list request;
  artifacts : list (str * str);
  exports : list (str * str)
}.

Definition with_state (st : TranslationState) (s : system) : system :=
  {| state := st; locked := locked s; worker := worker s;
     backend_log := backend_log s; artifacts := artifacts s;
     exports := exports s |}.

Definition with_locked (b : bool) (s : system) : system :=
  {| state := state s; locked := b; worker := worker s;
     backend_log := backend_log s; artifacts := artifacts s;
     exports := exports s |}.

Definition goto (p : pc) (s : system) : system :=
  {| state := state s; locked := locked s; worker := p;
     backend_log := backend_log s; artifacts := artifacts s;
     exports := exports s |}.

Definition with_log (l : list request) (s : system) : system :=
  {| state := state s; locked := locked s; worker := worker s;
     backend_log := l; artifacts := artifacts s; exports := exports s |}.

Definition add_artifact (path text : str) (s : system) : system :=
  {| state := state s; locked := locked s; worker := worker s;
     backend_log := backend_log s;
     artifacts := artifacts s ++ [(path, text)]; exports := exports s |}.

Definition add_export (path text : str) (s : system) : system :=
  {| state := state s; locked := locked s; worker := worker s;
     backend_log := backend_log s; artifacts := artifacts s;
     exports := exports s ++ [(path, text)] |}.

Section Job.

Context (fe : frontend) (w : world) (j : job).

(** ** Locals of the worker *)

(** [text], once [read_text_from_file] has returned. *)
Definition job_text : str :=
  match j_doc j with Ok text => text | Raise _ => [] end.

Definition total_chars : Z := len job_text.

(** Flask computes it in the worker, Gradio in [start_translation]; both
    from the same file. *)
Definition batch_size : Z := calculate_optimal_batch_size (j_doc j).

Definition job_total_chunks : Z := total_chunks_of total_chars batch_size.

(** [chunk_num = i // batch_size + 1] *)
Definition chunk_num (i : Z) : Z := i / batch_size + 1.

(** ** Critical sections of the worker *)

(** The block after the document is read. *)
Definition init_section (st : TranslationState) : TranslationState :=
  let st := set_running true st in
  let st := set_total_chunks job_total_chunks st in
  let st := set_current_chunk 0 st in
  let st := set_translated_chunks [] st in
  let st := set_live_feed [] st in
  let st := set_start_time (Some (time_start w)) st in
  match fe with
  | Flask => set_current_config (Some (j_config j)) st
  | Gradio => st
  end.

Definition stopped_message : str :=
  match fe with
  | Flask => lit "Translation stopped."
  | Gradio => [0x1f6d1] ++ lit " Translation stopped by user"
  end.

(** Flask: [f"Translating chunk {chunk_num}/{total_chunks}..."] *)
Definition translating_message (i : Z) : str :=
  lit "Translating chunk " ++ str_of_int (chunk_num i) ++ lit "/"
  ++ str_of_int job_total_chunks ++ lit "...".

(** The block that stores the result of one chunk. *)
Definition store_section (i : Z) (tr : str) (st : TranslationState)
  : TranslationState :=
  let st := set_translated_chunks (translated_chunks st ++ [tr]) st in
  let st := set_current_chunk (chunk_num i) st in
  set_live_feed
    (live_feed st ++ tr ++
       match fe with Flask => nl ++ nl | Gradio => nl end) st.

Definition out_filename : str :=
  lit "translated_" ++ timestamp w ++ lit ".docx".

Definition out_path : str := path_join (j_dir j) out_filename.

(** ["\n".join(state.translated_chunks)] *)
Definition full_text (st : TranslationState) : str :=
  join nl (translated_chunks st).

Definition complete_message (st : TranslationState) (elapsed : Z) : str :=
  match fe with
  | Flask => lit "Translation complete."
  | Gradio =>
      [0x2705] ++ lit " Translation complete!" ++ nl
      ++ [0x23f1; 0xfe0f] ++ lit " Time: " ++ str_of_int elapsed
      ++ lit "s | " ++ [0x1f4c4] ++ lit " Chunks: "
      ++ str_of_int job_total_chunks ++ lit " | " ++ [0x1f4ca] ++ lit " "
      ++ system_stats w ++ nl
      ++ [0x1f4be] ++ lit " Saved to: " ++ out_filename
  end.

(** The block after the loop.  The worker returns, or an exception leaves
    the block. *)
Definition finish_section (s : system) : system :=
  let st := set_running false (state s) in
  if stopped st then goto PDone (with_state st s)
  else
    match fe with
    | Flask =>
        let st := set_status_message (complete_message st 0) st in
        let direction := if rtl (j_config j) then lit "rtl" else lit "ltr" in
        let align := if rtl (j_config j) then lit "right" else lit "left" in
        match write_docx w out_path (full_text st) direction align with
        | Some e => goto (PExcept e) (with_state st s)
        | None =>
            goto PDone
              (add_artifact out_path (full_text st)
                 (with_state (set_output_file (Some out_filename) st) s))
        end
    | Gradio =>
        match write_docx w out_path (full_text st)
                (doc_direction (opts st)) (doc_alignment (opts st)) with
        | Some e => goto (PExcept e) (with_state st s)
        | None =>
            let s := add_artifact out_path (full_text st) (with_state st s) in
            match start_time st with
            | None =>
                goto (PExcept (Exn (lit "unsupported operand type(s) for -: 'float' and 'NoneType'"))) s
            | Some t0 =>
                goto PDone
                  (with_state
                     (set_status_message
                        (complete_message st (time_finish w - t0)) st) s)
            end
        end
    end.

(** The block of the exception handler. *)
Definition except_section (e : exn) (st : TranslationState)
  : TranslationState :=
  let st := set_running false st in
  match fe with
  | Flask =>
      set_status_message (lit "Error: " ++ exn_msg e)
        (set_error (Some (exn_msg e)) st)
  | Gradio =>
      set_status_message ([0x274c] ++ lit " Error: " ++ exn_msg e) st
  end.

(** Where the worker goes after the stop and pause tests of an iteration. *)
Definition after_check (i : Z) : pc :=
  match fe with
  | Flask => PStatus i
  | Gradio => PTranslate i
  end.

(** ** One step of the worker ([worker_thread], [translation_worker])

    [None]: the worker cannot move (it has returned, or it waits for the
    lock). *)
Definition worker_step (s : system) : option system :=
  let st := state s in
  match worker s with
  | PStart =>
      match j_doc j with
      | Raise e => Some (goto (PExcept e) s)
      | Ok _ =>
          if locked s then None
          else Some (goto (PLoop 0) (with_state (init_section st) s))
      end
  | PLoop i =>
      if total_chars <=? i then Some (goto PFinish s)
      else if locked s then None
      else if stopped st then
        Some (goto PFinish (with_state (set_status_message stopped_message st) s))
      else if paused st then
        (* enters the pause loop inside the [with] block *)
        Some (goto (PPaused i) (with_locked true s))
      else Some (goto (after_check i) s)
  | PPaused i =>
      if paused st then Some s                       (* [time.sleep] *)
      else Some (goto (after_check i) (with_locked false s))
  | PStatus i =>
      if locked s then None
      else
        Some (goto (PTranslate i)
                (with_state (set_status_message (translating_message i) st) s))
  | PTranslate i =>
      let chunk := slice job_text i (i + batch_size) in
      let (r, log') :=
        translate_with_ollama fe w st chunk (model (j_config j))
          (backend_log s) in
      match r with
      | Ok tr => Some (goto (PStore i tr) (with_log log' s))
      | Raise e => Some (goto (PExcept e) (with_log log' s))
      end
  | PStore i tr =>
      if locked s then None
      else
        Some (goto (PLoop (i + batch_size))
                (with_state (store_section i tr st) s))
  | PFinish =>
      if locked s then None else Some (finish_section s)
  | PExcept e =>
      if locked s then None
      else Some (goto PDone (with_state (except_section e st) s))
  | PDone => None
  end.

(** ** Controller commands *)

(** [pause_translation], [pause_toggle] *)
Definition pause_translation (st : TranslationState) : TranslationState :=
  set_paused (negb (paused st)) st.

(** [stop_translation] *)
Definition stop_translation (st : TranslationState) : TranslationState :=
  match fe with
  | Flask => set_running false (set_stopped true st)
  | Gradio => set_stopped true st
  end.

Inductive export_response :=
| Exported (path : str)              (* a document is handed to the caller *)
| NothingToExport (message : str)
| ExportRaised (e : exn).

Definition export_path : str :=
  path_join (cwd w) (lit "translation_export_" ++ timestamp w ++ lit ".docx").

(** [export_file] (Flask), [export_and_download] (Gradio): the response,
    and the document written if any. *)
Definition export (st : TranslationState)
  : export_response * option (str * str) :=
  match fe with
  | Flask =>
      match output_file st with
      | Some ((_ :: _) as name) => (Exported (path_join (j_dir j) name), None)
      | _ => (NothingToExport (lit "No output file generated yet."), None)
      end
  | Gradio =>
      match translated_chunks st with
      | [] => (NothingToExport ([0x274c] ++ lit " No translation to export"), None)
      | _ :: _ =>
          match write_docx w export_path (full_text st)
                  (doc_direction (opts st)) (doc_alignment (opts st)) with
          | Some e => (ExportRaised e, None)
          | None => (Exported export_path, Some (export_path, full_text st))
          end
      end
  end.

(** What a status poll reads ([get_status] of Flask; [get_progress],
    [get_status], [get_live_feed] of Gradio), without the figures computed
    in floating point or from the clock. *)
Record snapshot := {
  snap_running : bool;
  snap_paused : bool;
  snap_current_chunk : Z;
  snap_total_chunks : Z;
  snap_results : list str;
  snap_live_text : str;
  snap_message : str
}.

Definition get_status (st : TranslationState) : snapshot :=
  {| snap_running := running st; snap_paused := paused st;
     snap_current_chunk := current_chunk st;
     snap_total_chunks := total_chunks st;
     snap_results := translated_chunks st;
     snap_live_text := live_feed st;
     snap_message := status_message st |}.

Inductive command := Pause | Stop | Status | Export.

(** A command runs its [with lock] block in one step, when the lock is
    free; otherwise the calling thread waits ([None]). *)
Definition command_step (c : command) (s : system) : option system :=
  if locked s then None
  else
    Some
      match c with
      | Pause => with_state (pause_translation (state s)) s
      | Stop => with_state (stop_translation (state s)) s
      | Status => s
      | Export =>
          match snd (export (state s)) with
          | Some (path, text) => add_export path text s
          | None => s
          end
      end.

(** [start_translation]: [reset()], the options (Gradio), and a new worker
    thread.  One job at a time: the worker of the job before has
    returned. *)
Definition start_translation (st : TranslationState) : system :=
  let st := reset st in
  let st :=
    match fe with
    | Flask => st
    | Gradio =>
        let o := j_options j in
        set_opts
          {| prompt_template :=
               match strip (o_prompt_template o) with
               | [] => None
               | _ :: _ => Some (o_prompt_template o)
               end;
             prompt_mode := o_prompt_mode o;
             think_enabled := negb (o_disable_think o);
             concise_mode := o_enable_concise o;
             filter_thoughts := o_enable_filter o;
             doc_direction := doc_direction (opts st);
             doc_alignment := doc_alignment (opts st) |} st
    end in
  {| state := st; locked := false; worker := PStart;
     backend_log := []; artifacts := []; exports := [] |}.

(** ** Executions of one job *)

Inductive label := Work | Cmd (c : command).

Definition sys_step (l : label) (s : system) : option system :=
  match l with
  | Work => worker_step s
  | Cmd c => command_step c s
  end.

(** The steps of a schedule, in order; [None] if one of them cannot be
    taken. *)
Fixpoint run (ls : list label) (s : system) : option system :=
  match ls with
  | [] => Some s
  | l :: ls' =>
      match sys_step l s with
      | Some s' => run ls' s'
      | None => None
      end
  end.

(** The states of a job started from the state [st0] of the job before. *)
Definition reachable (st0 : TranslationState) (s : system) : Prop :=
  exists ls, run ls (start_translation st0) = Some s.

End Job.

(** The two halves of [translate_with_ollama]: the request it builds, and
    the string it returns for what the backend did. *)
Definition request_for (fe : frontend) (w : world) (st : TranslationState)
    (text : str) (model : option str) : result request :=
  match fe with
  | Flask => Ok (FlaskClient.build_request text model)
  | Gradio =>
      match GradioClient.prompt w st text with
      | Ok p => Ok (GradioClient.build_request st model p)
      | Raise e => Raise e
      end
  end.

Definition result_for (fe : frontend) (w : world) (st : TranslationState)
    (o : outcome) : str :=
  match fe with
  | Flask => FlaskClient.result_of w o
  | Gradio => GradioClient.result_of w st o
  end.

(** A backend failure: timeout, launch or transport exception, non-zero
    exit status. *)
Definition is_failure (o : outcome) : bool :=
  match o with
  | TimeoutExpired _ | Raised _ => true
  | Completed rc _ _ => negb (rc =? 0)
  end.

(* ====================================================================== *)
(** * Properties of the batch sizer and of the chunking *)
(* ====================================================================== *)

Lemma batch_size_for_cases (L : Z) :
  (L < 5000 /\ batch_size_for L = 1000)
  \/ (5000 <= L < 50000 /\ batch_size_for L = 2000)
  \/ (50000 <= L < 200000 /\ batch_size_for L = 3000)
  \/ (200000 <= L /\ batch_size_for L = 4000).
Proof.
  unfold batch_size_for.
  destruct (Z.ltb_spec L 5000); [left; lia|].
  destruct (Z.ltb_spec L 50000); [right; left; lia|].
  destruct (Z.ltb_spec L 200000); [right; right; left; lia|].
  right; right; right; lia.
Qed.

Lemma batch_size_for_pos (L : Z) : 1000 <= batch_size_for L <= 4000.
Proof. destruct (batch_size_for_cases L) as [H|[H|[H|H]]]; lia. Qed.

Lemma calculate_optimal_batch_size_pos (doc : result str) :
  0 < calculate_optimal_batch_size doc.
Proof.
  unfold calculate_optimal_batch_size.
  match goal with |- 0 < batch_size_for ?x => pose proof (batch_size_for_pos x) end.
  lia.
Qed.

(** [(L + B - 1) // B] is the ceiling of [L / B]: the least [N] with
    [L <= N * B]. *)
Lemma total_chunks_of_ceil (L B : Z) :
  0 < B ->
  L <= total_chunks_of L B * B < L + B.
Proof.
  intros HB. unfold total_chunks_of.
  pose proof (Z.div_mod (L + B - 1) B ltac:(lia)) as Hdm.
  pose proof (Z.mod_pos_bound (L + B - 1) B HB) as Hr.
  nia.
Qed.

Lemma total_chunks_of_least (L B N : Z) :
  0 < B -> L <= N * B -> total_chunks_of L B <= N.
Proof.
  intros HB HN. pose proof (total_chunks_of_ceil L B HB). nia.
Qed.

Lemma total_chunks_of_nonneg (L B : Z) :
  0 < B -> 0 <= L -> 0 <= total_chunks_of L B.
Proof.
  intros HB HL. pose proof (total_chunks_of_ceil L B HB). nia.
Qed.

Lemma len_nonneg (s : str) : 0 <= len s.
Proof. unfold len. lia. Qed.

Lemma py_range_length (L B : Z) :
  length (py_range L B) = Z.to_nat (total_chunks_of L B).
Proof. unfold py_range, total_chunks_of. now rewrite length_map, length_seq. Qed.

Lemma chunks_length (text : str) (B : Z) :
  length (chunks text B) = Z.to_nat (total_chunks_of (len text) B).
Proof. unfold chunks. now rewrite length_map, py_range_length. Qed.

(** The chunk of ordinal [k] (from zero) is [text[k*B : k*B+B]]. *)
Lemma chunks_nth (text : str) (B : Z) (k : nat) :
  (k < Z.to_nat (total_chunks_of (len text) B))%nat ->
  nth_error (chunks text B) k
  = Some (slice text (Z.of_nat k * B) (Z.of_nat k * B + B)).
Proof.
  intros Hk. unfold chunks, py_range.
  rewrite map_map, nth_error_map.
  rewrite nth_error_nth' with (d := 0%nat) by (rewrite length_seq; exact Hk).
  rewrite seq_nth by exact Hk. reflexivity.
Qed.

Lemma slice_chunk (text : str) (B : Z) (k : nat) :
  0 < B ->
  slice text (Z.of_nat k * B) (Z.of_nat k * B + B)
  = firstn (Z.to_nat B) (skipn (k * Z.to_nat B) text).
Proof.
  intros HB. unfold slice. f_equal; [f_equal; lia|].
  f_equal. rewrite Z2Nat.inj_mul by lia. now rewrite Nat2Z.id.
Qed.

Lemma concat_blocks (b : nat) :
  (0 < b)%nat ->
  forall (n : nat) (s : str),
    (length s <= n * b)%nat ->
    concat (map (fun k => firstn b (skipn (k * b) s)) (seq 0 n)) = s.
Proof.
  intros Hb. induction n as [|n IH]; intros s Hs.
  - simpl in *. destruct s; [reflexivity|simpl in Hs; lia].
  - rewrite <- cons_seq, <- seq_shift, map_cons, map_map.
    transitivity (firstn b s ++ skipn b s); [|apply firstn_skipn].
    cbn [concat]. f_equal.
    rewrite <- (IH (skipn b s)) by (rewrite length_skipn; simpl in Hs; lia).
    f_equal. apply map_ext. intros k.
    rewrite skipn_skipn. do 2 f_equal. simpl. lia.
Qed.

(** The chunks, in order, make up the text: no gap, no overlap. *)
Lemma chunks_concat (text : str) (B : Z) :
  0 < B -> concat (chunks text B) = text.
Proof.
  intros HB. unfold chunks, py_range. rewrite map_map.
  rewrite (map_ext _ (fun k => firstn (Z.to_nat B) (skipn (k * Z.to_nat B) text)))
    by (intros k; apply slice_chunk; exact HB).
  apply concat_blocks; [lia|].
  fold (total_chunks_of (len text) B).
  pose proof (total_chunks_of_ceil (len text) B HB) as Hc.
  pose proof (total_chunks_of_nonneg (len text) B HB (len_nonneg text)).
  unfold len in *. nia.
Qed.

(** Every chunk but the last has [B] code points; none is empty. *)
Lemma chunk_length (text : str) (B : Z) (k : nat) :
  0 < B ->
  (k < Z.to_nat (total_chunks_of (len text) B))%nat ->
  len (slice text (Z.of_nat k * B) (Z.of_nat k * B + B))
  = Z.min B (len text - Z.of_nat k * B)
  /\ 0 < Z.min B (len text - Z.of_nat k * B).
Proof.
  intros HB Hk.
  pose proof (total_chunks_of_ceil (len text) B HB) as Hc.
  rewrite slice_chunk by exact HB. unfold len in *.
  rewrite length_firstn, length_skipn. nia.
Qed.

(* ====================================================================== *)
(** * Properties of the sanitizer *)
(* ====================================================================== *)

(** Boolean range tests, turned into linear arithmetic. *)
Ltac bool_to_prop :=
  repeat match goal with
    | H : _ || _ = true |- _ => apply orb_true_iff in H; destruct H as [H|H]
    | H : _ && _ = true |- _ => apply andb_true_iff in H; destruct H as [? H]
    | H : (_ <=? _) = true |- _ => apply Z.leb_le in H
    | H : (_ =? _) = true |- _ => apply Z.eqb_eq in H
    end.

Lemma arabic_not_space (c : Z) : is_arabic c = true -> is_space c = false.
Proof.
  intros Ha. destruct (is_space c) eqn:Hs; [|reflexivity].
  unfold is_arabic in Ha. unfold is_space in Hs. bool_to_prop; lia.
Qed.

Definition no_arabic (s : str) : Prop := forallb not_arabic s = true.

Definition starts_arabic (s : str) : Prop :=
  exists c s', s = c :: s' /\ is_arabic c = true.

Definition ends_arabic (s : str) : Prop :=
  exists s' c, s = s' ++ [c] /\ is_arabic c = true.

(** [span] splits its argument; the prefix satisfies the test and the rest
    does not begin with a code point that does. *)
Lemma span_spec (p : Z -> bool) (s : str) :
  forall a r, span p s = (a, r) ->
    s = a ++ r /\ forallb p a = true
    /\ match r with [] => True | c :: _ => p c = false end.
Proof.
  induction s as [|c s IH]; simpl; intros a r H.
  - inversion H; subst. auto.
  - destruct (p c) eqn:Hc.
    + destruct (span p s) as [a' r'] eqn:Hsp. inversion H; subst.
      destruct (IH a' r eq_refl) as (-> & Hall & Hr).
      simpl. rewrite Hc, Hall. auto.
    + inversion H; subst. simpl. auto.
Qed.

Lemma span_head_true (p : Z -> bool) (c : Z) (s : str) :
  p c = true -> exists a r, span p (c :: s) = (c :: a, r).
Proof.
  intros H. simpl. rewrite H. destruct (span p s) as [a r]. eauto.
Qed.

Lemma span_head_false (p : Z -> bool) (c : Z) (s : str) :
  p c = false -> span p (c :: s) = ([], c :: s).
Proof. intros H. simpl. now rewrite H. Qed.

Lemma ends_arabic_app (a b : str) : ends_arabic b -> ends_arabic (a ++ b).
Proof.
  intros (b' & c & -> & Hc). exists (a ++ b'), c. now rewrite app_assoc.
Qed.

Lemma forallb_arabic_ends (c : Z) (a : str) :
  forallb is_arabic (c :: a) = true -> ends_arabic (c :: a).
Proof.
  intros H. destruct (exists_last (l := c :: a) ltac:(discriminate))
    as (a' & x & E).
  rewrite E in *. exists a', x. split; [reflexivity|].
  rewrite forallb_app in H. apply andb_true_iff in H as [_ H].
  simpl in H. now rewrite andb_true_r in H.
Qed.

(** The iterated group consumes up to the last Arabic code point. *)
Lemma run_groups_spec (fuel : nat) :
  forall s m r,
    (length s <= fuel)%nat ->
    match s with [] => True | c :: _ => is_arabic c = false end ->
    run_groups fuel s = (m, r) ->
    s = m ++ r /\ no_arabic r /\ (m = [] \/ ends_arabic m).
Proof.
  induction fuel as [|fuel IH]; intros s m r Hlen Hhd H.
  - destruct s; [|simpl in Hlen; lia]. inversion H; subst.
    repeat split; auto.
  - simpl in H.
    destruct (span not_arabic s) as [n r1] eqn:Hn.
    destruct (span is_arabic r1) as [a r2] eqn:Ha.
    destruct (span_spec _ _ _ _ Hn) as (Es & Hnall & Hr1).
    destruct (span_spec _ _ _ _ Ha) as (Er1 & Haall & Hr2).
    destruct n as [|n0 n'].
    + (* [s] is empty: it does not begin with an Arabic code point *)
      inversion H; subst m r. simpl in Es. subst r1.
      destruct s as [|c s']; [repeat split; auto|].
      unfold not_arabic in Hr1. rewrite Hhd in Hr1. discriminate.
    + destruct a as [|a0 a'].
      * (* the rest after the non-Arabic code points is empty *)
        inversion H; subst m r. simpl in Er1. subst r2.
        destruct r1 as [|c r1'].
        -- rewrite app_nil_r in Es. subst s. repeat split; auto.
        -- unfold not_arabic in Hr1. apply negb_false_iff in Hr1.
           rewrite Hr1 in Hr2. discriminate.
      * destruct (run_groups fuel r2) as [m' r'] eqn:Hg.
        inversion H; subst m r.
        assert (Hl : (length r2 <= fuel)%nat).
        { subst s r1. rewrite !length_app in Hlen. simpl in Hlen. lia. }
        destruct (IH r2 m' r' Hl Hr2 Hg) as (E2 & Hno & Hm').
        split.
        { rewrite Es, Er1, E2. simpl.
          repeat (rewrite <- app_assoc; simpl). reflexivity. }
        split; [exact Hno|]. right.
        change (ends_arabic ((n0 :: n') ++ (a0 :: a') ++ m')).
        apply ends_arabic_app.
        destruct Hm' as [->|Hm'].
        -- rewrite app_nil_r. now apply forallb_arabic_ends.
        -- now apply ends_arabic_app.
Qed.

Lemma run_at_spec (c : Z) (s : str) :
  is_arabic c = true ->
  exists run post,
    run_at (c :: s) = Some (run, post) /\ c :: s = run ++ post
    /\ no_arabic post /\ starts_arabic run /\ ends_arabic run.
Proof.
  intros Hc. unfold run_at.
  destruct (span_head_true is_arabic c s Hc) as (a & r & Hsp).
  rewrite Hsp.
  destruct (span_spec _ _ _ _ Hsp) as (Es & Hall & Hr).
  destruct (run_groups (length r) r) as [m r'] eqn:Hg.
  destruct (run_groups_spec _ _ _ _ (le_n _) Hr Hg) as (Er & Hno & Hm).
  exists ((c :: a) ++ m), r'. repeat split.
  - rewrite Es, Er. now rewrite app_assoc.
  - exact Hno.
  - exists c, (a ++ m). auto.
  - destruct Hm as [->|Hm]; [rewrite app_nil_r; now apply forallb_arabic_ends|].
    now apply ends_arabic_app.
Qed.

Lemma findall_runs_none (fuel : nat) :
  forall s, no_arabic s -> findall_runs fuel s = [].
Proof.
  induction fuel as [|fuel IH]; intros s Hs; [reflexivity|].
  destruct s as [|c s]; [reflexivity|].
  unfold no_arabic in Hs. simpl in Hs. apply andb_true_iff in Hs as [Hc Hs].
  unfold not_arabic in Hc. apply negb_true_iff in Hc.
  cbn [findall_runs]. unfold run_at. rewrite (span_head_false _ _ _ Hc).
  now apply IH.
Qed.

Lemma no_arabic_existsb (s : str) :
  no_arabic s <-> existsb is_arabic s = false.
Proof.
  unfold no_arabic, not_arabic. induction s as [|c s IH]; simpl; [tauto|].
  rewrite andb_true_iff, orb_false_iff, negb_true_iff. tauto.
Qed.

(** [re.findall] on a text with an Arabic code point returns one match:
    the text from the first Arabic code point to the last. *)
Lemma findall_runs_some :
  forall s fuel,
    (length s <= fuel)%nat ->
    existsb is_arabic s = true ->
    exists pre run post,
      s = pre ++ run ++ post /\ no_arabic pre /\ no_arabic post
      /\ starts_arabic run /\ ends_arabic run
      /\ findall_runs fuel s = [run].
Proof.
  induction s as [|c s IH]; intros fuel Hlen Hex; [discriminate|].
  destruct fuel as [|fuel]; [simpl in Hlen; lia|].
  cbn [findall_runs].
  destruct (is_arabic c) eqn:Hc.
  - destruct (run_at_spec c s Hc) as (run & post & Hr & E & Hno & Hst & Hen).
    rewrite Hr. exists [], run, post.
    rewrite (findall_runs_none fuel post Hno).
    repeat split; auto.
  - unfold run_at. rewrite (span_head_false _ _ _ Hc).
    simpl in Hex. rewrite Hc in Hex. simpl in Hex, Hlen.
    destruct (IH fuel ltac:(lia) Hex)
      as (pre & run & post & E & Hpre & Hpost & Hst & Hen & Hf).
    exists (c :: pre), run, post. subst s.
    repeat split; auto.
    unfold no_arabic, not_arabic. simpl. rewrite Hc. exact Hpre.
Qed.

Lemma arabic_runs_none (s : str) :
  existsb is_arabic s = false -> arabic_runs s = [].
Proof.
  intros H. apply findall_runs_none. now apply no_arabic_existsb.
Qed.

Lemma arabic_runs_some (s : str) :
  existsb is_arabic s = true ->
  exists pre run post,
    s = pre ++ run ++ post /\ no_arabic pre /\ no_arabic post
    /\ starts_arabic run /\ ends_arabic run /\ arabic_runs s = [run].
Proof. intros H. now apply findall_runs_some. Qed.

(** A run has nothing to strip at either end. *)
Lemma strip_run (run : str) :
  starts_arabic run -> ends_arabic run -> strip run = run.
Proof.
  intros (c & s' & -> & Hc) (s'' & d & E & Hd).
  unfold strip. cbn [lstrip]. rewrite (arabic_not_space c Hc).
  unfold rstrip. rewrite E, rev_app_distr. cbn [rev app lstrip].
  rewrite (arabic_not_space d Hd).
  change (d :: rev s'') with ([d] ++ rev s'').
  now rewrite rev_app_distr, rev_involutive.
Qed.

Section SanitizerFacts.

Context (db : unicode_db).

(** The lines kept are the lines of the text, in order, that neither
    match the pattern nor are boilerplate. *)
Lemma filtered_lines_spec (text ln : str) :
  In ln (filtered_lines db text)
  <-> In ln (splitlines text)
      /\ thought_search db ln = false /\ is_boilerplate db ln = false.
Proof.
  unfold filtered_lines. rewrite filter_In. unfold dropped.
  rewrite negb_true_iff, orb_false_iff. tauto.
Qed.

Lemma sanitize_str_runs (text : str) :
  existsb is_arabic (cleaned db text) = true ->
  exists pre run post,
    cleaned db text = pre ++ run ++ post
    /\ no_arabic pre /\ no_arabic post
    /\ starts_arabic run /\ ends_arabic run
    /\ arabic_runs (cleaned db text) = [run]
    /\ sanitize_str db text = run.
Proof.
  intros H.
  destruct (arabic_runs_some _ H)
    as (pre & run & post & E & Hpre & Hpost & Hst & Hen & Hr).
  exists pre, run, post. repeat split; auto.
  unfold sanitize_str. rewrite Hr. cbn [map join].
  now rewrite !(strip_run run Hst Hen).
Qed.

Lemma sanitize_str_no_runs (text : str) :
  existsb is_arabic (cleaned db text) = false ->
  sanitize_str db text = cleaned db text.
Proof.
  intros H. unfold sanitize_str. now rewrite (arabic_runs_none _ H).
Qed.

Lemma sanitize_output_str_eq (s : str) :
  sanitize_output_str db s
  = match s with [] => [] | _ :: _ => sanitize_str db s end.
Proof. destruct s; reflexivity. Qed.

End SanitizerFacts.

(** ** What the example needs from the Unicode tables

    Facts of the Unicode database about ASCII and Arabic code points. *)
Record unicode_facts (db : unicode_db) : Prop := {
  alnum_ascii :
    forall c, 0 <= c < 128 -> uni_alnum db c = ascii_alnum c;
  ci_ascii :
    forall p c, 97 <= p <= 122 -> 0 <= c < 128 ->
      sre_ci db p c = (ascii_lower c =? p);
  ci_arabic :
    forall p c, 97 <= p <= 122 -> is_arabic c = true -> sre_ci db p c = false;
  lower_uncased :
    forall s, forallb (fun c => is_arabic c || (c =? 32)) s = true ->
      str_lower db s = s
}.

Lemma ascii_lower_arabic (c : Z) : is_arabic c = true -> ascii_lower c = c.
Proof.
  intros H. unfold ascii_lower.
  destruct ((65 <=? c) && (c <=? 90)) eqn:E; [|reflexivity].
  unfold is_arabic in H. bool_to_prop; lia.
Qed.

Lemma ascii_db_facts : unicode_facts ascii_db.
Proof.
  split; simpl.
  - reflexivity.
  - intros p c Hp _. f_equal. unfold ascii_lower.
    destruct ((65 <=? p) && (p <=? 90)) eqn:E; [bool_to_prop; lia|reflexivity].
  - intros p c Hp Hc. rewrite (ascii_lower_arabic c Hc).
    apply Z.eqb_neq. unfold ascii_lower, is_arabic in *.
    destruct ((65 <=? p) && (p <=? 90)); bool_to_prop; lia.
  - induction s as [|c s IH]; simpl; [reflexivity|].
    intros H. apply andb_true_iff in H as [Hc Hs]. rewrite (IH Hs). f_equal.
    apply orb_true_iff in Hc as [Hc|Hc]; [now apply ascii_lower_arabic|].
    apply Z.eqb_eq in Hc. now subst.
Qed.

(** "مرحبا بالعالم" *)
Definition marhaban_bil_alam : str :=
  [0x645; 0x631; 0x62d; 0x628; 0x627; 32;
   0x628; 0x627; 0x644; 0x639; 0x627; 0x644; 0x645].

Section SanitizerExample.

Context (db : unicode_db) (F : unicode_facts db).

(** No match can begin at a code point that none of the first letters
    [t], [r], [a], [c] of the alternatives accepts. *)
Lemma thought_at_no_start (before : option Z) (s : str) :
  (forall c, hd_error s = Some c ->
     forall l, In l [116; 114; 97; 99] -> sre_ci db l c = false) ->
  thought_at db before s = false.
Proof.
  intros H. unfold thought_at. apply andb_false_iff. right.
  destruct s as [|c s]; [reflexivity|].
  specialize (H c eq_refl).
  cbn. rewrite !H by (simpl; tauto). reflexivity.
Qed.

Lemma thought_search_no_start (s : str) :
  Forall (fun c => forall l, In l [116; 114; 97; 99] -> sre_ci db l c = false) s ->
  thought_search db s = false.
Proof.
  unfold thought_search. generalize (@None Z).
  induction s as [|c s IH]; intros before Hs; cbn [thought_search_from].
  - rewrite thought_at_no_start by (intros c Hc; discriminate). reflexivity.
  - inversion Hs as [|? ? Hc Hs']; subst.
    rewrite thought_at_no_start.
    + simpl. now apply IH.
    + intros c' E. inversion E; subst. exact Hc.
Qed.

Lemma arabic_or_space_no_start (c : Z) :
  is_arabic c || (c =? 32) = true ->
  forall l, In l [116; 114; 97; 99] -> sre_ci db l c = false.
Proof.
  intros Hc l Hl.
  assert (97 <= l <= 122) by (simpl in Hl; lia).
  apply orb_true_iff in Hc as [Hc|Hc].
  - now apply (ci_arabic db F).
  - apply Z.eqb_eq in Hc. subst c.
    rewrite (ci_ascii db F) by lia. apply Z.eqb_neq.
    unfold ascii_lower. simpl. lia.
Qed.

Lemma is_word_ascii (c : Z) :
  0 <= c < 128 -> is_word db c = ascii_alnum c || (c =? 95).
Proof. intros H. unfold is_word. now rewrite (alnum_ascii db F). Qed.

Lemma thinking_line_dropped : dropped db (lit "thinking...") = true.
Proof.
  unfold dropped. apply orb_true_iff. left.
  unfold thought_search.
  change (lit "thinking...")
    with [116; 104; 105; 110; 107; 105; 110; 103; 46; 46; 46].
  cbn [thought_search_from]. apply orb_true_iff. left.
  unfold thought_at. apply andb_true_iff. split.
  - cbn. rewrite is_word_ascii by lia. reflexivity.
  - apply existsb_exists. exists (plits "thinking"). split.
    + unfold thought_alternatives. simpl. tauto.
    + cbn. rewrite !(ci_ascii db F) by lia. cbn.
      unfold boundary, word_opt. rewrite !is_word_ascii by lia. reflexivity.
Qed.

Lemma marhaban_line_kept : dropped db marhaban_bil_alam = false.
Proof.
  unfold dropped. apply orb_false_iff. split.
  - apply thought_search_no_start.
    assert (H : forallb (fun c => is_arabic c || (c =? 32)) marhaban_bil_alam
                = true) by reflexivity.
    rewrite forallb_forall in H. apply Forall_forall.
    intros c Hc. apply arabic_or_space_no_start. now apply H.
  - unfold is_boilerplate.
    replace (strip marhaban_bil_alam) with marhaban_bil_alam by reflexivity.
    rewrite (lower_uncased db F) by reflexivity. reflexivity.
Qed.

Lemma sanitize_str_example :
  sanitize_str db (lit "thinking..." ++ nl ++ marhaban_bil_alam)
  = marhaban_bil_alam.
Proof.
  unfold sanitize_str, cleaned, filtered_lines.
  replace (splitlines (lit "thinking..." ++ nl ++ marhaban_bil_alam))
    with [lit "thinking..."; marhaban_bil_alam] by reflexivity.
  cbn [filter]. rewrite thinking_line_dropped, marhaban_line_kept.
  reflexivity.
Qed.

End SanitizerExample.

(* ====================================================================== *)
(** * Properties of the backend client *)
(* ====================================================================== *)

Lemma translate_with_ollama_eq (fe : frontend) (w : world)
    (st : TranslationState) (text : str) (m : option str)
    (log : list request) :
  translate_with_ollama fe w st text m log
  = match request_for fe w st text m with
    | Ok r => (Ok (result_for fe w st (ollama w (length log) r)), log ++ [r])
    | Raise e => (Raise e, log)
    end.
Proof.
  destruct fe; simpl.
  - reflexivity.
  - unfold GradioClient.translate_with_ollama.
    destruct (GradioClient.prompt w st text); reflexivity.
Qed.

(** The client reads the options of the state only. *)
Lemma request_for_opts (fe : frontend) (w : world)
    (st st' : TranslationState) (text : str) (m : option str) :
  opts st = opts st' ->
  request_for fe w st text m = request_for fe w st' text m.
Proof.
  intros E. destruct fe; simpl; [reflexivity|].
  unfold GradioClient.prompt, GradioClient.build_request. now rewrite E.
Qed.

Lemma result_for_opts (fe : frontend) (w : world)
    (st st' : TranslationState) (o : outcome) :
  opts st = opts st' -> result_for fe w st o = result_for fe w st' o.
Proof.
  intros E. destruct fe; simpl; [reflexivity|].
  unfold GradioClient.result_of. now rewrite E.
Qed.

(** Flask builds its request without fail. *)
Lemma flask_request_ok (w : world) (st : TranslationState) (text : str)
    (m : option str) :
  request_for Flask w st text m = Ok (FlaskClient.build_request text m).
Proof. reflexivity. Qed.

(* ====================================================================== *)
(** * Invariants of a job *)
(* ====================================================================== *)

Lemma firstn_snoc_nth {A : Type} (l : list A) (k : nat) (x : A) :
  nth_error l k = Some x -> firstn (S k) l = firstn k l ++ [x].
Proof.
  revert k. induction l as [|a l IH]; intros [|k] H; simpl in *;
    try discriminate.
  - now inversion H.
  - f_equal. now apply IH.
Qed.

Section JobFacts.

Context (fe : frontend) (w : world) (j : job).

Let B := batch_size j.
Let T := job_text j.
Let L := total_chars j.
Let N := job_total_chunks j.
Let md := model (j_config j).

(** The state a job starts from. *)
Definition initial_system : system := start_translation fe j fresh_state.

Definition st_init : TranslationState := state initial_system.

Lemma start_translation_any (st0 : TranslationState) :
  start_translation fe j st0 = initial_system.
Proof. reflexivity. Qed.

Lemma B_pos : 0 < B.
Proof. apply calculate_optimal_batch_size_pos. Qed.

Lemma L_nonneg : 0 <= L.
Proof. apply len_nonneg. Qed.

Lemma N_ceil : L <= N * B < L + B.
Proof. apply total_chunks_of_ceil, B_pos. Qed.

Lemma N_nonneg : 0 <= N.
Proof. apply total_chunks_of_nonneg; [apply B_pos|apply L_nonneg]. Qed.

(** An index of the loop below the length is the start of a chunk. *)
Lemma loop_index_chunk (k : nat) :
  Z.of_nat k * B < L -> (k < Z.to_nat N)%nat.
Proof.
  intros H. pose proof N_ceil. pose proof B_pos. nia.
Qed.

Lemma chunk_num_at (k : nat) : chunk_num j (Z.of_nat k * B) = Z.of_nat (S k).
Proof.
  unfold chunk_num. fold B. rewrite Z.div_mul by (pose proof B_pos; lia). lia.
Qed.

(** [processed cs log trs]: the chunks [cs] were sent to the backend in
    this order, one invocation each, [log] are the requests and [trs] the
    strings returned for them. *)
Inductive processed : list str -> list request -> list str -> Prop :=
| processed_nil : processed [] [] []
| processed_snoc cs log trs c r :
    processed cs log trs ->
    request_for fe w st_init c md = Ok r ->
    processed (cs ++ [c]) (log ++ [r])
      (trs ++ [result_for fe w st_init (ollama w (length log) r)]).

Lemma processed_lengths cs log trs :
  processed cs log trs ->
  length log = length cs /\ length trs = length cs.
Proof.
  induction 1 as [|cs log trs c r _ [IH1 IH2] _]; [auto|].
  rewrite !length_app. simpl. lia.
Qed.

(** The part of the invariant that depends on where the worker stands.
    [k] is the number of results stored. *)
Definition pc_inv (s : system) : Prop :=
  let st := state s in
  let k := length (translated_chunks st) in
  let done := processed (firstn k (chunks T B)) (backend_log s)
                (translated_chunks st) in
  let no_output := artifacts s = [] /\ output_file st = None in
  let written :=
    artifacts s = []
    \/ (artifacts s = [(out_path w j, full_text st)]
        /\ L <= Z.of_nat k * B) in
  match worker s with
  | PStart => k = 0%nat /\ backend_log s = [] /\ no_output
  | PLoop i => i = Z.of_nat k * B /\ done /\ no_output
  | PPaused i | PStatus i | PTranslate i =>
      i = Z.of_nat k * B /\ i < L /\ done /\ no_output
  | PStore i tr =>
      i = Z.of_nat k * B /\ i < L /\ no_output
      /\ processed (firstn (S k) (chunks T B)) (backend_log s)
           (translated_chunks st ++ [tr])
  | PFinish => done /\ no_output /\ (stopped st = true \/ L <= Z.of_nat k * B)
  | PExcept _ => done /\ output_file st = None /\ written
  | PDone =>
      done
      /\ (output_file st = None
          \/ (fe = Flask /\ output_file st = Some (out_filename w)))
      /\ written
      /\ (output_file st <> None -> artifacts s <> [])
  end.

Definition inv (s : system) : Prop :=
  let st := state s in
  let k := length (translated_chunks st) in
  opts st = opts st_init
  /\ current_chunk st = Z.of_nat k
  /\ Z.of_nat k <= N
  /\ (locked s = true -> paused st = true /\ exists i, worker s = PPaused i)
  /\ pc_inv s.

End JobFacts.

Lemma inv_initial (fe : frontend) (w : world) (j : job) :
  inv fe w j (initial_system fe j).
Proof.
  pose proof (N_nonneg j).
  unfold inv, pc_inv, initial_system, st_init.
  destruct fe; simpl; repeat split; auto; try lia; try discriminate.
Qed.

(** ** The invariant is kept by every step *)

Lemma length_zero_nil {A : Type} (l : list A) : length l = 0%nat -> l = [].
Proof. destruct l; [reflexivity|discriminate]. Qed.

Lemma init_section_fields (fe : frontend) (w : world) (j : job)
    (st : TranslationState) :
  let st' := init_section fe w j st in
  opts st' = opts st /\ translated_chunks st' = []
  /\ current_chunk st' = 0 /\ output_file st' = output_file st
  /\ stopped st' = stopped st /\ paused st' = paused st
  /\ total_chunks st' = job_total_chunks j /\ running st' = true.
Proof. destruct fe; simpl; repeat split. Qed.

Lemma store_section_fields (fe : frontend) (j : job) (i : Z) (tr : str)
    (st : TranslationState) :
  let st' := store_section fe j i tr st in
  opts st' = opts st
  /\ translated_chunks st' = translated_chunks st ++ [tr]
  /\ current_chunk st' = chunk_num j i
  /\ output_file st' = output_file st
  /\ stopped st' = stopped st /\ paused st' = paused st
  /\ error st' = error st /\ running st' = running st.
Proof. destruct fe; simpl; repeat split. Qed.

Lemma except_section_fields (fe : frontend) (e : exn)
    (st : TranslationState) :
  let st' := except_section fe e st in
  opts st' = opts st
  /\ translated_chunks st' = translated_chunks st
  /\ current_chunk st' = current_chunk st
  /\ output_file st' = output_file st
  /\ stopped st' = stopped st /\ paused st' = paused st.
Proof. destruct fe; simpl; repeat split. Qed.

(** Closes the routine parts of an invariant goal. *)
Ltac lock_contradiction :=
  match goal with
  | Hl : ?a = true -> _ /\ (exists _, _), H : ?a = true |- _ =>
      destruct (Hl H) as (_ & ? & ?); discriminate
  end.

Ltac open_inv :=
  unfold inv, pc_inv; cbn -[firstn chunks Z.mul Z.of_nat Z.add
        init_section store_section except_section].

Ltac inv_goals :=
  repeat split; intros;
  try discriminate; try lock_contradiction; try congruence; auto; try lia.

Lemma worker_step_inv (fe : frontend) (w : world) (j : job) (s s' : system) :
  inv fe w j s -> worker_step fe w j s = Some s' -> inv fe w j s'.
Proof.
  intros (Hopts & Hcur & HkN & Hlock & Hpc) Hstep.
  pose proof (B_pos j) as HB. pose proof (N_nonneg j) as HN.
  unfold worker_step in Hstep. unfold pc_inv in Hpc.
  destruct (worker s) eqn:Epc.
  - (* PStart *)
    destruct Hpc as (Hk & Hlog & Hart & Hout).
    apply length_zero_nil in Hk.
    destruct (j_doc j) as [text|e] eqn:Edoc.
    + destruct (locked s) eqn:El; [discriminate|].
      inversion Hstep; subst s'; clear Hstep.
      destruct (init_section_fields fe w j (state s))
        as (E1 & E2 & E3 & E4 & _).
      open_inv. rewrite E1, E2, E3, E4, El, Hlog. cbn.
      inv_goals. constructor.
    + inversion Hstep; subst s'; clear Hstep.
      open_inv. rewrite Hk, Hlog in *. cbn in *.
      inv_goals. constructor.
  - (* PLoop *)
    destruct Hpc as (Hi & Hdone & Hart & Hout).
    fold (total_chars j) in Hstep.
    destruct (Z.leb_spec (total_chars j) i).
    + inversion Hstep; subst s'; clear Hstep.
      open_inv. inv_goals.
    + destruct (locked s) eqn:El; [discriminate|].
      destruct (stopped (state s)) eqn:Est.
      * inversion Hstep; subst s'; clear Hstep.
        open_inv. rewrite El. inv_goals.
      * destruct (paused (state s)) eqn:Epa;
          inversion Hstep; subst s'; clear Hstep.
        -- open_inv. inv_goals. eauto.
        -- open_inv. rewrite El.
           destruct fe; cbn; inv_goals.
  - (* PPaused *)
    destruct Hpc as (Hi & HiL & Hdone & Hart & Hout).
    destruct (paused (state s)) eqn:Epa;
      inversion Hstep; subst s'; clear Hstep.
    + unfold inv, pc_inv. rewrite Epc. inv_goals. eauto.
    + open_inv.
      destruct fe; cbn; inv_goals.
  - (* PStatus *)
    destruct Hpc as (Hi & HiL & Hdone & Hart & Hout).
    destruct (locked s) eqn:El; [discriminate|].
    inversion Hstep; subst s'; clear Hstep.
    open_inv. rewrite El. inv_goals.
  - (* PTranslate *)
    destruct Hpc as (Hi & HiL & Hdone & Hart & Hout).
    rewrite translate_with_ollama_eq in Hstep.
    destruct (request_for fe w (state s) (slice (job_text j) i (i + batch_size j))
                (model (j_config j))) as [r|e] eqn:Ereq;
      inversion Hstep; subst s'; clear Hstep.
    + open_inv. inv_goals.
      rewrite (firstn_snoc_nth _ _ (slice (job_text j) i (i + batch_size j))).
      * rewrite (result_for_opts fe w _ (st_init fe j)) by exact Hopts.
        constructor; [exact Hdone|].
        rewrite <- Ereq. symmetry. now apply request_for_opts.
      * rewrite Hi. apply chunks_nth.
        apply (loop_index_chunk j). unfold total_chars in *. lia.
    + open_inv. inv_goals.
  - (* PStore *)
    destruct Hpc as (Hi & HiL & (Hart & Hout) & Hdone).
    destruct (locked s) eqn:El; [discriminate|].
    inversion Hstep; subst s'; clear Hstep.
    destruct (store_section_fields fe j i tr (state s))
      as (E1 & E2 & E3 & E4 & _).
    open_inv. rewrite E1, E2, E3, E4, El.
    rewrite length_app. cbn [length].
    replace (length (translated_chunks (state s)) + 1)%nat
      with (S (length (translated_chunks (state s)))) by lia.
    pose proof (loop_index_chunk j (length (translated_chunks (state s)))) as Hlt.
    inv_goals. rewrite Hi. apply chunk_num_at.
  - (* PFinish *)
    destruct Hpc as (Hdone & (Hart & Hout) & Hend).
    destruct (locked s) eqn:El; [discriminate|].
    inversion Hstep; subst s'; clear Hstep.
    unfold finish_section. cbn [stopped set_running].
    destruct (stopped (state s)) eqn:Est.
    + open_inv. rewrite El. inv_goals.
    + destruct Hend as [Hend|Hend]; [discriminate|].
      destruct fe; cbn.
      * destruct (write_docx w _ _ _ _).
        -- open_inv. rewrite El. inv_goals.
        -- open_inv. rewrite El, Hart. inv_goals.
      * destruct (write_docx w _ _ _ _).
        -- open_inv. rewrite El. inv_goals.
        -- destruct (start_time (state s));
             open_inv; rewrite El, Hart; inv_goals.
  - (* PExcept *)
    destruct Hpc as (Hdone & Hout & Hw).
    destruct (locked s) eqn:El; [discriminate|].
    inversion Hstep; subst s'; clear Hstep.
    destruct (except_section_fields fe e (state s))
      as (E1 & E2 & E3 & E4 & _).
    open_inv. unfold full_text in *. rewrite E1, E2, E3, E4, El.
    inv_goals.
  - discriminate.
Qed.

Lemma command_step_inv (fe : frontend) (w : world) (j : job) (c : command)
    (s s' : system) :
  inv fe w j s -> command_step fe w j c s = Some s' -> inv fe w j s'.
Proof.
  intros (Hopts & Hcur & HkN & Hlock & Hpc) Hstep.
  unfold command_step in Hstep.
  destruct (locked s) eqn:El; [discriminate|].
  inversion Hstep; subst s'; clear Hstep.
  unfold pc_inv in Hpc.
  destruct c.
  - (* Pause *)
    open_inv. rewrite El. destruct (worker s); inv_goals; tauto.
  - (* Stop *)
    open_inv. rewrite El.
    destruct fe; cbn; destruct (worker s); inv_goals; tauto.
  - (* Status *)
    unfold inv, pc_inv. inv_goals.
  - (* Export *)
    destruct (snd (export fe w j (state s))) as [[path text]|];
      open_inv; rewrite ?El; inv_goals.
Qed.

Lemma sys_step_inv (fe : frontend) (w : world) (j : job) (l : label)
    (s s' : system) :
  inv fe w j s -> sys_step fe w j l s = Some s' -> inv fe w j s'.
Proof.
  destruct l.
  - apply worker_step_inv.
  - apply command_step_inv.
Qed.

Lemma run_inv (fe : frontend) (w : world) (j : job) (ls : list label) :
  forall s s', inv fe w j s -> run fe w j ls s = Some s' -> inv fe w j s'.
Proof.
  induction ls as [|l ls IH]; intros s s' Hinv Hrun; simpl in Hrun.
  - now inversion Hrun; subst.
  - destruct (sys_step fe w j l s) as [s1|] eqn:E; [|discriminate].
    eapply IH; [|exact Hrun]. eapply sys_step_inv; eauto.
Qed.

Lemma reachable_inv (fe : frontend) (w : world) (j : job)
    (st0 : TranslationState) (s : system) :
  reachable fe w j st0 s -> inv fe w j s.
Proof.
  intros [ls Hrun]. eapply run_inv; [|exact Hrun]. apply inv_initial.
Qed.

Lemma run_app (fe : frontend) (w : world) (j : job) (l1 l2 : list label) :
  forall s,
    run fe w j (l1 ++ l2) s
    = match run fe w j l1 s with
      | Some s' => run fe w j l2 s'
      | None => None
      end.
Proof.
  induction l1 as [|l l1 IH]; intros s; simpl; [reflexivity|].
  destruct (sys_step fe w j l s); [apply IH|reflexivity].
Qed.

Lemma reachable_step (fe : frontend) (w : world) (j : job)
    (st0 : TranslationState) (ls : list label) (s s' : system) :
  reachable fe w j st0 s -> run fe w j ls s = Some s' ->
  reachable fe w j st0 s'.
Proof.
  intros [l0 H0] H. exists (l0 ++ ls). now rewrite run_app, H0.
Qed.

(* ====================================================================== *)
(** * Batch size and total chunks (C2) *)
(* ====================================================================== *)








(** A backend that answers every chunk with the same Arabic sentence, a
    document writer that succeeds. *)
Definition demo_world : world := {|
  db := ascii_db;
  ollama := fun _ _ => Completed 0 marhaban_bil_alam [];
  str_format := fun template _ => Ok template;
  write_docx := fun _ _ _ _ => None;
  time_start := 0;
  time_finish := 60;
  timestamp := lit "20260218_120000";
  system_stats := lit "CPU: 10.0% | RAM: 40.0%";
  cwd := lit "/srv/tajreba"
|}.




(* ====================================================================== *)
(** * A short document and its job *)
(* ====================================================================== *)

(** A short document and a job on it: three chunks of 1000, 1000 and 500
    letters. *)
Definition doc_2500 : str := repeat 97 2500.

Definition job_2500 : job := {|
  j_doc := Ok doc_2500;
  j_dir := lit "uploads";
  j_config := {| model := Some (lit "command-r7b-arabic"); rtl := true |};
  j_options := {| o_prompt_template := []; o_prompt_mode := lit "append";
                  o_disable_think := true; o_enable_concise := false;
                  o_enable_filter := true |}
|}.

(** The state a schedule leads to, from the start of the job. *)
Definition after (fe : frontend) (w : world) (j : job) (ls : list label)
  : system :=
  match run fe w j ls (initial_system fe j) with
  | Some s => s
  | None => initial_system fe j
  end.

Lemma after_reachable (fe : frontend) (w : world) (j : job)
    (ls : list label) (st0 : TranslationState) :
  run fe w j ls (initial_system fe j) <> None ->
  reachable fe w j st0 (after fe w j ls).
Proof.
  intros H. exists ls. rewrite start_translation_any. unfold after.
  destruct (run fe w j ls (initial_system fe j)); [reflexivity|congruence].
Qed.

(* ====================================================================== *)
(** * Backend failures (C3) *)
(* ====================================================================== *)

Lemma reachable_unlocked (fe : frontend) (w : world) (j : job)
    (st0 : TranslationState) (s : system) :
  reachable fe w j st0 s ->
  (forall i, worker s <> PPaused i) -> locked s = false.
Proof.
  intros Hr Hpc.
  destruct (reachable_inv fe w j st0 s Hr) as (_ & _ & _ & Hlock & _).
  destruct (locked s); [|reflexivity].
  destruct (Hlock eq_refl) as (_ & i & Hi). now apply Hpc in Hi.
Qed.

(** The worker stores what the client returned and moves to the next
    chunk, whatever the backend did. *)
Lemma worker_stores_and_continues (fe : frontend) (w : world) (j : job)
    (s : system) (i : Z) (r : request) :
  worker s = PTranslate i ->
  locked s = false ->
  request_for fe w (state s) (slice (job_text j) i (i + batch_size j))
    (model (j_config j)) = Ok r ->
  let tr := result_for fe w (state s) (ollama w (length (backend_log s)) r) in
  exists s1 s2,
    worker_step fe w j s = Some s1
    /\ worker s1 = PStore i tr
    /\ worker_step fe w j s1 = Some s2
    /\ worker s2 = PLoop (i + batch_size j)
    /\ translated_chunks (state s2) = translated_chunks (state s) ++ [tr]
    /\ backend_log s2 = backend_log s ++ [r]
    /\ error (state s2) = error (state s)
    /\ running (state s2) = running (state s)
    /\ stopped (state s2) = stopped (state s)
    /\ paused (state s2) = paused (state s)
    /\ locked s2 = false.
Proof.
  intros Hpc Hl Hreq tr.
  eexists. eexists.
  split.
  { unfold worker_step. rewrite Hpc, translate_with_ollama_eq, Hreq.
    reflexivity. }
  split; [reflexivity|].
  split.
  { unfold worker_step. cbn. rewrite Hl. reflexivity. }
  destruct (store_section_fields fe j i tr (state s))
    as (_ & E2 & _ & _ & E5 & E6 & E7 & E8).
  cbn -[store_section]. fold tr. rewrite E2, E5, E6, E7, E8.
  repeat split; auto.
Qed.

(** The head of the loop enters the next iteration unless the job is
    stopped or paused. *)
Lemma worker_enters_iteration (fe : frontend) (w : world) (j : job)
    (s : system) (i : Z) :
  worker s = PLoop i -> locked s = false ->
  i < total_chars j ->
  stopped (state s) = false -> paused (state s) = false ->
  worker_step fe w j s = Some (goto (after_check fe i) s).
Proof.
  intros Hpc Hl Hi Hst Hpa. unfold worker_step.
  rewrite Hpc, Hl, Hst, Hpa. fold (total_chars j).
  destruct (Z.leb_spec (total_chars j) i); [lia|reflexivity].
Qed.

(** C3. A call of the backend client that has built its request invokes
    the backend once and returns a string, never an exception: for a
    timeout, another exception of [subprocess.run] or a non-zero exit
    status the string is the error text of the front-end.  The worker
    stores that string as the result of the chunk and goes on with the
    next index of the loop; the job is neither marked failed nor ended. *)
Theorem backend_failure_is_chunk_result :
  (forall fe w st text m log r,
      request_for fe w st text m = Ok r ->
      translate_with_ollama fe w st text m log
      = (Ok (result_for fe w st (ollama w (length log) r)), log ++ [r]))
  /\ (forall w st text m,
        exists r, request_for Flask w st text m = Ok r)
  /\ (forall w st msg rc out err,
        rc <> 0 ->
        result_for Flask w st (TimeoutExpired msg)
        = lit "[Error: " ++ msg ++ lit "]"
        /\ result_for Flask w st (Raised msg)
           = lit "[Error: " ++ msg ++ lit "]"
        /\ result_for Flask w st (Completed rc out err)
           = lit "[Error: " ++ str_or err (lit "Unknown error") ++ lit "]"
        /\ result_for Gradio w st (TimeoutExpired msg)
           = GradioClient.timeout_message
        /\ result_for Gradio w st (Raised msg)
           = [0x274c] ++ lit " Exception: " ++ msg
        /\ result_for Gradio w st (Completed rc out err)
           = [0x274c] ++ lit " Error: "
             ++ match str_or err out with
                | [] => lit "unknown error"
                | o => strip o
                end)
  /\ (forall fe w j st0 s i r,
        reachable fe w j st0 s ->
        worker s = PTranslate i ->
        request_for fe w (state s) (slice (job_text j) i (i + batch_size j))
          (model (j_config j)) = Ok r ->
        let o := ollama w (length (backend_log s)) r in
        let tr := result_for fe w (state s) o in
        exists s1 s2,
          worker_step fe w j s = Some s1
          /\ worker s1 = PStore i tr
          /\ worker_step fe w j s1 = Some s2
          /\ worker s2 = PLoop (i + batch_size j)
          /\ translated_chunks (state s2)
             = translated_chunks (state s) ++ [tr]
          /\ backend_log s2 = backend_log s ++ [r]
          /\ error (state s2) = error (state s)
          /\ running (state s2) = running (state s)
          /\ stopped (state s2) = stopped (state s)
          /\ paused (state s2) = paused (state s)
          /\ (i + batch_size j < total_chars j ->
              stopped (state s2) = false -> paused (state s2) = false ->
              worker_step fe w j s2
              = Some (goto (after_check fe (i + batch_size j)) s2))).
Proof.
  split.
  { intros fe w st text m log r H.
    now rewrite translate_with_ollama_eq, H. }
  split; [intros; eexists; reflexivity|].
  split.
  { intros w st msg rc out err Hrc. cbn.
    apply Z.eqb_neq in Hrc. rewrite Hrc. cbn. repeat split. }
  intros fe w j st0 s i r Hr Hpc Hreq o tr.
  assert (Hl : locked s = false).
  { apply (reachable_unlocked fe w j st0 s Hr). intros i'. congruence. }
  destruct (worker_stores_and_continues fe w j s i r Hpc Hl Hreq)
    as (s1 & s2 & H1 & H2 & H3 & H4 & H5 & H6 & H7 & H8 & H9 & H10 & H11).
  exists s1, s2. repeat split; auto.
  intros Hi Hst Hpa. now apply worker_enters_iteration.
Qed.

(** A backend that times out on its second invocation. *)
Definition timeout_world : world := {|
  db := ascii_db;
  ollama := fun n _ =>
    match n with
    | 1%nat => TimeoutExpired (lit "Command '['ollama', 'run', 'command-r7b-arabic']' timed out after 300 seconds")
    | _ => Completed 0 marhaban_bil_alam []
    end;
  str_format := fun template _ => Ok template;
  write_docx := fun _ _ _ _ => None;
  time_start := 0;
  time_finish := 900;
  timestamp := lit "20260218_120000";
  system_stats := lit "CPU: 10.0% | RAM: 40.0%";
  cwd := lit "/srv/tajreba"
|}.

(** The first chunk is stored and the second is in flight. *)
Definition schedule_second_in_flight : list label :=
  [Work; Work; Work; Work; Work; Work; Work].

Lemma backend_failure_is_chunk_result_witness :
  exists s2,
    run Flask timeout_world job_2500 [Work; Work]
      (after Flask timeout_world job_2500 schedule_second_in_flight)
    = Some s2
    /\ worker s2 = PLoop 2000
    /\ translated_chunks (state s2)
       = [marhaban_bil_alam;
          lit "[Error: Command '['ollama', 'run', 'command-r7b-arabic']' timed out after 300 seconds]"]
    /\ error (state s2) = None
    /\ worker_step Flask timeout_world job_2500 s2
       = Some (goto (PStatus 2000) s2).
Proof.
  destruct backend_failure_is_chunk_result as (_ & _ & _ & H).
  destruct (H Flask timeout_world job_2500 fresh_state
              (after Flask timeout_world job_2500 schedule_second_in_flight)
              1000
              (FlaskClient.build_request
                 (slice doc_2500 1000 2000)
                 (Some (lit "command-r7b-arabic"))))
    as (s1 & s2 & H1 & H2 & H3 & H4 & H5 & H6 & H7 & H8 & Hst & Hpa & H9).
  - apply after_reachable. vm_compute. discriminate.
  - vm_compute. reflexivity.
  - reflexivity.
  - exists s2. split; [|split; [|split; [|split]]].
    + cbn [run sys_step]. rewrite H1, H3. reflexivity.
    + exact H4.
    + rewrite H5. vm_compute. reflexivity.
    + rewrite H7. vm_compute. reflexivity.
    + apply H9.
      * vm_compute. reflexivity.
      * rewrite Hst. vm_compute. reflexivity.
      * rewrite Hpa. vm_compute. reflexivity.
Defined.

(* ====================================================================== *)
(** * Chunks in source order (C4) *)
(* ====================================================================== *)

(** Steps of the worker for one iteration of the loop. *)
Definition iteration_steps (fe : frontend) : nat :=
  match fe with Flask => 4%nat | Gradio => 3%nat end.

Lemma run_works_app (fe : frontend) (w : world) (j : job) (a b : nat)
    (s s1 s2 : system) :
  run fe w j (repeat Work a) s = Some s1 ->
  run fe w j (repeat Work b) s1 = Some s2 ->
  run fe w j (repeat Work (a + b)) s = Some s2.
Proof. intros H1 H2. now rewrite repeat_app, run_app, H1. Qed.

Lemma inv_unlocked (fe : frontend) (w : world) (j : job) (s : system) :
  inv fe w j s -> (forall i, worker s <> PPaused i) -> locked s = false.
Proof.
  intros (_ & _ & _ & Hlock & _) Hpc.
  destruct (locked s); [|reflexivity].
  destruct (Hlock eq_refl) as (_ & i & Hi). now apply Hpc in Hi.
Qed.

(** One iteration of the loop, not stopped and not paused, when the client
    builds a request for the chunk. *)
Lemma one_iteration (fe : frontend) (w : world) (j : job) (s : system)
    (i : Z) :
  (forall c, exists r,
      request_for fe w (st_init fe j) c (model (j_config j)) = Ok r) ->
  inv fe w j s ->
  worker s = PLoop i -> i < total_chars j ->
  stopped (state s) = false -> paused (state s) = false ->
  exists s',
    run fe w j (repeat Work (iteration_steps fe)) s = Some s'
    /\ worker s' = PLoop (i + batch_size j)
    /\ stopped (state s') = false /\ paused (state s') = false.
Proof.
  intros requests_ok Hinv Hpc Hi Hst Hpa.
  assert (Hl : locked s = false).
  { apply (inv_unlocked fe w j s Hinv). intros i'. congruence. }
  assert (Hopts : opts (state s) = opts (st_init fe j)) by apply Hinv.
  destruct (requests_ok (slice (job_text j) i (i + batch_size j))) as [r Hr].
  pose proof (worker_enters_iteration fe w j s i Hpc Hl Hi Hst Hpa) as H1.
  assert (Hcont : forall s1,
             worker s1 = PTranslate i -> locked s1 = false ->
             opts (state s1) = opts (state s) ->
             stopped (state s1) = false -> paused (state s1) = false ->
             exists s',
               run fe w j [Work; Work] s1 = Some s'
               /\ worker s' = PLoop (i + batch_size j)
               /\ stopped (state s') = false /\ paused (state s') = false).
  { intros s1 Hpc1 Hl1 Ho1 Hst1 Hpa1.
    destruct (worker_stores_and_continues fe w j s1 i r Hpc1 Hl1)
      as (sa & sb & Ha & _ & Hb & Hpcb & _ & _ & _ & _ & Hsb & Hpb & _).
    { rewrite <- Hr. apply request_for_opts. congruence. }
    exists sb. cbn [run sys_step]. rewrite Ha, Hb.
    repeat split; congruence. }
  destruct fe; cbn [iteration_steps repeat run sys_step]; rewrite H1;
    cbn [after_check].
  - (* Flask: the status message first *)
    assert (H2 : worker_step Flask w j (goto (PStatus i) s)
                 = Some (goto (PTranslate i)
                           (with_state
                              (set_status_message (translating_message j i)
                                 (state s)) (goto (PStatus i) s)))).
    { unfold worker_step. cbn. now rewrite Hl. }
    rewrite H2. apply Hcont; cbn; auto.
  - apply Hcont; cbn; auto.
Qed.

(** From the head of the loop the worker reaches the end of the loop. *)
Lemma loop_completes (fe : frontend) (w : world) (j : job) (fuel : nat) :
  (forall c, exists r,
      request_for fe w (st_init fe j) c (model (j_config j)) = Ok r) ->
  forall (s : system) (i : Z),
    inv fe w j s ->
    worker s = PLoop i ->
    (Z.to_nat (job_total_chunks j) - length (translated_chunks (state s))
     <= fuel)%nat ->
    stopped (state s) = false -> paused (state s) = false ->
    exists n s',
      run fe w j (repeat Work n) s = Some s'
      /\ worker s' = PFinish
      /\ stopped (state s') = false.
Proof.
  intros requests_ok.
  induction fuel as [|fuel IH]; intros s i Hinv Hpc Hfuel Hst Hpa.
  - (* every chunk is stored: the range is exhausted *)
    exists 1%nat, (goto PFinish s).
    cbn [repeat run sys_step]. unfold worker_step. rewrite Hpc.
    destruct Hinv as (_ & _ & HkN & _ & Hp).
    unfold pc_inv in Hp. rewrite Hpc in Hp. destruct Hp as (Hi & _).
    pose proof (N_ceil j) as Hc. pose proof (B_pos j) as HB.
    fold (total_chars j).
    destruct (Z.leb_spec (total_chars j) i); [repeat split; auto|].
    exfalso. nia.
  - destruct (Z.leb_spec (total_chars j) i) as [Hge|Hlt].
    + exists 1%nat, (goto PFinish s).
      cbn [repeat run sys_step]. unfold worker_step. rewrite Hpc.
      fold (total_chars j).
      destruct (Z.leb_spec (total_chars j) i); [repeat split; auto|lia].
    + destruct (one_iteration fe w j s i requests_ok Hinv Hpc Hlt Hst Hpa)
        as (s1 & Hrun & Hpc1 & Hst1 & Hpa1).
      pose proof (run_inv fe w j _ _ _ Hinv Hrun) as Hinv1.
      assert (Hlen : length (translated_chunks (state s1))
                     = S (length (translated_chunks (state s)))).
      { destruct Hinv as (_ & _ & _ & _ & Hp).
        destruct Hinv1 as (_ & _ & _ & _ & Hp1).
        unfold pc_inv in Hp, Hp1. rewrite Hpc in Hp. rewrite Hpc1 in Hp1.
        destruct Hp as (Hi & _). destruct Hp1 as (Hi1 & _).
        pose proof (B_pos j). nia. }
      destruct (IH s1 (i + batch_size j) Hinv1 Hpc1 ltac:(lia) Hst1 Hpa1)
        as (n & s' & Hrun' & Hpc' & Hst').
      exists (iteration_steps fe + n)%nat, s'.
      split; [eapply run_works_app; eauto|auto].
Qed.

(** Left alone, the worker of a readable document returns, and has then
    sent every chunk to the backend, in order, and stored every result. *)
Lemma uninterrupted_job_completes (fe : frontend) (w : world) (j : job)
    (text : str) :
  (forall c, exists r,
      request_for fe w (st_init fe j) c (model (j_config j)) = Ok r) ->
  j_doc j = Ok text ->
  exists n s,
    run fe w j (repeat Work n) (initial_system fe j) = Some s
    /\ worker s = PDone
    /\ processed fe w j (chunks text (batch_size j)) (backend_log s)
         (translated_chunks (state s))
    /\ current_chunk (state s) = job_total_chunks j.
Proof.
  intros requests_ok Edoc.
  (* the document is read *)
  pose (s0 := goto (PLoop 0)
                (with_state
                   (init_section fe w j (state (initial_system fe j)))
                   (initial_system fe j))).
  assert (H0 : worker_step fe w j (initial_system fe j) = Some s0).
  { unfold worker_step. cbn. now rewrite Edoc. }
  assert (Hinv0 : inv fe w j s0).
  { eapply worker_step_inv; [apply inv_initial|exact H0]. }
  destruct (init_section_fields fe w j (state (initial_system fe j)))
    as (_ & _ & _ & _ & Est & Epa & _).
  (* the loop *)
  destruct (loop_completes fe w j _ requests_ok s0 0 Hinv0 eq_refl (le_n _))
    as (n & s1 & Hrun1 & Hpc1 & Hst1).
  { subst s0. cbn -[init_section initial_system]. rewrite Est.
    now destruct fe. }
  { subst s0. cbn -[init_section initial_system]. rewrite Epa.
    now destruct fe. }
  pose proof (run_inv fe w j _ _ _ Hinv0 Hrun1) as Hinv1.
  (* the block after the loop, and the handler if the writer fails *)
  assert (Hl1 : locked s1 = false).
  { apply (inv_unlocked fe w j s1 Hinv1). intros i'. congruence. }
  assert (H2 : worker_step fe w j s1 = Some (finish_section fe w j s1)).
  { unfold worker_step. now rewrite Hpc1, Hl1. }
  pose proof (worker_step_inv fe w j _ _ Hinv1 H2) as Hinv2.
  assert (Hfin : forall s,
             inv fe w j s -> worker s = PDone ->
             length (translated_chunks (state s))
             = length (translated_chunks (state s1)) ->
             processed fe w j (chunks text (batch_size j)) (backend_log s)
               (translated_chunks (state s))
             /\ current_chunk (state s) = job_total_chunks j).
  { intros s (_ & Hcur & HkN & _ & Hp) Hpc Hlen.
    unfold pc_inv in Hp. rewrite Hpc in Hp. destruct Hp as (Hdone & _).
    destruct Hinv1 as (_ & _ & _ & _ & Hp1).
    unfold pc_inv in Hp1. rewrite Hpc1 in Hp1.
    destruct Hp1 as (_ & _ & [Hp1|Hp1]); [congruence|].
    pose proof (N_ceil j) as Hc. pose proof (B_pos j) as HB.
    pose proof (N_nonneg j) as HN.
    assert (Ek : Z.of_nat (length (translated_chunks (state s)))
                 = job_total_chunks j).
    { rewrite Hlen in *. nia. }
    split; [|congruence].
    rewrite firstn_all2 in Hdone.
    - unfold job_text in Hdone. now rewrite Edoc in Hdone.
    - rewrite chunks_length. fold (total_chars j) (job_total_chunks j). lia. }
  assert (Hlen2 : length (translated_chunks (state (finish_section fe w j s1)))
                  = length (translated_chunks (state s1))).
  { unfold finish_section. cbn [stopped set_running]. rewrite Hst1.
    destruct fe; cbn.
    - destruct (write_docx w _ _ _ _); reflexivity.
    - destruct (write_docx w _ _ _ _); [reflexivity|].
      destruct (start_time (state s1)); reflexivity. }
  assert (Hpc2 : worker (finish_section fe w j s1) = PDone
                 \/ exists e, worker (finish_section fe w j s1) = PExcept e).
  { unfold finish_section. cbn [stopped set_running]. rewrite Hst1.
    destruct fe; cbn.
    - destruct (write_docx w _ _ _ _);
        [right; eexists; reflexivity|left; reflexivity].
    - destruct (write_docx w _ _ _ _); [right; eexists; reflexivity|].
      destruct (start_time (state s1));
        [left; reflexivity|right; eexists; reflexivity]. }
  destruct Hpc2 as [Epc2|[e Epc2]].
  - exists (1 + (n + 1))%nat, (finish_section fe w j s1).
    split.
    { eapply (run_works_app fe w j 1 (n + 1)); [cbn [repeat run sys_step]; rewrite H0; reflexivity|].
      eapply (run_works_app fe w j n 1); [exact Hrun1|].
      cbn [repeat run sys_step]. now rewrite H2. }
    split; [exact Epc2|]. now apply Hfin.
  - (* the writer raised: the handler runs *)
    assert (Hl2 : locked (finish_section fe w j s1) = false).
    { apply (inv_unlocked fe w j _ Hinv2). intros i'. congruence. }
    pose (s3 := goto PDone
                  (with_state
                     (except_section fe e (state (finish_section fe w j s1)))
                     (finish_section fe w j s1))).
    assert (H3 : worker_step fe w j (finish_section fe w j s1) = Some s3).
    { unfold worker_step. now rewrite Epc2, Hl2. }
    exists (1 + (n + 2))%nat, s3.
    split.
    { eapply (run_works_app fe w j 1 (n + 2)); [cbn [repeat run sys_step]; rewrite H0; reflexivity|].
      eapply (run_works_app fe w j n 2); [exact Hrun1|].
      cbn [repeat run sys_step]. now rewrite H2, H3. }
    split; [reflexivity|].
    apply Hfin; [eapply worker_step_inv; eauto|reflexivity|].
    subst s3. cbn -[except_section].
    destruct (except_section_fields fe e (state (finish_section fe w j s1)))
      as (_ & E2 & _). now rewrite E2.
Qed.

Lemma py_range_In (L B i : Z) :
  0 < B -> 0 <= L ->
  In i (py_range L B) <-> exists k : nat, i = Z.of_nat k * B /\ i < L.
Proof.
  intros HB HL. unfold py_range. rewrite in_map_iff.
  fold (total_chunks_of L B).
  pose proof (total_chunks_of_ceil L B HB) as Hc.
  split.
  - intros (k & <- & Hk). apply in_seq in Hk. exists k. split; [reflexivity|nia].
  - intros (k & -> & Hk). exists k. split; [reflexivity|].
    apply in_seq. nia.
Qed.

(** What [processed] says, position by position. *)
Lemma processed_nth (fe : frontend) (w : world) (j : job)
    (cs : list str) (log : list request) (trs : list str) :
  processed fe w j cs log trs ->
  length log = length cs /\ length trs = length cs
  /\ forall n c,
       nth_error cs n = Some c ->
       exists r,
         request_for fe w (st_init fe j) c (model (j_config j)) = Ok r
         /\ nth_error log n = Some r
         /\ nth_error trs n
            = Some (result_for fe w (st_init fe j) (ollama w n r)).
Proof.
  induction 1 as [|cs log trs c r Hp (IH1 & IH2 & IH) Hr].
  - repeat split; auto. intros [|n] c H; discriminate.
  - rewrite !length_app. cbn [length].
    split; [lia|]. split; [lia|].
    intros n c' Hn.
    destruct (Nat.lt_ge_cases n (length cs)) as [Hlt|Hge].
    + rewrite nth_error_app1 in Hn by exact Hlt.
      destruct (IH n c' Hn) as (r' & E1 & E2 & E3).
      exists r'. rewrite !nth_error_app1 by lia. auto.
    + assert (n = length cs).
      { assert (Hlt : (n < length (cs ++ [c]))%nat)
          by (apply nth_error_Some; congruence).
        rewrite length_app in Hlt. cbn in Hlt. lia. }
      subst n. rewrite nth_error_app2, Nat.sub_diag in Hn by lia.
      inversion Hn; subst c'. exists r.
      split; [exact Hr|].
      split.
      * rewrite <- IH1. now rewrite nth_error_app2, Nat.sub_diag by lia.
      * rewrite <- IH2. rewrite nth_error_app2, Nat.sub_diag by lia.
        cbn. now rewrite IH2, <- IH1.
Qed.

(** C4. The loop indices are the multiples of [B] below [L]; the chunk of
    ordinal [k] is [T[k*B : k*B+B]] and the chunks, concatenated in order,
    are [T].  In every state of a job the backend log and the results are
    those of the first chunks, position by position: request [n] is the
    one built for chunk [n] and result [n] is what the client returned for
    invocation [n] (one more request than results while a result waits to
    be stored).  Left alone, the worker returns after it has processed
    every chunk. *)
Theorem chunks_processed_in_source_order :
  (forall (text : str) (B : Z),
      0 < B ->
      concat (chunks text B) = text
      /\ (forall i, In i (py_range (len text) B)
                    <-> exists k : nat, i = Z.of_nat k * B /\ i < len text)
      /\ (forall k : nat,
            Z.of_nat k * B < len text ->
            nth_error (chunks text B) k
            = Some (slice text (Z.of_nat k * B) (Z.of_nat k * B + B))))
  /\ (forall fe w j cs log trs,
        processed fe w j cs log trs ->
        length log = length cs /\ length trs = length cs
        /\ forall n c,
             nth_error cs n = Some c ->
             exists r,
               request_for fe w (st_init fe j) c (model (j_config j)) = Ok r
               /\ nth_error log n = Some r
               /\ nth_error trs n
                  = Some (result_for fe w (st_init fe j) (ollama w n r)))
  /\ (forall fe w j st0 s,
        reachable fe w j st0 s ->
        let cs := chunks (job_text j) (batch_size j) in
        let trs := translated_chunks (state s) in
        match worker s with
        | PStore i tr =>
            i = Z.of_nat (length trs) * batch_size j
            /\ processed fe w j (firstn (S (length trs)) cs) (backend_log s)
                 (trs ++ [tr])
        | _ => processed fe w j (firstn (length trs) cs) (backend_log s) trs
        end)
  /\ (forall fe w j text,
        j_doc j = Ok text ->
        (forall c, exists r,
            request_for fe w (st_init fe j) c (model (j_config j)) = Ok r) ->
        exists n s,
          run fe w j (repeat Work n) (initial_system fe j) = Some s
          /\ worker s = PDone
          /\ processed fe w j (chunks text (batch_size j)) (backend_log s)
               (translated_chunks (state s))
          /\ current_chunk (state s) = job_total_chunks j).
Proof.
  split.
  { intros text B HB. split; [now apply chunks_concat|].
    split; [intros i; apply py_range_In; [exact HB|apply len_nonneg]|].
    intros k Hk. apply chunks_nth.
    pose proof (total_chunks_of_ceil (len text) B HB). nia. }
  split; [exact processed_nth|].
  split.
  { intros fe w j st0 s Hr cs trs.
    destruct (reachable_inv fe w j st0 s Hr) as (_ & _ & _ & _ & Hp).
    unfold pc_inv in Hp. subst cs trs.
    destruct (worker s); try tauto.
    destruct Hp as (Hk & Hlog & _). apply length_zero_nil in Hk.
    rewrite Hk, Hlog. constructor. }
  intros fe w j text Edoc Hreq.
  now apply (uninterrupted_job_completes fe w j text Hreq).
Qed.

Lemma chunks_processed_in_source_order_witness :
  exists n s,
    run Flask demo_world job_2500 (repeat Work n)
      (initial_system Flask job_2500) = Some s
    /\ worker s = PDone
    /\ processed Flask demo_world job_2500
         (chunks doc_2500 (batch_size job_2500)) (backend_log s)
         (translated_chunks (state s))
    /\ current_chunk (state s) = job_total_chunks job_2500.
Proof.
  destruct chunks_processed_in_source_order as (_ & _ & _ & H).
  apply (H Flask demo_world job_2500 doc_2500 eq_refl).
  intros c. eexists. reflexivity.
Defined.


(* ====================================================================== *)
(** * The sanitizer on every input (C5, C6) *)
(* ====================================================================== *)

(** The code point before the position reached after [s]. *)
Fixpoint last_cp (before : option Z) (s : str) : option Z :=
  match s with
  | [] => before
  | c :: s' => last_cp (Some c) s'
  end.

Lemma last_cp_app (before : option Z) (a b : str) :
  last_cp before (a ++ b) = last_cp (last_cp before a) b.
Proof. revert before. induction a as [|c a IH]; intros; simpl; auto. Qed.

Section ThoughtPattern.

Context (db : unicode_db).

(** The text [w] is accepted, item by item, by the alternative [alt]. *)
Definition accepts (alt : list pat) (w : str) : Prop :=
  Forall2 (fun p c => pat_accepts db p c = true) alt w.

Lemma match_items_spec (ps : list pat) :
  forall (last : option Z) (s rest : str) (l' : option Z),
    match_items db ps last s = Some (l', rest)
    <-> exists w, s = w ++ rest /\ accepts ps w /\ l' = last_cp last w.
Proof.
  induction ps as [|p ps IH]; intros last s rest l'; simpl.
  - split.
    + intros H. inversion H; subst. exists []. repeat split. constructor.
    + intros (w & -> & Hw & ->). inversion Hw; subst. reflexivity.
  - destruct s as [|c s].
    + split; [discriminate|].
      intros (w & E & Hw & _). inversion Hw; subst. discriminate.
    + destruct (pat_accepts db p c) eqn:Hc.
      * rewrite IH. split.
        -- intros (w & -> & Hw & ->). exists (c :: w).
           repeat split. now constructor.
        -- intros (w & E & Hw & ->). inversion Hw as [|? c' ? w' Hc' Hw']; subst.
           inversion E; subst. exists w'. auto.
      * split; [discriminate|].
        intros (w & E & Hw & _). inversion Hw as [|? c' ? w' Hc' Hw']; subst.
        inversion E; subst. congruence.
Qed.

Lemma thought_at_spec (before : option Z) (s : str) :
  thought_at db before s = true
  <-> boundary db before (hd_error s) = true
      /\ exists alt w rest,
           In alt thought_alternatives /\ s = w ++ rest /\ accepts alt w
           /\ boundary db (last_cp before w) (hd_error rest) = true.
Proof.
  unfold thought_at. rewrite andb_true_iff, existsb_exists.
  split; intros [Hb H]; (split; [exact Hb|]).
  - destruct H as (alt & Hin & H).
    destruct (match_items db alt before s) as [[l rest]|] eqn:E;
      [|discriminate].
    apply match_items_spec in E. destruct E as (w & -> & Hw & ->).
    exists alt, w, rest. auto.
  - destruct H as (alt & w & rest & Hin & -> & Hw & Hb').
    exists alt. split; [exact Hin|].
    assert (E : match_items db alt before (w ++ rest)
                = Some (last_cp before w, rest)).
    { apply match_items_spec. exists w. auto. }
    now rewrite E.
Qed.

Lemma thought_search_from_spec (s : str) :
  forall before,
    thought_search_from db before s = true
    <-> exists pre s', s = pre ++ s'
                       /\ thought_at db (last_cp before pre) s' = true.
Proof.
  induction s as [|c s IH]; intros before; cbn [thought_search_from];
    rewrite orb_true_iff.
  - split.
    + intros [H|H]; [|discriminate]. exists [], []. auto.
    + intros (pre & s' & E & H). left.
      symmetry in E. apply app_eq_nil in E as [-> ->]. exact H.
  - rewrite IH. split.
    + intros [H|(pre & s' & -> & H)].
      * exists [], (c :: s). auto.
      * exists (c :: pre), s'. auto.
    + intros (pre & s' & E & H). destruct pre as [|c' pre].
      * left. simpl in E. subst s'. exact H.
      * right. inversion E; subst. exists pre, s'. auto.
Qed.

(** [thought_pattern.search(ln)] finds a match exactly when the line is
    [pre ++ w ++ post] where [w] is accepted by one of the alternatives,
    letter by letter ignoring case, and there is a word boundary before
    and after [w]. *)
Lemma thought_search_spec (ln : str) :
  thought_search db ln = true
  <-> exists pre w post alt,
        ln = pre ++ w ++ post
        /\ In alt thought_alternatives
        /\ accepts alt w
        /\ boundary db (last_cp None pre) (hd_error (w ++ post)) = true
        /\ boundary db (last_cp None (pre ++ w)) (hd_error post) = true.
Proof.
  unfold thought_search. rewrite thought_search_from_spec.
  split.
  - intros (pre & s' & -> & H). apply thought_at_spec in H.
    destruct H as (Hb & alt & w & rest & Hin & -> & Hw & Hb').
    exists pre, w, rest, alt. rewrite last_cp_app. auto.
  - intros (pre & w & post & alt & -> & Hin & Hw & Hb & Hb').
    exists pre, (w ++ post). split; [reflexivity|].
    apply thought_at_spec. split; [exact Hb|].
    exists alt, w, post. rewrite <- last_cp_app. auto.
Qed.

End ThoughtPattern.

Lemma str_eqb_spec (a b : str) : str_eqb a b = true <-> a = b.
Proof.
  revert b. induction a as [|x a IH]; intros [|y b]; cbn;
    try (split; [discriminate|discriminate]); [tauto|].
  rewrite andb_true_iff, Z.eqb_eq, IH. split.
  - intros [-> ->]. reflexivity.
  - intros H. inversion H. auto.
Qed.

Lemma str_eqb_neq (a b : str) : a <> b -> str_eqb a b = false.
Proof.
  intros H. destruct (str_eqb a b) eqn:E; [|reflexivity].
  apply str_eqb_spec in E. contradiction.
Qed.

Lemma sanitize_output_nonempty (db : unicode_db) (text : str) :
  text <> [] -> sanitize_output db (PyStr text) = PyStr (sanitize_str db text).
Proof. destruct text; [congruence|reflexivity]. Qed.

(** "سلام" *)
Definition salam : str := [0x633; 0x644; 0x627; 0x645].

Section SanitizerLines.

Context (db : unicode_db) (F : unicode_facts db).

(** A line of Arabic code points and spaces is kept. *)
Lemma arabic_line_kept (ln : str) :
  forallb (fun c => is_arabic c || (c =? 32)) ln = true ->
  dropped db ln = false.
Proof.
  intros H. unfold dropped. apply orb_false_iff. split.
  - apply thought_search_no_start.
    rewrite forallb_forall in H. apply Forall_forall.
    intros c Hc. apply arabic_or_space_no_start; [exact F|]. now apply H.
  - unfold is_boilerplate.
    assert (Hs : forallb (fun c => is_arabic c || (c =? 32)) (strip ln) = true).
    { apply forallb_forall. intros x Hx. rewrite forallb_forall in H.
      apply H. unfold strip, rstrip in Hx. apply in_rev in Hx.
      assert (Hl : forall s y, In y (lstrip s) -> In y s).
      { induction s as [|c s IH]; intros y Hy; [exact Hy|].
        cbn [lstrip] in Hy. destruct (is_space c); [right; auto|exact Hy]. }
      apply Hl in Hx. apply in_rev in Hx. now apply Hl. }
    rewrite (lower_uncased db F) by exact Hs.
    destruct (strip ln) as [|c s] eqn:E; [reflexivity|].
    cbn [forallb] in Hs. apply andb_true_iff in Hs as [Hc _].
    assert (Hn : (c =? 116) = false).
    { apply Z.eqb_neq. intros ->. discriminate. }
    cbn. rewrite Hn. reflexivity.
Qed.

(** A line with the word "Analysis" in it is dropped. *)
Lemma analysis_line_dropped :
  dropped db (lit "My Analysis: " ++ salam) = true.
Proof.
  unfold dropped. apply orb_true_iff. left.
  apply thought_search_spec.
  exists (lit "My "), (lit "Analysis"), (lit ": " ++ salam), (plits "analysis").
  split; [reflexivity|].
  split; [unfold thought_alternatives; simpl; tauto|].
  split.
  - unfold accepts. repeat constructor; cbn;
      rewrite (ci_ascii db F) by lia; reflexivity.
  - split; cbn; unfold boundary, word_opt;
      rewrite !(is_word_ascii db F) by lia; reflexivity.
Qed.

End SanitizerLines.

Section AsciiLines.

Context (db : unicode_db) (F : unicode_facts db).

Definition is_ascii (c : Z) : Prop := 0 <= c < 128.

Definition ascii_opt (c : option Z) : Prop :=
  match c with Some x => is_ascii x | None => True end.

(** The items of the pattern: lower-case letters, and classes. *)
Definition lower_item (p : pat) : Prop :=
  match p with PLit l => 97 <= l <= 122 | PSet _ => True end.

Lemma thought_alternatives_lower :
  Forall (Forall lower_item) thought_alternatives.
Proof. repeat constructor; cbn; lia. Qed.

Lemma pat_accepts_ascii (p : pat) (c : Z) :
  lower_item p -> is_ascii c ->
  pat_accepts db p c = pat_accepts ascii_db p c.
Proof.
  intros Hp Hc. destruct p as [l|cs]; [|reflexivity]. cbn [pat_accepts].
  now rewrite (ci_ascii db F), (ci_ascii ascii_db ascii_db_facts).
Qed.

Lemma match_items_ascii (ps : list pat) :
  Forall lower_item ps ->
  forall last s,
    Forall is_ascii s ->
    match_items db ps last s = match_items ascii_db ps last s.
Proof.
  induction 1 as [|p ps Hp Hps IH]; intros last s Hs; [reflexivity|].
  cbn [match_items]. destruct s as [|c s]; [reflexivity|].
  inversion Hs; subst. rewrite (pat_accepts_ascii p c) by assumption.
  destruct (pat_accepts ascii_db p c); [now apply IH|reflexivity].
Qed.

Lemma match_items_keeps_ascii (d : unicode_db) (ps : list pat) :
  forall last s l' rest,
    ascii_opt last -> Forall is_ascii s ->
    match_items d ps last s = Some (l', rest) ->
    ascii_opt l' /\ Forall is_ascii rest.
Proof.
  induction ps as [|p ps IH]; intros last s l' rest Hl Hs H; cbn in H.
  - inversion H; subst. auto.
  - destruct s as [|c s]; [discriminate|]. inversion Hs; subst.
    destruct (pat_accepts d p c); [|discriminate].
    apply (IH (Some c) s); auto.
Qed.

Lemma boundary_ascii (a b : option Z) :
  ascii_opt a -> ascii_opt b -> boundary db a b = boundary ascii_db a b.
Proof.
  intros Ha Hb. unfold boundary, word_opt.
  destruct a as [x|], b as [y|]; cbn in Ha, Hb;
    rewrite ?(is_word_ascii db F), ?(is_word_ascii ascii_db ascii_db_facts)
      by assumption; reflexivity.
Qed.

Lemma hd_error_ascii (s : str) : Forall is_ascii s -> ascii_opt (hd_error s).
Proof. intros H. destruct s; [exact I|]. now inversion H. Qed.

Lemma thought_at_ascii (before : option Z) (s : str) :
  ascii_opt before -> Forall is_ascii s ->
  thought_at db before s = thought_at ascii_db before s.
Proof.
  intros Hb Hs. unfold thought_at.
  rewrite (boundary_ascii before (hd_error s) Hb (hd_error_ascii s Hs)).
  f_equal. pose proof thought_alternatives_lower as Hlow.
  induction Hlow as [|alt alts Halt _ IH]; [reflexivity|].
  cbn [existsb]. rewrite IH. f_equal.
  rewrite (match_items_ascii alt Halt before s Hs).
  destruct (match_items ascii_db alt before s) as [[l' rest]|] eqn:E;
    [|reflexivity].
  destruct (match_items_keeps_ascii ascii_db alt before s l' rest Hb Hs E)
    as [Hl Hr].
  apply boundary_ascii; [exact Hl|now apply hd_error_ascii].
Qed.

(** On a line of ASCII code points the search does not depend on the
    tables. *)
Lemma thought_search_ascii (ln : str) :
  Forall is_ascii ln -> thought_search db ln = thought_search ascii_db ln.
Proof.
  unfold thought_search. assert (Hb : ascii_opt None) by exact I.
  revert Hb. generalize (@None Z).
  induction ln as [|c ln IH]; intros before Hb Hs; cbn [thought_search_from].
  - now rewrite thought_at_ascii.
  - inversion Hs; subst.
    rewrite thought_at_ascii by assumption. f_equal. now apply IH.
Qed.

Lemma thoughtful_line_not_matched :
  thought_search db (lit "thoughtful rethinking") = false.
Proof.
  rewrite thought_search_ascii; [reflexivity|].
  repeat constructor; cbn; lia.
Qed.

Lemma chain_of_thought_matched :
  thought_search db (lit "a Chain-of-Thought.") = true.
Proof.
  rewrite thought_search_ascii; [reflexivity|].
  repeat constructor; cbn; lia.
Qed.

End AsciiLines.

(** C5. A line is dropped when it contains a whole-word, case-insensitive
    match of one of [thought], [thinking], [reasoning], [analysis],
    [chain of thought] (a space or a dash between its words), or when,
    stripped and lowered, it is one of the three boilerplate lines; the
    other lines are kept, in order.  If the text joined from the kept
    lines and stripped contains an Arabic code point, the sanitizer
    returns the part of that text from its first Arabic code point to its
    last, with whatever lies between them: this is the one match of the
    run pattern, so that nothing is ever joined by newlines.  A line of
    Arabic words is kept; on the two lines "thinking..." and
    "مرحبا بالعالم" the result is "مرحبا بالعالم", and a line that
    holds the word "Analysis" goes with the Arabic text it holds.  The
    words are whole words: "a Chain-of-Thought." has a match,
    "thoughtful rethinking" has none. *)
Theorem sanitizer_drops_lines_and_returns_runs (db : unicode_db) :
  (forall ln,
      thought_search db ln = true
      <-> exists pre w post alt,
            ln = pre ++ w ++ post
            /\ In alt [ plits "thought"; plits "thinking"; plits "reasoning";
                        plits "analysis";
                        plits "chain" ++ [PSet [45; 32]] ++ plits "of"
                          ++ [PSet [45; 32]] ++ plits "thought" ]
            /\ accepts db alt w
            /\ boundary db (last_cp None pre) (hd_error (w ++ post)) = true
            /\ boundary db (last_cp None (pre ++ w)) (hd_error post) = true)
  /\ (forall ln,
        is_boilerplate db ln = true
        <-> In (str_lower db (strip ln))
              [lit "thinking..."; lit "thought for a moment"; lit "thinking"])
  /\ (forall text,
        filtered_lines db text
        = filter (fun ln => negb (thought_search db ln)
                            && negb (is_boilerplate db ln))
            (splitlines text))
  /\ (forall text ln,
        In ln (filtered_lines db text)
        <-> In ln (splitlines text)
            /\ thought_search db ln = false
            /\ is_boilerplate db ln = false)
  /\ (forall text,
        text <> [] ->
        let c := strip (join nl (filtered_lines db text)) in
        existsb is_arabic c = true ->
        exists pre run post,
          c = pre ++ run ++ post
          /\ no_arabic pre /\ no_arabic post
          /\ starts_arabic run /\ ends_arabic run
          /\ arabic_runs c = [run]
          /\ sanitize_output db (PyStr text) = PyStr (join nl (arabic_runs c))
          /\ sanitize_output db (PyStr text) = PyStr run)
  /\ (unicode_facts db ->
      (forall text ln,
          forallb (fun c => is_arabic c || (c =? 32)) ln = true ->
          In ln (splitlines text) -> In ln (filtered_lines db text))
      /\ sanitize_output db
           (PyStr (lit "thinking..." ++ nl ++ marhaban_bil_alam))
         = PyStr marhaban_bil_alam
      /\ sanitize_output db
           (PyStr (lit "My Analysis: " ++ salam ++ nl ++ marhaban_bil_alam))
         = PyStr marhaban_bil_alam
      /\ thought_search db (lit "a Chain-of-Thought.") = true
      /\ thought_search db (lit "thoughtful rethinking") = false).
Proof.
  split; [apply thought_search_spec|].
  split.
  { intros ln. unfold is_boilerplate, boilerplate.
    rewrite existsb_exists. split.
    - intros (b & Hin & Hb). apply str_eqb_spec in Hb. now subst.
    - intros Hin. eexists. split; [exact Hin|]. now apply str_eqb_spec. }
  split.
  { intros text. unfold filtered_lines, dropped. apply filter_ext.
    intros ln. apply negb_orb. }
  split; [apply filtered_lines_spec|].
  split.
  - intros text Hne c Hex. subst c.
    destruct (sanitize_str_runs db text Hex)
      as (pre & run & post & E & Hpre & Hpost & Hst & Hen & Hr & Hs).
    exists pre, run, post. repeat split; auto.
    + rewrite (sanitize_output_nonempty db text Hne), Hs.
      change (strip (join nl (filtered_lines db text))) with (cleaned db text).
      rewrite Hr. reflexivity.
    + now rewrite (sanitize_output_nonempty db text Hne), Hs.
  - intros F.
    split; [|split; [|split; [|split;
      [exact (chain_of_thought_matched db F)
      |exact (thoughtful_line_not_matched db F)]]]].
    + intros text ln Hln Hin. apply filtered_lines_spec.
      pose proof (arabic_line_kept db F ln Hln) as Hd.
      unfold dropped in Hd. apply orb_false_iff in Hd. tauto.
    + rewrite sanitize_output_nonempty by discriminate.
      f_equal. now apply sanitize_str_example.
    + rewrite sanitize_output_nonempty by discriminate. f_equal.
      unfold sanitize_str, cleaned, filtered_lines.
      replace (splitlines (lit "My Analysis: " ++ salam ++ nl
                             ++ marhaban_bil_alam))
        with [lit "My Analysis: " ++ salam; marhaban_bil_alam] by reflexivity.
      cbn [filter].
      rewrite (analysis_line_dropped db F), (marhaban_line_kept db F).
      reflexivity.
Qed.

Lemma sanitizer_drops_lines_and_returns_runs_witness :
  sanitize_output ascii_db
    (PyStr (lit "My Analysis: " ++ salam ++ nl ++ marhaban_bil_alam))
  = PyStr marhaban_bil_alam
  /\ arabic_runs
       (strip (join nl
                 (filtered_lines ascii_db
                    (lit "My Analysis: " ++ salam ++ nl ++ marhaban_bil_alam))))
     = [marhaban_bil_alam].
Proof.
  destruct (sanitizer_drops_lines_and_returns_runs ascii_db)
    as (_ & _ & _ & _ & Hruns & Hex).
  destruct (Hex ascii_db_facts) as (_ & _ & Hex2 & _).
  split; [exact Hex2|].
  destruct (Hruns (lit "My Analysis: " ++ salam ++ nl ++ marhaban_bil_alam))
    as (pre & run & post & _ & _ & _ & _ & _ & Hr & _ & Hs).
  - discriminate.
  - vm_compute. reflexivity.
  - rewrite Hr. rewrite Hex2 in Hs. now inversion Hs.
Defined.

(** An answer with a gloss in Latin letters between two Arabic phrases. *)
Definition glossed_output : str :=
  marhaban_bil_alam ++ lit " (hello world) " ++ salam.

(** C5, as stated, fails: what is returned is not made of the Arabic runs
    alone.  The text between the first and the last Arabic code point is
    returned with them, Latin letters included, and no newline joins the
    two Arabic phrases. *)
Lemma sanitizer_returns_text_between_runs :
  sanitize_output ascii_db (PyStr glossed_output) = PyStr glossed_output
  /\ arabic_runs (cleaned ascii_db glossed_output) = [glossed_output]
  /\ glossed_output
     = marhaban_bil_alam ++ lit " (hello world) " ++ salam
  /\ existsb is_arabic (lit " (hello world) ") = false
  /\ sanitize_output ascii_db (PyStr glossed_output)
     <> PyStr (join nl [marhaban_bil_alam; salam]).
Proof.
  repeat split; try (vm_compute; reflexivity).
  vm_compute. discriminate.
Qed.

(** C6. [sanitize_output] returns a value for every argument: the value
    of the [try] body when it raises nothing, the argument itself when the
    body raises (a non-empty [bytes], a non-zero number); empty and [None]
    arguments come back as they are; a [str] gives a [str]; and when the
    text joined from the kept lines has no Arabic code point, that text is
    returned whole. *)
Theorem sanitizer_total_and_lossless (db : unicode_db) :
  (forall v,
      (exists r, sanitize_try db v = Ok r /\ sanitize_output db v = r)
      \/ (exists e, sanitize_try db v = Raise e /\ sanitize_output db v = v))
  /\ sanitize_output db (PyStr []) = PyStr []
  /\ sanitize_output db PyNone = PyNone
  /\ (forall b, sanitize_output db (PyBytes b) = PyBytes b)
  /\ (forall n, sanitize_output db (PyInt n) = PyInt n)
  /\ (forall b0 b, exists e, sanitize_try db (PyBytes (b0 :: b)) = Raise e)
  /\ (forall text, exists r, sanitize_output db (PyStr text) = PyStr r)
  /\ (forall text,
        text <> [] ->
        existsb is_arabic (cleaned db text) = false ->
        sanitize_output db (PyStr text)
        = PyStr (strip (join nl (filtered_lines db text)))).
Proof.
  split.
  { intros v. unfold sanitize_output.
    destruct (sanitize_try db v) as [r|e]; [left|right]; eauto. }
  split; [reflexivity|]. split; [reflexivity|].
  split; [intros [|b0 b]; reflexivity|].
  split.
  { intros n. unfold sanitize_output, sanitize_try. cbn.
    destruct (n =? 0); reflexivity. }
  split; [intros; eexists; reflexivity|].
  split.
  { intros [|c text]; eexists; reflexivity. }
  intros text Hne Hex. rewrite (sanitize_output_nonempty db text Hne).
  f_equal. now apply sanitize_str_no_runs.
Qed.

(** Three lines of model output, the second a remark of the model. *)
Definition english_output : str :=
  lit "Hello world" ++ nl ++ lit "My Thought: translate it" ++ nl
  ++ lit "Good bye  ".

Lemma sanitizer_total_and_lossless_witness :
  sanitize_output ascii_db (PyStr english_output)
  = PyStr (lit "Hello world" ++ nl ++ lit "Good bye").
Proof.
  destruct (sanitizer_total_and_lossless ascii_db)
    as (_ & _ & _ & _ & _ & _ & _ & H).
  rewrite (H english_output).
  - vm_compute. reflexivity.
  - discriminate.
  - vm_compute. reflexivity.
Defined.

(* ====================================================================== *)
(** * Stop (C8) *)
(* ====================================================================== *)

Lemma finish_section_stopped (fe : frontend) (w : world) (j : job)
    (s : system) :
  stopped (state s) = true ->
  finish_section fe w j s = goto PDone (with_state (set_running false (state s)) s).
Proof.
  intros H. unfold finish_section. cbn [stopped set_running]. now rewrite H.
Qed.

(** While the stop flag is set no step clears it, and no step writes the
    output document or records one. *)
Lemma sys_step_stopped (fe : frontend) (w : world) (j : job) (l : label)
    (s s' : system) :
  sys_step fe w j l s = Some s' ->
  stopped (state s) = true ->
  stopped (state s') = true
  /\ artifacts s' = artifacts s
  /\ output_file (state s') = output_file (state s).
Proof.
  intros Hstep Hst. destruct l as [|c]; simpl in Hstep.
  - unfold worker_step in Hstep. destruct (worker s) eqn:Epc.
    + destruct (j_doc j); [destruct (locked s); [discriminate|]|];
        inversion Hstep; subst s'; cbn -[init_section]; auto.
      destruct (init_section_fields fe w j (state s))
        as (_ & _ & _ & E4 & E5 & _). rewrite E4, E5. auto.
    + rewrite Hst in Hstep.
      destruct (total_chars j <=? i); [|destruct (locked s); [discriminate|]];
        inversion Hstep; subst s'; cbn; auto.
    + destruct (paused (state s)); inversion Hstep; subst s'; cbn; auto.
    + destruct (locked s); inversion Hstep; subst s'; cbn; auto.
    + destruct (translate_with_ollama _ _ _ _ _ _) as [[tr|e] log'];
        inversion Hstep; subst s'; cbn; auto.
    + destruct (locked s); inversion Hstep; subst s'; cbn -[store_section].
      destruct (store_section_fields fe j i tr (state s))
        as (_ & _ & _ & E4 & E5 & _). rewrite E4, E5. auto.
    + destruct (locked s); inversion Hstep; subst s'.
      rewrite (finish_section_stopped fe w j s Hst). cbn. auto.
    + destruct (locked s); inversion Hstep; subst s'; cbn -[except_section].
      destruct (except_section_fields fe e (state s))
        as (_ & _ & _ & E4 & E5 & _). rewrite E4, E5. auto.
    + discriminate.
  - unfold command_step in Hstep.
    destruct (locked s); inversion Hstep; subst s'.
    destruct c; cbn; auto.
    + destruct fe; cbn; auto.
    + destruct (snd (export fe w j (state s))) as [[p t]|]; cbn; auto.
Qed.

Lemma run_stopped (fe : frontend) (w : world) (j : job) (ls : list label) :
  forall s s',
    run fe w j ls s = Some s' ->
    stopped (state s) = true ->
    stopped (state s') = true
    /\ artifacts s' = artifacts s
    /\ output_file (state s') = output_file (state s).
Proof.
  induction ls as [|l ls IH]; intros s s' Hrun Hst; simpl in Hrun.
  - inversion Hrun; subst. auto.
  - destruct (sys_step fe w j l s) as [s1|] eqn:E; [|discriminate].
    destruct (sys_step_stopped fe w j l s s1 E Hst) as (H1 & H2 & H3).
    destruct (IH s1 s' Hrun H1) as (H4 & H5 & H6).
    repeat split; congruence.
Qed.

(** Once the worker has left the loop on the stop flag, it makes no
    backend call and stores nothing more. *)
Definition left_loop (s : system) : Prop :=
  worker s = PFinish \/ worker s = PDone.

Lemma sys_step_after_observed (fe : frontend) (w : world) (j : job)
    (l : label) (s s' : system) :
  sys_step fe w j l s = Some s' ->
  stopped (state s) = true -> left_loop s ->
  left_loop s'
  /\ backend_log s' = backend_log s
  /\ translated_chunks (state s') = translated_chunks (state s)
  /\ current_chunk (state s') = current_chunk (state s).
Proof.
  intros Hstep Hst Hpc. destruct l as [|c]; simpl in Hstep.
  - unfold worker_step in Hstep. destruct Hpc as [Hpc|Hpc]; rewrite Hpc in Hstep.
    + destruct (locked s); inversion Hstep; subst s'.
      rewrite (finish_section_stopped fe w j s Hst). cbn.
      repeat split; auto. now right.
    + discriminate.
  - unfold command_step in Hstep.
    destruct (locked s); inversion Hstep; subst s'.
    destruct c; cbn; auto.
    + destruct fe; cbn; auto.
    + destruct (snd (export fe w j (state s))) as [[p t]|]; cbn; auto.
Qed.

Lemma run_after_observed (fe : frontend) (w : world) (j : job)
    (ls : list label) :
  forall s s',
    run fe w j ls s = Some s' ->
    stopped (state s) = true -> left_loop s ->
    left_loop s'
    /\ backend_log s' = backend_log s
    /\ translated_chunks (state s') = translated_chunks (state s)
    /\ current_chunk (state s') = current_chunk (state s).
Proof.
  induction ls as [|l ls IH]; intros s s' Hrun Hst Hpc; simpl in Hrun.
  - inversion Hrun; subst. auto.
  - destruct (sys_step fe w j l s) as [s1|] eqn:E; [|discriminate].
    destruct (sys_step_after_observed fe w j l s s1 E Hst Hpc)
      as (H1 & H2 & H3 & H4).
    destruct (sys_step_stopped fe w j l s s1 E Hst) as (H5 & _).
    destruct (IH s1 s' Hrun H5 H1) as (H6 & H7 & H8 & H9).
    repeat split; congruence.
Qed.

(** The stop command changes the flags only. *)
Lemma stop_translation_fields (fe : frontend) (st : TranslationState) :
  let st' := stop_translation fe st in
  stopped st' = true
  /\ opts st' = opts st
  /\ translated_chunks st' = translated_chunks st
  /\ current_chunk st' = current_chunk st
  /\ output_file st' = output_file st
  /\ paused st' = paused st
  /\ live_feed st' = live_feed st.
Proof. destruct fe; cbn; repeat split. Qed.

(** C8.  The stop command sets the flag and keeps the results.  No step
    of the job clears the flag; [reset], which starts the next job, does.
    The worker reads the flag in two places: at the head of an iteration
    and in the block after the loop; its other steps do the same whatever
    the flag is.  A stop that arrives while a chunk is in flight leaves
    that chunk to be translated and stored.  At the head of the next
    iteration the worker leaves the loop; from then on, whatever the
    schedule, the backend log and the results stay as they are and no
    output document is written or recorded, and the next step of the
    worker returns with [running] false.  When the loop has ended with the
    last chunk and the flag is set, the block after the loop writes no
    document either: the worker returns with every chunk translated, the
    status message as it was, and no output. *)
Theorem stop_is_one_way_latch :
  (forall fe st,
      stopped (stop_translation fe st) = true
      /\ translated_chunks (stop_translation fe st) = translated_chunks st)
  /\ (forall st, stopped (reset st) = false)
  /\ (forall fe w j l s s',
        sys_step fe w j l s = Some s' ->
        stopped (state s) = true ->
        stopped (state s') = true
        /\ artifacts s' = artifacts s
        /\ output_file (state s') = output_file (state s))
  /\ (forall fe w j s i r,
        worker s = PTranslate i -> locked s = false ->
        request_for fe w (state s) (slice (job_text j) i (i + batch_size j))
          (model (j_config j)) = Ok r ->
        exists s1 s2 s3 tr,
          command_step fe w j Stop s = Some s1
          /\ worker_step fe w j s1 = Some s2
          /\ worker s2 = PStore i tr
          /\ worker_step fe w j s2 = Some s3
          /\ worker s3 = PLoop (i + batch_size j)
          /\ backend_log s3 = backend_log s ++ [r]
          /\ translated_chunks (state s3)
             = translated_chunks (state s) ++ [tr]
          /\ stopped (state s3) = true)
  /\ (forall fe w j s i,
        worker s = PLoop i -> locked s = false ->
        stopped (state s) = true ->
        exists s',
          worker_step fe w j s = Some s'
          /\ worker s' = PFinish
          /\ backend_log s' = backend_log s
          /\ translated_chunks (state s') = translated_chunks (state s)
          /\ artifacts s' = artifacts s
          /\ stopped (state s') = true)
  /\ (forall fe w j ls s s',
        stopped (state s) = true ->
        worker s = PFinish \/ worker s = PDone ->
        run fe w j ls s = Some s' ->
        (worker s' = PFinish \/ worker s' = PDone)
        /\ backend_log s' = backend_log s
        /\ translated_chunks (state s') = translated_chunks (state s)
        /\ artifacts s' = artifacts s
        /\ output_file (state s') = output_file (state s)
        /\ stopped (state s') = true)
  /\ (forall fe w j s,
        stopped (state s) = true -> worker s = PFinish -> locked s = false ->
        exists s',
          worker_step fe w j s = Some s'
          /\ worker s' = PDone /\ running (state s') = false)
  /\ (forall fe w j s b,
        (forall i, worker s = PLoop i -> total_chars j <= i) ->
        worker s <> PFinish ->
        worker_step fe w j (with_state (set_stopped b (state s)) s)
        = option_map (fun s' => with_state (set_stopped b (state s')) s')
            (worker_step fe w j s))
  /\ (forall fe w j st0 s i,
        reachable fe w j st0 s ->
        worker s = PLoop i -> total_chars j <= i ->
        stopped (state s) = true ->
        exists s1 s2,
          worker_step fe w j s = Some s1
          /\ worker s1 = PFinish
          /\ state s1 = state s
          /\ worker_step fe w j s1 = Some s2
          /\ worker s2 = PDone
          /\ status_message (state s2) = status_message (state s)
          /\ translated_chunks (state s2) = translated_chunks (state s)
          /\ current_chunk (state s2) = job_total_chunks j
          /\ artifacts s2 = []
          /\ output_file (state s2) = None).
Proof.
  split.
  { intros fe st. split; apply (stop_translation_fields fe st). }
  split; [reflexivity|].
  split; [exact sys_step_stopped|].
  split.
  { intros fe w j s i r Hpc Hl Hreq.
    pose (s1 := with_state (stop_translation fe (state s)) s).
    destruct (stop_translation_fields fe (state s))
      as (Est & Eo & Ec & _).
    assert (Hreq1 : request_for fe w (state s1)
                      (slice (job_text j) i (i + batch_size j))
                      (model (j_config j)) = Ok r).
    { rewrite <- Hreq. apply request_for_opts. exact Eo. }
    destruct (worker_stores_and_continues fe w j s1 i r Hpc Hl Hreq1)
      as (s2 & s3 & H1 & H2 & H3 & H4 & H5 & H6 & _ & _ & H9 & _).
    exists s1, s2, s3. eexists.
    split; [unfold command_step; now rewrite Hl|].
    split; [exact H1|]. split; [exact H2|]. split; [exact H3|].
    split; [exact H4|]. split; [exact H6|].
    split; [rewrite H5; subst s1; cbn -[stop_translation]; now rewrite Ec|].
    rewrite H9. exact Est. }
  split.
  { intros fe w j s i Hpc Hl Hst. unfold worker_step.
    rewrite Hpc, Hl, Hst.
    destruct (total_chars j <=? i); eexists; (split; [reflexivity|]);
      cbn; repeat split; auto. }
  split.
  { intros fe w j ls s s' Hst Hpc Hrun.
    destruct (run_after_observed fe w j ls s s' Hrun Hst Hpc)
      as (H1 & H2 & H3 & _).
    destruct (run_stopped fe w j ls s s' Hrun Hst) as (H4 & H5 & H6).
    repeat split; auto. }
  split.
  { intros fe w j s Hst Hpc Hl. unfold worker_step. rewrite Hpc, Hl.
    rewrite (finish_section_stopped fe w j s Hst).
    eexists. split; [reflexivity|]. cbn. auto. }
  split.
  { intros fe w j s b Hloop Hfin. unfold worker_step.
    cbn [with_state state worker locked backend_log].
    destruct (worker s) eqn:Epc.
    - destruct (j_doc j); [|reflexivity].
      destruct (locked s); [reflexivity|]. now destruct fe.
    - assert (E : (total_chars j <=? i) = true)
        by (apply Z.leb_le, Hloop; reflexivity).
      now rewrite E.
    - cbn [paused set_stopped]. now destruct (paused (state s)).
    - now destruct (locked s).
    - rewrite !translate_with_ollama_eq.
      rewrite (request_for_opts fe w (set_stopped b (state s)) (state s))
        by reflexivity.
      destruct (request_for fe w (state s) _ _) as [r|e]; [|reflexivity].
      rewrite (result_for_opts fe w (set_stopped b (state s)) (state s))
        by reflexivity.
      reflexivity.
    - destruct (locked s); [reflexivity|]. now destruct fe.
    - congruence.
    - destruct (locked s); [reflexivity|]. now destruct fe.
    - reflexivity. }
  intros fe w j st0 s i Hr Hpc HL Hst.
  destruct (reachable_inv fe w j st0 s Hr) as (_ & Hcur & HkN & Hlock & Hinv).
  unfold pc_inv in Hinv. rewrite Hpc in Hinv.
  destruct Hinv as (Hi & _ & Hart & Hout).
  assert (Hl : locked s = false).
  { destruct (locked s); [|reflexivity].
    destruct (Hlock eq_refl) as (_ & i' & Hi'). congruence. }
  assert (HN : current_chunk (state s) = job_total_chunks j).
  { pose proof (total_chunks_of_least (total_chars j) (batch_size j)
                  (Z.of_nat (length (translated_chunks (state s))))
                  (B_pos j)) as Hleast.
    fold (job_total_chunks j) in Hleast. rewrite Hcur. lia. }
  exists (goto PFinish s).
  exists (goto PDone (with_state (set_running false (state s)) s)).
  assert (E : (total_chars j <=? i) = true) by (now apply Z.leb_le).
  split; [unfold worker_step; now rewrite Hpc, E|].
  split; [reflexivity|]. split; [reflexivity|].
  split.
  { unfold worker_step. cbn [goto worker locked]. rewrite Hl.
    rewrite (finish_section_stopped fe w j (goto PFinish s) Hst).
    reflexivity. }
  cbn. repeat split; auto.
Qed.

(** The first chunk is stored, the second is in flight when the stop
    command arrives; the worker stores the second result and leaves the
    loop at the head of the third iteration. *)
Definition schedule_stop_in_flight : list label :=
  schedule_second_in_flight ++ [Cmd Stop; Work; Work; Work].

Definition system_stop_observed : system :=
  after Flask demo_world job_2500 schedule_stop_in_flight.

(** Then the worker returns, and the operator exports and polls. *)
Definition system_stop_returned : system :=
  after Flask demo_world job_2500
    (schedule_stop_in_flight ++ [Work; Cmd Export; Cmd Status]).

Lemma stop_is_one_way_latch_witness :
  worker system_stop_observed = PFinish
  /\ worker system_stop_returned = PDone
  /\ length (backend_log system_stop_returned) = 2%nat
  /\ translated_chunks (state system_stop_returned)
     = [marhaban_bil_alam; marhaban_bil_alam]
  /\ artifacts system_stop_returned = []
  /\ output_file (state system_stop_returned) = None
  /\ stopped (state system_stop_returned) = true.
Proof.
  destruct stop_is_one_way_latch as (_ & _ & _ & _ & _ & Hafter & _).
  destruct (Hafter Flask demo_world job_2500 [Work; Cmd Export; Cmd Status]
              system_stop_observed system_stop_returned)
    as (Hpc & Hlog & Htr & Hart & Hout & Hst).
  - vm_compute. reflexivity.
  - left. vm_compute. reflexivity.
  - vm_compute. reflexivity.
  - split; [vm_compute; reflexivity|].
    split; [vm_compute; reflexivity|].
    split; [rewrite Hlog; vm_compute; reflexivity|].
    split; [rewrite Htr; vm_compute; reflexivity|].
    split; [rewrite Hart; vm_compute; reflexivity|].
    split; [rewrite Hout; vm_compute; reflexivity|exact Hst].
Defined.

(** The stop command arrives while the third and last chunk is in its
    backend call; the call returns, the result is stored, the loop ends
    and the worker returns. *)
Definition schedule_stop_last_chunk (n : nat) : list label :=
  repeat Work 11 ++ [Cmd Stop] ++ repeat Work n.

(** C8, as stated, fails: the flag is not read at the head of an iteration
    only.  After a stop during the last chunk the worker never comes to
    the head of an iteration again (the loop ends, [3000 >= 2500]) and
    never breaks: the three chunks are translated and the status message
    is not the one of a stop.  Yet it has read the flag: it returns
    without the document that the same steps write when no stop is
    made. *)
Lemma stop_read_after_the_loop :
  map (fun n => worker (after Flask demo_world job_2500
                          (schedule_stop_last_chunk n)))
    [0; 1; 2; 3; 4]%nat
  = [PTranslate 2000; PStore 2000 marhaban_bil_alam; PLoop 3000; PFinish;
     PDone]
  /\ total_chars job_2500 <= 3000
  /\ job_total_chunks job_2500 = 3
  /\ (let s := after Flask demo_world job_2500 (schedule_stop_last_chunk 4) in
      length (translated_chunks (state s)) = 3%nat
      /\ length (backend_log s) = 3%nat
      /\ status_message (state s) = translating_message job_2500 2000
      /\ status_message (state s) <> stopped_message Flask
      /\ artifacts s = []
      /\ output_file (state s) = None)
  /\ (let s := after Flask demo_world job_2500 (repeat Work 15) in
      worker s = PDone
      /\ length (translated_chunks (state s)) = 3%nat
      /\ artifacts s <> []
      /\ output_file (state s) <> None).
Proof.
  split; [vm_compute; reflexivity|].
  split; [vm_compute; discriminate|].
  split; [vm_compute; reflexivity|].
  split; cbv zeta; repeat split; try (vm_compute; reflexivity);
    vm_compute; discriminate.
Qed.

(* ====================================================================== *)
(** * Export (C7) *)
(* ====================================================================== *)


Lemma out_filename_nonempty (w : world) :
  exists c n, out_filename w = c :: n.
Proof. unfold out_filename. simpl. eauto. Qed.



(* ====================================================================== *)
(** * Pause (C9, C10) *)
(* ====================================================================== *)

(** No job has been started: the toggle changes the state all the same. *)
Lemma pause_toggle_changes_idle_state :
  running fresh_state = false
  /\ pause_translation fresh_state <> fresh_state
  /\ snap_paused (get_status (pause_translation fresh_state)) = true.
Proof. repeat split. discriminate. Qed.

(** C9, as the code has it.  Two toggles in a row give the state back.
    One toggle negates [paused] and changes nothing else, whether a job is
    running or not; the flag set while no job is active is cleared by the
    [reset] that starts the next job. *)
Theorem pause_toggle_involution :
  (forall st, pause_translation (pause_translation st) = st)
  /\ (forall st,
        let st' := pause_translation st in
        paused st' = negb (paused st)
        /\ stopped st' = stopped st /\ running st' = running st
        /\ current_chunk st' = current_chunk st
        /\ total_chunks st' = total_chunks st
        /\ translated_chunks st' = translated_chunks st
        /\ live_feed st' = live_feed st
        /\ status_message st' = status_message st
        /\ start_time st' = start_time st
        /\ error st' = error st /\ output_file st' = output_file st
        /\ current_config st' = current_config st /\ opts st' = opts st)
  /\ (forall st, reset (pause_translation st) = reset st)
  /\ (forall fe w j s s1 s2,
        command_step fe w j Pause s = Some s1 ->
        command_step fe w j Pause s1 = Some s2 ->
        s2 = s).
Proof.
  assert (Hinv : forall st, pause_translation (pause_translation st) = st).
  { intros [ ]. unfold pause_translation. cbn. now rewrite negb_involutive. }
  split; [exact Hinv|].
  split; [intros st; cbn; repeat split|].
  split; [reflexivity|].
  intros fe w j s s1 s2 H1 H2. unfold command_step in *.
  destruct (locked s) eqn:El; [discriminate|].
  inversion H1; subst s1. cbn in H2. rewrite El in H2.
  inversion H2; subst s2. cbn. rewrite Hinv. now destruct s.
Qed.

Lemma pause_toggle_involution_witness :
  run Flask demo_world job_2500 [Cmd Pause; Cmd Pause]
    (after Flask demo_world job_2500 schedule_second_in_flight)
  = Some (after Flask demo_world job_2500 schedule_second_in_flight).
Proof.
  assert (G : forall s,
             locked s = false ->
             run Flask demo_world job_2500 [Cmd Pause; Cmd Pause] s = Some s).
  { intros s Hl.
    destruct pause_toggle_involution as (_ & _ & _ & H).
    assert (H1 : command_step Flask demo_world job_2500 Pause s
                 = Some (with_state (pause_translation (state s)) s)).
    { unfold command_step. now rewrite Hl. }
    assert (H2 : command_step Flask demo_world job_2500 Pause
                   (with_state (pause_translation (state s)) s)
                 = Some (with_state
                           (pause_translation (pause_translation (state s)))
                           (with_state (pause_translation (state s)) s))).
    { unfold command_step. cbn [locked with_state]. now rewrite Hl. }
    cbn [run sys_step]. rewrite H1, H2. f_equal.
    exact (H Flask demo_world job_2500 s _ _ H1 H2). }
  apply G. vm_compute. reflexivity.
Defined.

(** Once the worker has read [paused] as true it sleeps inside the [with]
    block: it holds the lock, so that no command can run, the toggle that
    would resume the job included, and the system stays as it is. *)
Lemma paused_worker_step (fe : frontend) (w : world) (j : job) (s : system)
    (i : Z) :
  worker s = PPaused i -> locked s = true -> paused (state s) = true ->
  forall l s', sys_step fe w j l s = Some s' -> s' = s.
Proof.
  intros Hpc Hl Hpa l s' Hstep. destruct l as [|c]; simpl in Hstep.
  - unfold worker_step in Hstep. rewrite Hpc, Hpa in Hstep. congruence.
  - unfold command_step in Hstep. rewrite Hl in Hstep. discriminate.
Qed.

Lemma paused_worker_run (fe : frontend) (w : world) (j : job) (s : system)
    (i : Z) :
  worker s = PPaused i -> locked s = true -> paused (state s) = true ->
  forall ls s', run fe w j ls s = Some s' -> s' = s.
Proof.
  intros Hpc Hl Hpa ls. induction ls as [|l ls IH]; intros s' Hrun;
    simpl in Hrun.
  - congruence.
  - destruct (sys_step fe w j l s) as [s1|] eqn:E; [|discriminate].
    rewrite (paused_worker_step fe w j s i Hpc Hl Hpa l s1 E) in Hrun.
    now apply IH.
Qed.

(** C10, on the code.  A worker that finds [paused] set at the head of an
    iteration takes the lock and keeps it while it sleeps.  It makes no
    progress and no backend call, but no command can take the lock any
    more: not a status poll, not the stop command, not the toggle that
    would clear [paused].  Every schedule leaves the system as it is. *)
Theorem paused_worker_holds_lock :
  forall fe w j st0 s i,
    reachable fe w j st0 s ->
    worker s = PLoop i -> i < total_chars j ->
    stopped (state s) = false -> paused (state s) = true ->
    exists s',
      worker_step fe w j s = Some s'
      /\ worker s' = PPaused i
      /\ locked s' = true
      /\ state s' = state s
      /\ backend_log s' = backend_log s
      /\ (forall c, command_step fe w j c s' = None)
      /\ worker_step fe w j s' = Some s'
      /\ (forall ls s'', run fe w j ls s' = Some s'' -> s'' = s').
Proof.
  intros fe w j st0 s i Hr Hpc Hi Hst Hpa.
  assert (Hl : locked s = false).
  { apply (reachable_unlocked fe w j st0 s Hr). intros i'. congruence. }
  exists (goto (PPaused i) (with_locked true s)).
  split.
  { unfold worker_step. rewrite Hpc, Hl, Hst, Hpa. fold (total_chars j).
    destruct (Z.leb_spec (total_chars j) i); [lia|reflexivity]. }
  split; [reflexivity|]. split; [reflexivity|]. split; [reflexivity|].
  split; [reflexivity|].
  split; [intros c; reflexivity|].
  split; [unfold worker_step; cbn; now rewrite Hpa|].
  apply (paused_worker_run fe w j _ i); auto.
Qed.

(** The operator pauses before the first chunk, the worker reaches the
    head of the loop, and then the operator tries to resume. *)
Definition schedule_pause_then_work : list label := [Cmd Pause; Work; Work].

Lemma paused_worker_holds_lock_witness :
  worker (after Flask demo_world job_2500 schedule_pause_then_work)
  = PPaused 0
  /\ locked (after Flask demo_world job_2500 schedule_pause_then_work) = true
  /\ command_step Flask demo_world job_2500 Pause
       (after Flask demo_world job_2500 schedule_pause_then_work) = None
  /\ command_step Flask demo_world job_2500 Status
       (after Flask demo_world job_2500 schedule_pause_then_work) = None
  /\ run Flask demo_world job_2500 [Work; Work; Work]
       (after Flask demo_world job_2500 schedule_pause_then_work)
     = Some (after Flask demo_world job_2500 schedule_pause_then_work).
Proof.
  destruct (paused_worker_holds_lock Flask demo_world job_2500 fresh_state
              (after Flask demo_world job_2500 [Cmd Pause; Work]) 0)
    as (s' & H1 & H2 & H3 & H4 & H5 & H6 & H7 & H8).
  - apply after_reachable. vm_compute. discriminate.
  - vm_compute. reflexivity.
  - vm_compute. reflexivity.
  - vm_compute. reflexivity.
  - vm_compute. reflexivity.
  - assert (E : after Flask demo_world job_2500 schedule_pause_then_work = s').
    { unfold after, schedule_pause_then_work.
      change [Cmd Pause; Work; Work] with ([Cmd Pause; Work] ++ [Work]).
      rewrite run_app.
      unfold after in H1.
      destruct (run Flask demo_world job_2500 [Cmd Pause; Work]
                  (initial_system Flask job_2500)) as [s0|] eqn:E0.
      - cbn [run sys_step]. now rewrite H1.
      - exfalso. revert E0. vm_compute. discriminate. }
    rewrite E. repeat split; auto.
    cbn [run sys_step]. now rewrite !H7.
Defined.

(* ====================================================================== *)
(** * Further invariants of a job *)
(* ====================================================================== *)

(** What [live_feed] holds for a list of results: every result followed
    by the separator of the front-end. *)
Definition feed_separator (fe : frontend) : str :=
  match fe with Flask => nl ++ nl | Gradio => nl end.

Definition feed_of (fe : frontend) (trs : list str) : str :=
  concat (map (fun tr => tr ++ feed_separator fe) trs).

Lemma feed_of_snoc (fe : frontend) (trs : list str) (tr : str) :
  feed_of fe (trs ++ [tr]) = feed_of fe trs ++ tr ++ feed_separator fe.
Proof.
  unfold feed_of. rewrite map_app, concat_app. cbn. now rewrite app_nil_r.
Qed.

(** The live text, the flags and the counters, by the place of the
    worker. *)
Definition inv2 (fe : frontend) (w : world) (j : job) (s : system) : Prop :=
  let st := state s in
  live_feed st = feed_of fe (translated_chunks st)
  /\ (worker s = PDone -> running st = false)
  /\ (error st <> None ->
      fe = Flask /\ worker s = PDone /\ output_file st = None)
  /\ match worker s with
     | PStart => total_chunks st = 0 /\ live_feed st = []
     | PExcept _ | PDone =>
         total_chunks st = job_total_chunks j
         \/ (total_chunks st = 0 /\ translated_chunks st = [])
     | _ =>
         total_chunks st = job_total_chunks j
         /\ start_time st = Some (time_start w)
     end.

Lemma inv2_initial (fe : frontend) (w : world) (j : job) :
  inv2 fe w j (initial_system fe j).
Proof.
  unfold inv2, initial_system. destruct fe; cbn; repeat split;
    try discriminate; congruence.
Qed.

Lemma init_section_more (fe : frontend) (w : world) (j : job)
    (st : TranslationState) :
  let st' := init_section fe w j st in
  live_feed st' = [] /\ error st' = error st
  /\ start_time st' = Some (time_start w).
Proof. destruct fe; cbn; repeat split. Qed.

Lemma store_section_more (fe : frontend) (j : job) (i : Z) (tr : str)
    (st : TranslationState) :
  let st' := store_section fe j i tr st in
  live_feed st' = live_feed st ++ tr ++ feed_separator fe
  /\ total_chunks st' = total_chunks st
  /\ start_time st' = start_time st
  /\ status_message st' = status_message st.
Proof. destruct fe; cbn; repeat split. Qed.

Lemma except_section_more (fe : frontend) (e : exn) (st : TranslationState) :
  let st' := except_section fe e st in
  live_feed st' = live_feed st /\ total_chunks st' = total_chunks st
  /\ running st' = false
  /\ (fe = Flask -> error st' = Some (exn_msg e)
                    /\ status_message st' = lit "Error: " ++ exn_msg e)
  /\ (fe = Gradio -> error st' = error st
                     /\ status_message st'
                        = [0x274c] ++ lit " Error: " ++ exn_msg e).
Proof.
  destruct fe; cbn; repeat split; intros; try discriminate; auto.
Qed.

(** The block after the loop, case by case. *)
Lemma finish_section_cases (fe : frontend) (w : world) (j : job) (s : system) :
  let s' := finish_section fe w j s in
  live_feed (state s') = live_feed (state s)
  /\ translated_chunks (state s') = translated_chunks (state s)
  /\ total_chunks (state s') = total_chunks (state s)
  /\ error (state s') = error (state s)
  /\ running (state s') = false
  /\ backend_log s' = backend_log s
  /\ (worker s' = PDone \/ exists e, worker s' = PExcept e).
Proof.
  unfold finish_section. cbn [stopped set_running].
  destruct (stopped (state s)); [cbn; repeat split; auto|].
  destruct fe; cbn.
  - destruct (write_docx w _ _ _ _); cbn; repeat split; eauto.
  - destruct (write_docx w _ _ _ _); [cbn; repeat split; eauto|].
    destruct (start_time (state s)); cbn; repeat split; eauto.
Qed.

Ltac open_inv2 :=
  unfold inv2;
  cbn -[init_section store_section except_section finish_section feed_of].

Ltac no_error :=
  match goal with
  | Herr : error ?st <> None -> _ /\ _ = PDone /\ _, H : error ?st <> None
    |- _ => destruct (Herr H) as (_ & ? & _); discriminate
  end.

Ltac inv2_goals :=
  repeat split; intros; try discriminate; try no_error; try tauto;
  try congruence; auto.

Lemma worker_step_inv2 (fe : frontend) (w : world) (j : job) (s s' : system) :
  inv fe w j s -> inv2 fe w j s ->
  worker_step fe w j s = Some s' -> inv2 fe w j s'.
Proof.
  intros (_ & _ & _ & _ & Hpc) (Hfeed & Hrun & Herr & Htot) Hstep.
  unfold worker_step in Hstep. unfold pc_inv in Hpc.
  destruct (worker s) eqn:Epc.
  - (* PStart *)
    destruct Hpc as (Hk & _). apply length_zero_nil in Hk.
    destruct (j_doc j) as [text|e].
    + destruct (locked s); [discriminate|].
      inversion Hstep; subst s'; clear Hstep.
      destruct (init_section_fields fe w j (state s))
        as (_ & E2 & _ & _ & _ & _ & E7 & _).
      destruct (init_section_more fe w j (state s)) as (F1 & F2 & F3).
      open_inv2. rewrite E2, E7, F1, F2, F3. inv2_goals.
    + inversion Hstep; subst s'; clear Hstep. open_inv2. inv2_goals.
  - (* PLoop *)
    destruct (total_chars j <=? i).
    + inversion Hstep; subst s'; clear Hstep. open_inv2. inv2_goals.
    + destruct (locked s); [discriminate|].
      destruct (stopped (state s)).
      * inversion Hstep; subst s'; clear Hstep. open_inv2. inv2_goals.
      * destruct (paused (state s)); inversion Hstep; subst s'; clear Hstep;
          open_inv2; [|destruct fe; cbn]; inv2_goals.
  - (* PPaused *)
    destruct (paused (state s)); inversion Hstep; subst s'; clear Hstep.
    + unfold inv2. rewrite Epc. inv2_goals.
    + open_inv2. destruct fe; cbn; inv2_goals.
  - (* PStatus *)
    destruct (locked s); [discriminate|].
    inversion Hstep; subst s'; clear Hstep. open_inv2. inv2_goals.
  - (* PTranslate *)
    destruct (translate_with_ollama _ _ _ _ _ _) as [[tr|e] log'];
      inversion Hstep; subst s'; clear Hstep; open_inv2; inv2_goals.
  - (* PStore *)
    destruct (locked s); [discriminate|].
    inversion Hstep; subst s'; clear Hstep.
    destruct (store_section_fields fe j i tr (state s))
      as (_ & E2 & _ & _ & _ & _ & E7 & _).
    destruct (store_section_more fe j i tr (state s)) as (F1 & F2 & F3 & _).
    open_inv2. rewrite E2, E7, F1, F2, F3, feed_of_snoc, Hfeed. inv2_goals.
  - (* PFinish *)
    destruct (locked s); [discriminate|].
    inversion Hstep; subst s'; clear Hstep.
    destruct (finish_section_cases fe w j s)
      as (F1 & F2 & F3 & F4 & F5 & _ & F7).
    unfold inv2. rewrite F1, F2, F3, F4, F5.
    destruct F7 as [F7|[e F7]]; rewrite F7; inv2_goals.
  - (* PExcept *)
    destruct (locked s); [discriminate|].
    inversion Hstep; subst s'; clear Hstep.
    destruct (except_section_fields fe e (state s))
      as (_ & E2 & _ & E4 & _).
    destruct (except_section_more fe e (state s))
      as (F1 & F2 & F3 & F4 & F5).
    destruct Hpc as (_ & Hout & _).
    open_inv2. rewrite E2, E4, F1, F2. inv2_goals.
    destruct fe; [reflexivity|].
    destruct (F5 eq_refl) as (F6 & _). rewrite F6 in H. no_error.
  - discriminate.
Qed.

Lemma command_step_inv2 (fe : frontend) (w : world) (j : job) (c : command)
    (s s' : system) :
  inv2 fe w j s -> command_step fe w j c s = Some s' -> inv2 fe w j s'.
Proof.
  intros (Hfeed & Hrun & Herr & Htot) Hstep.
  unfold command_step in Hstep.
  destruct (locked s); [discriminate|].
  inversion Hstep; subst s'; clear Hstep.
  destruct c.
  - open_inv2. inv2_goals.
  - open_inv2. destruct fe; cbn; inv2_goals.
  - unfold inv2. inv2_goals.
  - destruct (snd (export fe w j (state s))) as [[p t]|]; open_inv2;
      inv2_goals.
Qed.

Lemma run_inv2 (fe : frontend) (w : world) (j : job) (ls : list label) :
  forall s s',
    inv fe w j s -> inv2 fe w j s ->
    run fe w j ls s = Some s' -> inv2 fe w j s'.
Proof.
  induction ls as [|l ls IH]; intros s s' Hinv Hinv2 Hrun; simpl in Hrun.
  - now inversion Hrun; subst.
  - destruct (sys_step fe w j l s) as [s1|] eqn:E; [|discriminate].
    apply (IH s1 s'); [eapply sys_step_inv; eauto| |exact Hrun].
    destruct l as [|c]; simpl in E.
    + eapply worker_step_inv2; eauto.
    + eapply command_step_inv2; eauto.
Qed.

Lemma reachable_inv2 (fe : frontend) (w : world) (j : job)
    (st0 : TranslationState) (s : system) :
  reachable fe w j st0 s -> inv2 fe w j s.
Proof.
  intros [ls Hrun].
  eapply run_inv2; [apply inv_initial|apply inv2_initial|exact Hrun].
Qed.

(* ====================================================================== *)
(** * Further properties of a job *)
(* ====================================================================== *)

(** X1. In every state of a job the live text is the results stored so
    far, in order, each followed by the separator of the front-end (two
    newlines in Flask, one in Gradio); a status poll reads that text. *)
Theorem live_feed_is_results_in_order :
  forall fe w j st0 s,
    reachable fe w j st0 s ->
    live_feed (state s)
    = concat (map (fun tr => tr ++ feed_separator fe)
                (translated_chunks (state s)))
    /\ snap_live_text (get_status (state s))
       = feed_of fe (snap_results (get_status (state s))).
Proof.
  intros fe w j st0 s Hr.
  destruct (reachable_inv2 fe w j st0 s Hr) as (Hfeed & _).
  split; exact Hfeed.
Qed.

Lemma live_feed_is_results_in_order_witness :
  live_feed (state (after Flask demo_world job_2500
                      (schedule_second_in_flight ++ [Work; Work])))
  = marhaban_bil_alam ++ nl ++ nl ++ marhaban_bil_alam ++ nl ++ nl.
Proof.
  destruct (live_feed_is_results_in_order Flask demo_world job_2500 fresh_state
              (after Flask demo_world job_2500
                 (schedule_second_in_flight ++ [Work; Work]))) as [H _].
  - apply after_reachable. vm_compute. discriminate.
  - rewrite H. vm_compute. reflexivity.
Defined.

(** In every state of one job [0 <= current_chunk <= total_chunks], and
    [total_chunks] is zero (before the document is read, or when it
    cannot be read) or the number of chunks of the document. *)
Lemma job_progress_within_bounds :
  forall fe w j st0 s,
    reachable fe w j st0 s ->
    0 <= current_chunk (state s) <= total_chunks (state s)
    /\ (total_chunks (state s) = 0
        \/ total_chunks (state s) = job_total_chunks j).
Proof.
  intros fe w j st0 s Hr.
  destruct (reachable_inv fe w j st0 s Hr) as (_ & Hcur & HkN & _ & Hpc).
  destruct (reachable_inv2 fe w j st0 s Hr) as (_ & _ & _ & Htot).
  unfold pc_inv in Hpc.
  assert (Hnil : translated_chunks (state s) = [] -> current_chunk (state s) = 0).
  { intros E. now rewrite Hcur, E. }
  destruct (worker s).
  - destruct Hpc as (Hk & _), Htot as (Ht & _).
    apply length_zero_nil in Hk. rewrite (Hnil Hk), Ht. lia.
  - destruct Htot as (Ht & _). rewrite Ht. lia.
  - destruct Htot as (Ht & _). rewrite Ht. lia.
  - destruct Htot as (Ht & _). rewrite Ht. lia.
  - destruct Htot as (Ht & _). rewrite Ht. lia.
  - destruct Htot as (Ht & _). rewrite Ht. lia.
  - destruct Htot as (Ht & _). rewrite Ht. lia.
  - destruct Htot as [Ht|[Ht Hn]]; [rewrite Ht|rewrite (Hnil Hn), Ht]; lia.
  - destruct Htot as [Ht|[Ht Hn]]; [rewrite Ht|rewrite (Hnil Hn), Ht]; lia.
Qed.


(** X4. Every chunk cut from a document is non-empty and has at most
    [batch_size] code points, which is at most 4000; every chunk but the
    last has exactly [batch_size]. *)
Theorem chunk_sizes_bounded :
  forall (j : job) (text : str) (k : nat) (c : str),
    j_doc j = Ok text ->
    nth_error (chunks text (batch_size j)) k = Some c ->
    0 < len c <= batch_size j
    /\ batch_size j <= 4000
    /\ (Z.of_nat (S k) < job_total_chunks j -> len c = batch_size j).
Proof.
  intros j text k c Edoc Hk.
  assert (EB : batch_size j = batch_size_for (len text)).
  { unfold batch_size, calculate_optimal_batch_size. now rewrite Edoc. }
  assert (EN : job_total_chunks j = total_chunks_of (len text) (batch_size j)).
  { unfold job_total_chunks, total_chars, job_text. now rewrite Edoc. }
  pose proof (batch_size_for_pos (len text)) as HB. rewrite <- EB in HB.
  assert (Hlt : (k < Z.to_nat (total_chunks_of (len text) (batch_size j)))%nat).
  { rewrite <- chunks_length. apply nth_error_Some. congruence. }
  rewrite chunks_nth in Hk by exact Hlt. inversion Hk; subst c.
  destruct (chunk_length text (batch_size j) k ltac:(lia) Hlt) as [E Hpos].
  rewrite E.
  pose proof (total_chunks_of_ceil (len text) (batch_size j) ltac:(lia)) as Hc.
  repeat split; try lia.
  intros HS. rewrite EN in HS. nia.
Qed.

Lemma chunk_sizes_bounded_witness :
  0 < len (slice doc_2500 2000 3000) <= 1000.
Proof.
  destruct (chunk_sizes_bounded job_2500 doc_2500 2 (slice doc_2500 2000 3000))
    as (H & _).
  - reflexivity.
  - vm_compute. reflexivity.
  - exact H.
Defined.



(** A job whose document has no chunk never calls the backend and never
    stores a result. *)
Lemma no_chunks_no_calls (fe : frontend) (w : world) (j : job)
    (st0 : TranslationState) (s : system) :
  job_total_chunks j = 0 ->
  reachable fe w j st0 s ->
  backend_log s = [] /\ translated_chunks (state s) = [].
Proof.
  intros HN Hr.
  destruct (reachable_inv fe w j st0 s Hr) as (_ & _ & HkN & _ & Hpc).
  unfold pc_inv in Hpc.
  assert (Hk : translated_chunks (state s) = []).
  { apply length_zero_nil. lia. }
  split; [|exact Hk]. rewrite Hk in Hpc. cbn in Hpc.
  pose proof (N_ceil j) as Hc. pose proof (B_pos j) as HB.
  rewrite HN in Hc.
  assert (Hnil : forall log, processed fe w j [] log [] -> log = []).
  { intros log Hp. destruct (processed_lengths _ _ _ _ _ _ Hp) as [E _].
    now apply length_zero_nil. }
  destruct (worker s); try (apply Hnil; tauto); try tauto.
  exfalso. lia.
Qed.


(** The status message of the exception handler. *)
Definition error_status (fe : frontend) (e : exn) : str :=
  match fe with
  | Flask => lit "Error: " ++ exn_msg e
  | Gradio => [0x274c] ++ lit " Error: " ++ exn_msg e
  end.




(** X7. A document that reads as the empty string gives a job of zero
    chunks: the worker never calls the backend, and if the writer
    succeeds it returns after three steps having written a document with
    empty text.  Flask then records the output file, which the export
    serves although there is no result; the Gradio export answers that
    there is nothing to export. *)
Theorem empty_document_completes_empty :
  forall fe w j,
    j_doc j = Ok [] ->
    (forall path text direction alignment,
        write_docx w path text direction alignment = None) ->
    job_total_chunks j = 0
    /\ (forall st0 s, reachable fe w j st0 s -> backend_log s = [])
    /\ exists s3,
         run fe w j [Work; Work; Work] (initial_system fe j) = Some s3
         /\ worker s3 = PDone
         /\ running (state s3) = false
         /\ total_chunks (state s3) = 0
         /\ translated_chunks (state s3) = []
         /\ artifacts s3 = [(out_path w j, [])]
         /\ (fe = Flask ->
             output_file (state s3) = Some (out_filename w)
             /\ fst (export fe w j (state s3)) = Exported (out_path w j))
         /\ (fe = Gradio ->
             exists m, fst (export fe w j (state s3)) = NothingToExport m).
Proof.
  intros fe w j Edoc Hw.
  assert (EN : job_total_chunks j = 0).
  { unfold job_total_chunks, total_chars, job_text, batch_size.
    now rewrite Edoc. }
  assert (EL : total_chars j = 0).
  { unfold total_chars, job_text. now rewrite Edoc. }
  split; [exact EN|]. split.
  { intros st0 s Hr. apply (no_chunks_no_calls fe w j st0 s EN Hr). }
  eexists. split.
  { cbn [run sys_step]. unfold worker_step at 1.
    cbn [worker initial_system start_translation locked]. rewrite Edoc.
    unfold worker_step at 1. cbn [worker goto]. fold (total_chars j).
    rewrite EL. cbn [Z.leb Z.compare].
    unfold worker_step. cbn [worker goto locked with_state initial_system
                               start_translation].
    reflexivity. }
  destruct (out_filename_nonempty w) as (c & n & En).
  unfold finish_section.
  destruct fe; cbn -[out_path out_filename]; rewrite ?Hw;
    cbn -[out_path out_filename]; rewrite ?EN.
  - repeat split; intros; try discriminate; auto.
  - repeat split; intros; try discriminate; eauto.
Qed.

Definition job_empty : job := {|
  j_doc := Ok [];
  j_dir := lit "uploads";
  j_config := {| model := Some (lit "command-r7b-arabic"); rtl := true |};
  j_options := {| o_prompt_template := []; o_prompt_mode := lit "append";
                  o_disable_think := true; o_enable_concise := false;
                  o_enable_filter := true |}
|}.

Lemma empty_document_completes_empty_witness :
  exists s3,
    run Flask demo_world job_empty [Work; Work; Work]
      (initial_system Flask job_empty) = Some s3
    /\ worker s3 = PDone
    /\ translated_chunks (state s3) = []
    /\ artifacts s3 = [(out_path demo_world job_empty, [])]
    /\ fst (export Flask demo_world job_empty (state s3))
       = Exported (out_path demo_world job_empty).
Proof.
  destruct (empty_document_completes_empty Flask demo_world job_empty eq_refl)
    as (_ & _ & s3 & A & B & _ & _ & C & D & E & _).
  - reflexivity.
  - exists s3. destruct (E eq_refl) as [_ F]. repeat split; auto.
Defined.

(** X8. A failure of the document writer at completion is fatal to the
    job and loses no result: the worker that has left the loop without a
    stop takes two steps, the block after the loop and the handler, and
    has then returned with [running] false, the error text as status (and
    as [error] in Flask), no output file, no written document, and the
    results as they were. *)
Theorem writer_failure_fails_job :
  forall fe w j st0 s e,
    reachable fe w j st0 s ->
    worker s = PFinish ->
    stopped (state s) = false ->
    (forall path text direction alignment,
        write_docx w path text direction alignment = Some e) ->
    exists s2,
      run fe w j [Work; Work] s = Some s2
      /\ worker s2 = PDone
      /\ running (state s2) = false
      /\ status_message (state s2) = error_status fe e
      /\ (fe = Flask -> error (state s2) = Some (exn_msg e))
      /\ output_file (state s2) = None
      /\ artifacts s2 = []
      /\ translated_chunks (state s2) = translated_chunks (state s)
      /\ live_feed (state s2) = live_feed (state s).
Proof.
  intros fe w j st0 s e Hr Hpc Hst Hw.
  assert (Hl : locked s = false).
  { apply (reachable_unlocked fe w j st0 s Hr). intros i. congruence. }
  destruct (reachable_inv fe w j st0 s Hr) as (_ & _ & _ & _ & Hp).
  unfold pc_inv in Hp. rewrite Hpc in Hp.
  destruct Hp as (_ & (Hart & Hout) & _).
  destruct fe; eexists; (split;
    [cbn [run sys_step]; unfold worker_step at 1; rewrite Hpc, Hl;
     unfold finish_section; cbn [stopped set_running]; rewrite Hst, Hw;
     unfold worker_step; cbn [worker goto locked with_state]; rewrite Hl;
     reflexivity
    |cbn; repeat split; intros; try discriminate; auto]).
Qed.

(** The writer refuses every document. *)
Definition failing_writer_world : world := {|
  db := ascii_db;
  ollama := fun _ _ => Completed 0 marhaban_bil_alam [];
  str_format := fun template _ => Ok template;
  write_docx := fun _ _ _ _ =>
    Some (Exn (lit "[Errno 13] Permission denied"));
  time_start := 0;
  time_finish := 60;
  timestamp := lit "20260218_120000";
  system_stats := lit "CPU: 10.0% | RAM: 40.0%";
  cwd := lit "/srv/tajreba"
|}.

Lemma writer_failure_fails_job_witness :
  exists s2,
    run Flask failing_writer_world job_2500 [Work; Work]
      (after Flask failing_writer_world job_2500 (repeat Work 14)) = Some s2
    /\ worker s2 = PDone
    /\ error (state s2) = Some (lit "[Errno 13] Permission denied")
    /\ output_file (state s2) = None
    /\ translated_chunks (state s2)
       = translated_chunks
           (state (after Flask failing_writer_world job_2500 (repeat Work 14))).
Proof.
  destruct (writer_failure_fails_job Flask failing_writer_world job_2500
              fresh_state
              (after Flask failing_writer_world job_2500 (repeat Work 14))
              (Exn (lit "[Errno 13] Permission denied")))
    as (s2 & A & B & _ & _ & C & D & _ & E & _).
  - apply after_reachable. vm_compute. discriminate.
  - vm_compute. reflexivity.
  - vm_compute. reflexivity.
  - reflexivity.
  - exists s2. repeat split; auto.
Defined.



(* ====================================================================== *)
(** * Further properties of the sanitizer and of the client *)
(* ====================================================================== *)

Lemma lstrip_nonspace (c : Z) (s : str) :
  is_space c = false -> lstrip (c :: s) = c :: s.
Proof. intros H. simpl. now rewrite H. Qed.

(** What [lstrip] leaves is empty or begins with a code point that is not
    whitespace. *)
Lemma lstrip_head (s : str) :
  lstrip s = [] \/ exists c r, lstrip s = c :: r /\ is_space c = false.
Proof.
  induction s as [|c s IH]; simpl; [now left|].
  destruct (is_space c) eqn:E; [exact IH|]. right. eauto.
Qed.

Lemma lstrip_app_nonspace (a b : str) (c : Z) :
  is_space c = false -> lstrip (a ++ c :: b) = lstrip a ++ c :: b.
Proof.
  intros H. induction a as [|x a IH]; simpl.
  - now rewrite H.
  - destruct (is_space x); [exact IH|reflexivity].
Qed.

Lemma rstrip_cons_nonspace (c : Z) (s : str) :
  is_space c = false -> rstrip (c :: s) = c :: rstrip s.
Proof.
  intros H. unfold rstrip. cbn [rev].
  rewrite (lstrip_app_nonspace (rev s) [] c H), rev_app_distr. reflexivity.
Qed.

Lemma lstrip_idempotent (s : str) : lstrip (lstrip s) = lstrip s.
Proof.
  destruct (lstrip_head s) as [E|(c & r & E & Hc)]; rewrite E;
    [reflexivity|now apply lstrip_nonspace].
Qed.

Lemma rstrip_idempotent (s : str) : rstrip (rstrip s) = rstrip s.
Proof.
  unfold rstrip. now rewrite rev_involutive, lstrip_idempotent.
Qed.

(** [s.strip().strip() == s.strip()] *)
Lemma strip_idempotent (s : str) : strip (strip s) = strip s.
Proof.
  unfold strip.
  destruct (lstrip_head s) as [E|(c & r & E & Hc)]; rewrite E.
  - reflexivity.
  - rewrite (rstrip_cons_nonspace c r Hc), (lstrip_nonspace _ _ Hc).
    rewrite <- (rstrip_cons_nonspace c r Hc). apply rstrip_idempotent.
Qed.

Lemma sanitize_str_cases (db : unicode_db) (text : str) :
  sanitize_str db text = cleaned db text
  \/ exists run, sanitize_str db text = run
                 /\ starts_arabic run /\ ends_arabic run.
Proof.
  destruct (existsb is_arabic (cleaned db text)) eqn:E.
  - right. destruct (sanitize_str_runs db text E)
      as (pre & run & post & _ & _ & _ & Hs & He & _ & Hr).
    exists run. auto.
  - left. now apply sanitize_str_no_runs.
Qed.

Lemma sanitize_str_stripped (db : unicode_db) (text : str) :
  strip (sanitize_str db text) = sanitize_str db text.
Proof.
  destruct (sanitize_str_cases db text) as [E|(run & E & Hs & He)]; rewrite E.
  - unfold cleaned. apply strip_idempotent.
  - now apply strip_run.
Qed.

(** X10. What the sanitizer returns for a string has no whitespace at
    either end, and so has the result of every successful backend call in
    both front-ends: stripping it again changes nothing. *)
Theorem successful_result_is_stripped :
  (forall db text,
      strip (sanitize_str db text) = sanitize_str db text
      /\ strip (sanitize_output_str db text) = sanitize_output_str db text)
  /\ (forall fe w st out err,
        strip (result_for fe w st (Completed 0 out err))
        = result_for fe w st (Completed 0 out err)).
Proof.
  assert (H : forall db text,
             strip (sanitize_output_str db text) = sanitize_output_str db text).
  { intros db text. rewrite sanitize_output_str_eq.
    destruct text; [reflexivity|apply sanitize_str_stripped]. }
  split.
  { intros db text. split; [apply sanitize_str_stripped|apply H]. }
  intros fe w st out err. destruct fe.
  - change (result_for Flask w st (Completed 0 out err))
      with (sanitize_output_str (db w) (strip out)). apply H.
  - change (result_for Gradio w st (Completed 0 out err))
      with (str_or
              match strip out with
              | _ :: _ =>
                  if filter_thoughts (opts st)
                  then sanitize_output_str (db w) (strip out) else strip out
              | [] => strip out
              end GradioClient.no_output_message).
    pose proof (strip_idempotent out) as Hs.
    destruct (strip out) as [|c r]; [reflexivity|].
    destruct (filter_thoughts (opts st)).
    + destruct (sanitize_output_str (db w) (c :: r)) eqn:E'; [reflexivity|].
      cbn [str_or]. rewrite <- E'. apply H.
    + exact Hs.
Qed.

Lemma filter_arabic_lstrip (s : str) :
  filter is_arabic (lstrip s) = filter is_arabic s.
Proof.
  induction s as [|c s IH]; simpl; [reflexivity|].
  destruct (is_space c) eqn:Hs; [|reflexivity].
  destruct (is_arabic c) eqn:Ha; [|exact IH].
  rewrite (arabic_not_space c Ha) in Hs. discriminate.
Qed.

Lemma filter_arabic_strip (s : str) :
  filter is_arabic (strip s) = filter is_arabic s.
Proof.
  unfold strip, rstrip.
  rewrite filter_rev, filter_arabic_lstrip, <- filter_rev, rev_involutive.
  apply filter_arabic_lstrip.
Qed.

Lemma filter_arabic_join (ls : list str) :
  filter is_arabic (join nl ls) = concat (map (filter is_arabic) ls).
Proof.
  induction ls as [|l ls IH]; [reflexivity|].
  destruct ls as [|l' ls].
  - cbn. now rewrite app_nil_r.
  - change (join nl (l :: l' :: ls)) with (l ++ nl ++ join nl (l' :: ls)).
    rewrite !filter_app, IH. reflexivity.
Qed.

Lemma filter_no_arabic (s : str) : no_arabic s -> filter is_arabic s = [].
Proof.
  unfold no_arabic, not_arabic. induction s as [|c s IH]; simpl; [reflexivity|].
  intros H. apply andb_true_iff in H as [Hc Hs].
  apply negb_true_iff in Hc. rewrite Hc. now apply IH.
Qed.

(** X11. The sanitizer keeps every Arabic code point of every line it
    keeps, in order: the Arabic code points of its result are those of the
    kept lines, one line after the other. *)
Theorem sanitizer_keeps_arabic_of_kept_lines :
  forall db text,
    filter is_arabic (sanitize_str db text)
    = concat (map (filter is_arabic) (filtered_lines db text)).
Proof.
  intros db text.
  rewrite <- filter_arabic_join, <- (filter_arabic_strip (join nl _)).
  fold (cleaned db text).
  destruct (existsb is_arabic (cleaned db text)) eqn:E.
  - destruct (sanitize_str_runs db text E)
      as (pre & run & post & Ec & Hpre & Hpost & _ & _ & _ & Hr).
    rewrite Hr, Ec, !filter_app.
    now rewrite (filter_no_arabic pre Hpre), (filter_no_arabic post Hpost),
      app_nil_r.
  - now rewrite (sanitize_str_no_runs db text E).
Qed.

(** X12. The Gradio client never returns the empty string, whatever the
    backend did; hence every result a Gradio job stores is non-empty. *)
Theorem gradio_results_never_empty :
  (forall w st o, result_for Gradio w st o <> [])
  /\ (forall w j st0 s,
        reachable Gradio w j st0 s ->
        Forall (fun tr => tr <> []) (translated_chunks (state s))).
Proof.
  assert (H : forall w st o, result_for Gradio w st o <> []).
  { intros w st o. cbn. destruct o as [m|m|rc out err]; cbn; try discriminate.
    destruct (negb (rc =? 0)); [discriminate|].
    destruct (strip out) as [|c r]; [discriminate|].
    destruct (filter_thoughts (opts st)); [|discriminate].
    destruct (sanitize_output_str (db w) (c :: r)); discriminate. }
  split; [exact H|].
  intros w j st0 s Hr.
  assert (Hp : forall cs log trs,
             processed Gradio w j cs log trs -> Forall (fun tr => tr <> []) trs).
  { induction 1; [constructor|].
    apply Forall_app. split; [assumption|]. constructor; [apply H|constructor]. }
  destruct (reachable_inv Gradio w j st0 s Hr) as (_ & _ & _ & _ & Hpc).
  unfold pc_inv in Hpc.
  destruct (worker s); try (eapply Hp; apply Hpc).
  - destruct Hpc as (Hk & _). apply length_zero_nil in Hk. rewrite Hk. constructor.
  - destruct Hpc as (_ & _ & _ & Hd). apply Hp in Hd.
    apply Forall_app in Hd. tauto.
Qed.

Lemma gradio_results_never_empty_witness :
  Forall (fun tr => tr <> [])
    (translated_chunks (state (after Gradio demo_world job_2500 (repeat Work 12)))).
Proof.
  destruct gradio_results_never_empty as [_ H].
  apply (H demo_world job_2500 fresh_state).
  apply after_reachable. vm_compute. discriminate.
Defined.

(* ====================================================================== *)
(** * The document writer ([write_docx]) *)
(* ====================================================================== *)

(** [s.split('\n')]: the pieces between the line feeds, empty pieces
    included; there is always at least one piece. *)
Fixpoint split_nl (s : str) : list str :=
  match s with
  | [] => [[]]
  | c :: r =>
      if c =? 10 then [] :: split_nl r
      else
        match split_nl r with
        | p :: ps => (c :: p) :: ps
        | [] => [[c]]
        end
  end.

Inductive WD_ALIGN_PARAGRAPH := LEFT | CENTER | RIGHT | JUSTIFY.

(** [align_map.get(alignment, default)] *)
Definition align_map_get (alignment : str) (default : WD_ALIGN_PARAGRAPH)
  : WD_ALIGN_PARAGRAPH :=
  if str_eqb alignment (lit "left") then LEFT
  else if str_eqb alignment (lit "center") then CENTER
  else if str_eqb alignment (lit "right") then RIGHT
  else if str_eqb alignment (lit "justify") then JUSTIFY
  else default.

(** [not para_text.strip()] *)
Definition is_blank (s : str) : bool :=
  match strip s with [] => true | _ => false end.

(** What python-docx does is not code of this repository.
    [lib_paragraph text alignment rtl]: one round of the loop after the
    test for a blank piece, that is [doc.add_paragraph(text)], the
    assignment of the alignment, of [right_to_left] when [rtl], and of the
    font of each run; [None] when every call returns, the exception when
    one raises (python-docx refuses control characters).
    [lib_save path]: [doc.save(path)]. *)
Record docx_lib := {
  lib_paragraph : str -> WD_ALIGN_PARAGRAPH -> bool -> option exn;
  lib_save : str -> option exn
}.

(** The loop: the texts passed to [add_paragraph] in rounds that returned,
    in order, and the exception that ended the loop, if any. *)
Fixpoint add_paragraphs (lib : docx_lib) (alignment_enum : WD_ALIGN_PARAGRAPH)
    (rtl : bool) (pieces : list str) : list str * option exn :=
  match pieces with
  | [] => ([], None)
  | para_text :: rest =>
      match lib_paragraph lib para_text alignment_enum rtl with
      | Some e => ([], Some e)
      | None =>
          let (added, r) := add_paragraphs lib alignment_enum rtl rest in
          (para_text :: added, r)
      end
  end.

(** The pieces of the text that get a paragraph: Flask skips the blank
    ones. *)
Definition para_texts (fe : frontend) (text : str) : list str :=
  match fe with
  | Flask => filter (fun p => negb (is_blank p)) (split_nl text)
  | Gradio => split_nl text
  end.

Inductive docx_result :=
| Saved (added : list str)                 (* the document is on disk *)
| NotSaved (added : list str) (e : exn).   (* [write_docx] has raised *)

(** [write_docx(file_path, text, direction, alignment)] *)
Definition write_docx_run (fe : frontend) (lib : docx_lib)
    (file_path text direction alignment : str) : docx_result :=
  let alignment_enum :=
    align_map_get alignment
      (match fe with Flask => RIGHT | Gradio => LEFT end) in
  let rtl := str_eqb direction (lit "rtl") in
  match add_paragraphs lib alignment_enum rtl (para_texts fe text) with
  | (added, Some e) => NotSaved added e
  | (added, None) =>
      match lib_save lib file_path with
      | Some e => NotSaved added e
      | None => Saved added
      end
  end.

Lemma split_nl_nonempty (s : str) : split_nl s <> [].
Proof.
  induction s as [|c r IH]; simpl; [discriminate|].
  destruct (c =? 10); [discriminate|].
  destruct (split_nl r); discriminate.
Qed.

Lemma join_cons_head (sep : str) (c : Z) (p : str) (ps : list str) :
  join sep ((c :: p) :: ps) = c :: join sep (p :: ps).
Proof. destruct ps; reflexivity. Qed.

(** ["\n".join(s.split("\n")) == s] *)
Lemma join_split_nl (s : str) : join nl (split_nl s) = s.
Proof.
  induction s as [|c r IH]; [reflexivity|]. simpl.
  pose proof (split_nl_nonempty r) as Hne.
  destruct (Z.eqb_spec c 10) as [->|Hc].
  - destruct (split_nl r) as [|p ps]; [congruence|].
    change (join nl ([] :: p :: ps)) with (nl ++ join nl (p :: ps)).
    now rewrite IH.
  - destruct (split_nl r) as [|p ps]; [congruence|].
    now rewrite join_cons_head, IH.
Qed.

Lemma split_nl_length (s : str) :
  length (split_nl s) = S (count_occ Z.eq_dec s 10).
Proof.
  induction s as [|c r IH]; [reflexivity|]. simpl.
  pose proof (split_nl_nonempty r) as Hne.
  destruct (Z.eqb_spec c 10) as [->|Hc].
  - destruct (Z.eq_dec 10 10); [|congruence]. simpl. now rewrite IH.
  - destruct (Z.eq_dec c 10); [congruence|].
    destruct (split_nl r) as [|p ps]; [congruence|exact IH].
Qed.

Lemma split_nl_no_newline (s : str) :
  Forall (fun p => ~ In 10 p) (split_nl s).
Proof.
  induction s as [|c r IH]; simpl.
  - constructor; [intros []|constructor].
  - destruct (Z.eqb_spec c 10) as [->|Hc].
    + constructor; [intros []|exact IH].
    + destruct (split_nl r) as [|p ps].
      * constructor; [|constructor]. intros [H|[]]. congruence.
      * inversion IH; subst. constructor; [|assumption].
        intros [H|H]; [congruence|contradiction].
Qed.

(** A text without line feed is one piece. *)
Lemma split_nl_single (s : str) : ~ In 10 s -> split_nl s = [s].
Proof.
  induction s as [|c r IH]; [reflexivity|]. intros H. simpl.
  destruct (Z.eqb_spec c 10) as [->|Hc]; [exfalso; apply H; now left|].
  rewrite IH; [reflexivity|]. intros Hin. apply H. now right.
Qed.

Lemma split_nl_app (a b : str) :
  split_nl (a ++ 10 :: b) = split_nl a ++ split_nl b.
Proof.
  induction a as [|c r IH]; cbn [app split_nl].
  - reflexivity.
  - destruct (c =? 10); [now rewrite IH|].
    rewrite IH. pose proof (split_nl_nonempty r).
    destruct (split_nl r); [congruence|reflexivity].
Qed.

(** The pieces of joined texts are the pieces of the texts. *)
Lemma split_nl_join (cs : list str) :
  cs <> [] -> split_nl (join nl cs) = concat (map split_nl cs).
Proof.
  induction cs as [|c cs IH]; [congruence|]. intros _.
  destruct cs as [|c' cs].
  - cbn. now rewrite app_nil_r.
  - change (join nl (c :: c' :: cs)) with (c ++ nl ++ join nl (c' :: cs)).
    change (c ++ nl ++ join nl (c' :: cs))
      with (c ++ 10 :: join nl (c' :: cs)).
    rewrite split_nl_app, IH by discriminate. reflexivity.
Qed.

(** The loop takes the pieces in order and stops at the first round that
    raises. *)
Lemma add_paragraphs_spec (lib : docx_lib) (a : WD_ALIGN_PARAGRAPH)
    (rtl : bool) (pieces : list str) :
  match add_paragraphs lib a rtl pieces with
  | (added, None) =>
      added = pieces
      /\ Forall (fun p => lib_paragraph lib p a rtl = None) pieces
  | (added, Some e) =>
      exists p rest,
        pieces = added ++ p :: rest
        /\ Forall (fun p => lib_paragraph lib p a rtl = None) added
        /\ lib_paragraph lib p a rtl = Some e
  end.
Proof.
  induction pieces as [|p rest IH]; cbn [add_paragraphs].
  - split; [reflexivity|constructor].
  - destruct (lib_paragraph lib p a rtl) as [e|] eqn:Ep.
    + exists p, rest. repeat split; [constructor|exact Ep].
    + destruct (add_paragraphs lib a rtl rest) as [added [e|]].
      * destruct IH as (q & rest' & E & Hf & Hq).
        exists q, rest'. rewrite E. repeat split; auto.
      * destruct IH as [E Hf]. rewrite E. split; [reflexivity|].
        now constructor.
Qed.

(** X13. [write_docx] passes to [add_paragraph] the pieces of the text
    between line feeds, in order, one call each: all of them in Gradio, so
    that the texts passed, joined by line feeds, are the text and there is
    one more of them than line feeds; in Flask those that are not blank.
    No text passed holds a line feed.  The document is saved when no call
    raises, and then every piece was passed; when a call raises, the
    pieces before it were passed, the exception leaves [write_docx] and
    nothing is saved. *)
Theorem write_docx_passes_lines :
  forall fe lib file_path text direction alignment,
    (fe = Gradio ->
     join nl (para_texts fe text) = text
     /\ length (para_texts fe text) = S (count_occ Z.eq_dec text 10))
    /\ (fe = Flask ->
        para_texts fe text
        = filter (fun p => negb (is_blank p)) (split_nl text)
        /\ Forall (fun p => is_blank p = false /\ p <> []) (para_texts fe text))
    /\ Forall (fun p => ~ In 10 p) (para_texts fe text)
    /\ match write_docx_run fe lib file_path text direction alignment with
       | Saved added =>
           added = para_texts fe text /\ lib_save lib file_path = None
       | NotSaved added e =>
           (added = para_texts fe text /\ lib_save lib file_path = Some e)
           \/ (exists p rest,
                  para_texts fe text = added ++ p :: rest
                  /\ lib_paragraph lib p
                       (align_map_get alignment
                          (match fe with Flask => RIGHT | Gradio => LEFT end))
                       (str_eqb direction (lit "rtl")) = Some e)
       end.
Proof.
  intros fe lib file_path text direction alignment.
  split.
  { intros ->. cbn [para_texts].
    split; [apply join_split_nl|apply split_nl_length]. }
  split.
  { intros ->. cbn [para_texts]. split; [reflexivity|].
    apply Forall_forall. intros p Hp. apply filter_In in Hp as [_ Hb].
    apply negb_true_iff in Hb. split; [exact Hb|].
    intros ->. discriminate. }
  split.
  { pose proof (split_nl_no_newline text) as Hn.
    destruct fe; cbn [para_texts]; [|exact Hn].
    apply Forall_forall. intros p Hp. apply filter_In in Hp as [Hp _].
    rewrite Forall_forall in Hn. auto. }
  unfold write_docx_run.
  match goal with
  | |- context [add_paragraphs lib ?a ?r ?ps] =>
      pose proof (add_paragraphs_spec lib a r ps) as Hs;
      destruct (add_paragraphs lib a r ps) as [added [e|]]
  end.
  - right. destruct Hs as (p & rest & E & _ & Hp). eauto.
  - destruct Hs as [E _].
    destruct (lib_save lib file_path) as [e|]; [left|]; auto.
Qed.

(** python-docx as far as the pieces go: a text with a control character
    other than the tabulation and the carriage return is refused. *)
Definition strict_lib : docx_lib := {|
  lib_paragraph := fun text _ _ =>
    if existsb (fun c => (c <? 32) && negb (c =? 9) && negb (c =? 13)) text
    then Some (Exn (lit "All strings must be XML compatible"))
    else None;
  lib_save := fun _ => None
|}.

Lemma write_docx_passes_lines_witness :
  join nl (para_texts Gradio (marhaban_bil_alam ++ nl ++ nl ++ salam))
  = marhaban_bil_alam ++ nl ++ nl ++ salam
  /\ para_texts Gradio (marhaban_bil_alam ++ nl ++ nl ++ salam)
     = [marhaban_bil_alam; []; salam]
  /\ para_texts Flask (marhaban_bil_alam ++ nl ++ nl ++ salam)
     = [marhaban_bil_alam; salam].
Proof.
  destruct (write_docx_passes_lines Gradio strict_lib (lit "out.docx")
              (marhaban_bil_alam ++ nl ++ nl ++ salam) (lit "rtl")
              (lit "right")) as (H & _).
  destruct (H eq_refl) as [H1 _].
  split; [exact H1|]. split; vm_compute; reflexivity.
Defined.

(** X14. The document written for a list of results, joined by line feeds
    as the worker and the export do.  When [write_docx] saves it, the
    texts it has passed to [add_paragraph] are, in Gradio, the lines of
    the results, in order, and the results themselves when none holds a
    line feed; in Flask, the non-blank ones among them.  With no result at
    all Gradio passes one empty text and Flask none. *)
Theorem write_docx_of_results :
  forall fe lib file_path cs direction alignment added,
    write_docx_run fe lib file_path (join nl cs) direction alignment
    = Saved added ->
    (cs <> [] ->
     added = match fe with
             | Flask =>
                 filter (fun p => negb (is_blank p)) (concat (map split_nl cs))
             | Gradio => concat (map split_nl cs)
             end
     /\ (Forall (fun c => ~ In 10 c) cs ->
         added = match fe with
                 | Flask => filter (fun p => negb (is_blank p)) cs
                 | Gradio => cs
                 end))
    /\ (cs = [] ->
        added = match fe with Flask => [] | Gradio => [[]] end).
Proof.
  intros fe lib file_path cs direction alignment added Hrun.
  assert (Hadded : added = para_texts fe (join nl cs)).
  { unfold write_docx_run in Hrun.
    match type of Hrun with
    | context [add_paragraphs lib ?a ?r ?ps] =>
        pose proof (add_paragraphs_spec lib a r ps) as Hs;
        destruct (add_paragraphs lib a r ps) as [added' [e|]]
    end; [discriminate|].
    destruct Hs as [E _].
    destruct (lib_save lib file_path); [discriminate|].
    inversion Hrun; subst. reflexivity. }
  assert (Hs : forall cs', Forall (fun c => ~ In 10 c) cs' ->
                           concat (map split_nl cs') = cs').
  { induction cs' as [|c cs' IH]; intros Hf; [reflexivity|].
    inversion Hf; subst. cbn. rewrite split_nl_single by assumption.
    cbn. f_equal. now apply IH. }
  split.
  - intros Hne. subst added. unfold para_texts.
    rewrite split_nl_join by exact Hne.
    split; [now destruct fe|]. intros Hf. rewrite (Hs cs Hf). now destruct fe.
  - intros ->. subst added. now destruct fe.
Qed.

Lemma write_docx_of_results_witness :
  write_docx_run Flask strict_lib (lit "out.docx")
    (join nl [marhaban_bil_alam; lit "  "; salam]) (lit "rtl") (lit "right")
  = Saved [marhaban_bil_alam; salam]
  /\ write_docx_run Gradio strict_lib (lit "out.docx")
       (join nl [marhaban_bil_alam; lit "  "; salam]) (lit "rtl")
       (lit "right")
     = Saved [marhaban_bil_alam; lit "  "; salam]
  /\ write_docx_run Gradio strict_lib (lit "out.docx")
       (join nl [marhaban_bil_alam; [7]; salam]) (lit "rtl") (lit "right")
     = NotSaved [marhaban_bil_alam]
         (Exn (lit "All strings must be XML compatible")).
Proof.
  destruct (write_docx_of_results Flask strict_lib (lit "out.docx")
              [marhaban_bil_alam; lit "  "; salam] (lit "rtl") (lit "right")
              [marhaban_bil_alam; salam]) as [H _].
  - vm_compute. reflexivity.
  - destruct (H ltac:(discriminate)) as [_ H2].
    split; [vm_compute; reflexivity|].
    split; vm_compute; reflexivity.
Defined.

(* ====================================================================== *)
(** * The list of installed models ([list_llms], Gradio) *)
(* ====================================================================== *)

(** [s.split()]: the maximal runs of code points that are not
    whitespace. *)
Fixpoint split_ws (s : str) : list str :=
  match s with
  | [] => []
  | c :: r =>
      if is_space c then split_ws r
      else
        match r with
        | [] => [[c]]
        | d :: _ =>
            if is_space d then [c] :: split_ws r
            else
              match split_ws r with
              | w :: ws => (c :: w) :: ws
              | [] => [[c]]
              end
        end
  end.

(** [line.strip() and not line.startswith("NAME")] *)
Definition listed (line : str) : bool :=
  negb (is_blank line) && negb (is_prefix (lit "NAME") line).

(** The list comprehension; [line.split()[0]] raises IndexError on an
    empty list. *)
Fixpoint model_names (lines : list str) : result (list str) :=
  match lines with
  | [] => Ok []
  | line :: rest =>
      if listed line then
        match split_ws line with
        | [] => Raise (Exn (lit "list index out of range"))
        | name :: _ =>
            match model_names rest with
            | Ok models => Ok (name :: models)
            | Raise e => Raise e
            end
        end
      else model_names rest
  end.

Definition default_models : list str := [lit "command-r7b-arabiclatest"].

(** [list_llms()], given what [subprocess.run(["ollama", "list"], ...)]
    does; the return code is not looked at. *)
Definition list_llms (o : outcome) : list str :=
  match o with
  | Completed _ stdout _ =>
      match model_names (splitlines stdout) with
      | Ok [] => default_models
      | Ok models => models
      | Raise _ => default_models
      end
  | TimeoutExpired _ | Raised _ => default_models
  end.

Definition nonspace (c : Z) : bool := negb (is_space c).

Lemma split_ws_words (s : str) :
  Forall (fun w => w <> [] /\ forallb nonspace w = true) (split_ws s).
Proof.
  induction s as [|c r IH]; [constructor|].
  cbn [split_ws]. destruct (is_space c) eqn:Hc; [exact IH|].
  assert (Hn : nonspace c = true) by (unfold nonspace; now rewrite Hc).
  destruct r as [|d r'].
  - constructor; [|constructor]. split; [discriminate|]. cbn. now rewrite Hn.
  - destruct (is_space d) eqn:Hd.
    + constructor; [|exact IH]. split; [discriminate|]. cbn. now rewrite Hn.
    + destruct (split_ws (d :: r')) as [|w ws].
      * constructor; [|constructor]. split; [discriminate|]. cbn.
        now rewrite Hn.
      * inversion IH as [|? ? [_ Hw] Hws]; subst.
        constructor; [|exact Hws]. split; [discriminate|]. cbn.
        now rewrite Hn, Hw.
Qed.

Lemma split_ws_nil (s : str) : split_ws s = [] -> lstrip s = [].
Proof.
  induction s as [|c r IH]; [reflexivity|].
  cbn [split_ws lstrip]. destruct (is_space c); [exact IH|].
  destruct r as [|d r']; [discriminate|].
  destruct (is_space d); [discriminate|].
  destruct (split_ws (d :: r')); discriminate.
Qed.

(** A line that is not blank has a first word. *)
Lemma split_ws_not_blank (s : str) :
  is_blank s = false -> split_ws s <> [].
Proof.
  intros Hb Hs. apply split_ws_nil in Hs.
  unfold is_blank, strip in Hb. rewrite Hs in Hb. discriminate.
Qed.

(** The first word is what precedes the first whitespace after the
    leading whitespace. *)
Lemma split_ws_hd (s : str) :
  hd [] (split_ws s) = fst (span nonspace (lstrip s)).
Proof.
  induction s as [|c r IH]; [reflexivity|].
  cbn [split_ws lstrip]. destruct (is_space c) eqn:Hc; [exact IH|].
  cbn [span]. unfold nonspace at 1. rewrite Hc. cbn [negb].
  destruct (span nonspace r) as [a q] eqn:Hsp. cbn [fst hd].
  destruct r as [|d r'].
  - cbn in Hsp. inversion Hsp. reflexivity.
  - cbn [lstrip] in IH. destruct (is_space d) eqn:Hd.
    + cbn in Hsp. unfold nonspace in Hsp. rewrite Hd in Hsp. cbn in Hsp.
      inversion Hsp. reflexivity.
    + rewrite Hsp in IH. cbn [fst] in IH.
      destruct (split_ws (d :: r')) as [|w ws]; cbn [hd] in *.
      * now rewrite <- IH.
      * now rewrite IH.
Qed.

Lemma model_names_ok (lines : list str) :
  model_names lines
  = Ok (map (fun line => hd [] (split_ws line)) (filter listed lines)).
Proof.
  induction lines as [|line rest IH]; [reflexivity|].
  cbn [model_names filter]. destruct (listed line) eqn:Hl; [|exact IH].
  pose proof (split_ws_not_blank line) as Hne.
  unfold listed in Hl. apply andb_true_iff in Hl as [Hb _].
  apply negb_true_iff in Hb. specialize (Hne Hb).
  cbn [map]. destruct (split_ws line) as [|name ws]; [congruence|].
  rewrite IH. reflexivity.
Qed.

(** X15. [list_llms] never returns an empty list, and every name it
    returns is non-empty and free of whitespace.  When the command
    completes, whatever its return code, the names are the first words of
    the output lines that are not blank and do not start with NAME, in
    order (indexing the split line never fails); when there is no such
    line, or the command cannot be run, the one default name is
    returned. *)
Theorem list_llms_names :
  forall o,
    list_llms o <> []
    /\ Forall (fun m => m <> [] /\ forallb nonspace m = true) (list_llms o)
    /\ (forall rc out err,
          o = Completed rc out err ->
          let names :=
            map (fun line => fst (span nonspace (lstrip line)))
              (filter listed (splitlines out)) in
          list_llms o = match names with [] => default_models | _ => names end)
    /\ (forall msg, o = Raised msg -> list_llms o = default_models).
Proof.
  intros o.
  assert (Hd : Forall (fun m => m <> [] /\ forallb nonspace m = true)
                 default_models).
  { constructor; [|constructor]. split; [discriminate|]. vm_compute.
    reflexivity. }
  assert (Hw : forall lines,
             Forall (fun m => m <> [] /\ forallb nonspace m = true)
               (map (fun line => hd [] (split_ws line))
                  (filter listed lines))).
  { intros lines. apply Forall_map, Forall_forall. intros line Hin.
    apply filter_In in Hin as [_ Hl].
    unfold listed in Hl. apply andb_true_iff in Hl as [Hb _].
    apply negb_true_iff in Hb. apply split_ws_not_blank in Hb.
    pose proof (split_ws_words line) as Hf.
    destruct (split_ws line) as [|name ws]; [congruence|].
    inversion Hf; subst. assumption. }
  destruct o as [msg|msg|rc out err]; cbn [list_llms].
  - repeat split; try discriminate; try exact Hd.
  - repeat split; try discriminate; try exact Hd.
  - rewrite model_names_ok. specialize (Hw (splitlines out)).
    split; [|split; [|split]].
    + destruct (map _ _); discriminate.
    + destruct (map _ _) eqn:E; [exact Hd|exact Hw].
    + intros rc' out' err' Heq. inversion Heq; subst. cbn zeta.
      rewrite (map_ext (fun line => fst (span nonspace (lstrip line)))
                 (fun line => hd [] (split_ws line)))
        by (intros; symmetry; apply split_ws_hd).
      destruct (map _ _); reflexivity.
    + discriminate.
Qed.

Definition ollama_list_output : str :=
  lit "NAME ID SIZE" ++ nl ++ lit "qwen2:7b  abc  4 GB" ++ nl
  ++ lit "   " ++ nl ++ lit " llama3 def 5 GB" ++ nl.

Lemma list_llms_names_witness :
  list_llms (Completed 1 ollama_list_output [])
  = [lit "qwen2:7b"; lit "llama3"].
Proof.
  destruct (list_llms_names (Completed 1 ollama_list_output []))
    as (_ & _ & H & _).
  rewrite (H 1 ollama_list_output [] eq_refl). vm_compute. reflexivity.
Defined.

(* ====================================================================== *)
(** * Reading the document ([read_text_from_file]) *)
(* ====================================================================== *)

(** [[^>]] *)
Definition not_gt (c : Z) : bool := negb (c =? 62).

(** A match of [<[^>]+>] at the start of [s], and what follows it.  The
    class is matched greedily; giving code points back cannot help, since
    the code point after a shorter run is not [>]. *)
Definition tag_at (s : str) : option str :=
  match s with
  | c :: r =>
      if c =? 60 then
        match span not_gt r with
        | (_ :: _, d :: q) => if d =? 62 then Some q else None
        | _ => None
        end
      else None
  | [] => None
  end.

(** [re.sub(r'<[^>]+>', '', s)]: the matches are looked for from left to
    right, each search starting where the previous match ended. *)
Fixpoint sub_tags (fuel : nat) (s : str) : str :=
  match fuel with
  | O => []
  | S fuel' =>
      match s with
      | [] => []
      | c :: r =>
          match tag_at s with
          | Some q => sub_tags fuel' q
          | None => c :: sub_tags fuel' r
          end
      end
  end.

Definition strip_tags (s : str) : str := sub_tags (length s) s.

(** [re.search(r'<[^>]+>', s) is None] *)
Fixpoint tag_free (s : str) : bool :=
  match s with
  | [] => true
  | c :: r =>
      match tag_at (c :: r) with
      | Some _ => false
      | None => tag_free r
      end
  end.

(** What the libraries and the file system do for one path.
    [splitext_ext]: [os.path.splitext(file_path)[1]];
    [docx_text]: [read_docx(file_path)];
    [file_text]: opening the file as text and reading it;
    [bs4_text]: [None] when bs4 cannot be imported, else opening the file
    and taking the text of the parsed page;
    [fitz_text], [pdfminer_text], [epub_text]: the whole of the
    corresponding [try] body. *)
Record reader := {
  splitext_ext : str;
  docx_text : result str;
  file_text : result str;
  bs4_text : option (result str);
  fitz_text : result str;
  pdfminer_text : result str;
  epub_text : result str
}.

(** The fallback of the HTML branch. *)
Definition tags_stripped (rd : reader) : result str :=
  match file_text rd with
  | Ok content => Ok (strip_tags content)
  | Raise e => Raise e
  end.

Definition or_empty (r : result str) : result str :=
  match r with
  | Ok text => Ok text
  | Raise _ => Ok []
  end.

Definition read_text_from_file (fe : frontend) (d : unicode_db) (rd : reader)
  : result str :=
  let ext := str_lower d (splitext_ext rd) in
  if str_eqb ext (lit ".docx") then docx_text rd
  else if str_eqb ext (lit ".txt") then file_text rd
  else if str_eqb ext (lit ".html") || str_eqb ext (lit ".htm") then
    match fe with
    | Flask =>
        match bs4_text rd with
        | Some (Ok text) => Ok text
        | Some (Raise _) | None => tags_stripped rd
        end
    | Gradio =>
        match bs4_text rd with
        | None => tags_stripped rd
        | Some r => r
        end
    end
  else if str_eqb ext (lit ".pdf") then
    match fe with
    | Flask => or_empty (fitz_text rd)
    | Gradio =>
        match fitz_text rd with
        | Ok text => Ok text
        | Raise _ => or_empty (pdfminer_text rd)
        end
    end
  else if str_eqb ext (lit ".epub") then or_empty (epub_text rd)
  else or_empty (file_text rd).

Lemma span_all (p : Z -> bool) (s : str) :
  forallb p s = true -> span p s = (s, []).
Proof.
  induction s as [|c s IH]; [reflexivity|]. cbn. intros H.
  apply andb_true_iff in H as [Hc Hs]. now rewrite Hc, IH.
Qed.

Lemma span_app_stop (p : Z -> bool) (t : str) (d : Z) (b : str) :
  forallb p t = true -> p d = false -> span p (t ++ d :: b) = (t, d :: b).
Proof.
  intros Ht Hd. induction t as [|c t IH]; cbn.
  - now rewrite Hd.
  - cbn in Ht. apply andb_true_iff in Ht as [Hc Ht]. now rewrite Hc, IH.
Qed.

(** What a match is. *)
Lemma tag_at_some (s q : str) :
  tag_at s = Some q <->
  exists t, t <> [] /\ forallb not_gt t = true /\ s = 60 :: t ++ 62 :: q.
Proof.
  split.
  - destruct s as [|c r]; [discriminate|]. cbn [tag_at].
    destruct (Z.eqb_spec c 60) as [->|]; [|discriminate].
    destruct (span not_gt r) as [a q'] eqn:Hsp.
    destruct (span_spec _ _ _ _ Hsp) as (Hr & Ha & _).
    destruct a as [|x a]; [discriminate|].
    destruct q' as [|d q'']; [discriminate|].
    destruct (Z.eqb_spec d 62) as [->|]; [|discriminate].
    intros H. inversion H; subst. exists (x :: a).
    split; [discriminate|]. split; [exact Ha|reflexivity].
  - intros (t & Hne & Ht & ->). cbn [tag_at]. rewrite Z.eqb_refl.
    rewrite (span_app_stop not_gt t 62 q Ht eq_refl).
    destruct t; [congruence|reflexivity].
Qed.

(** When there is no match at a [<]. *)
Lemma tag_at_none (r : str) :
  tag_at (60 :: r) = None ->
  r = [] \/ (exists r', r = 62 :: r') \/ forallb not_gt r = true.
Proof.
  cbn [tag_at]. rewrite Z.eqb_refl.
  destruct (span not_gt r) as [a q] eqn:Hsp.
  destruct (span_spec _ _ _ _ Hsp) as (Hr & Ha & Hq).
  destruct a as [|x a].
  - intros _. cbn in Hr. subst q. destruct r as [|d r']; [now left|].
    right; left. unfold not_gt in Hq. apply negb_false_iff in Hq.
    apply Z.eqb_eq in Hq. subst. eauto.
  - destruct q as [|d q'].
    + intros _. right; right. rewrite app_nil_r in Hr. now subst.
    + unfold not_gt in Hq. apply negb_false_iff in Hq. rewrite Hq.
      discriminate.
Qed.

Lemma tag_at_shorter (s q : str) :
  tag_at s = Some q -> (length q < length s)%nat.
Proof.
  intros H. apply tag_at_some in H as (t & _ & _ & ->).
  cbn. rewrite length_app. cbn. lia.
Qed.

Lemma sub_tags_fuel :
  forall f f' s,
    (length s <= f)%nat -> (length s <= f')%nat ->
    sub_tags f s = sub_tags f' s.
Proof.
  induction f as [|f IH]; intros f' s Hf Hf'.
  - destruct s; [|cbn in Hf; lia]. destruct f'; reflexivity.
  - destruct s as [|c r]; [destruct f'; reflexivity|].
    destruct f' as [|f']; [cbn in Hf'; lia|].
    cbn [sub_tags]. destruct (tag_at (c :: r)) as [q|] eqn:Ht.
    + apply tag_at_shorter in Ht. cbn in *. apply IH; lia.
    + f_equal. cbn in *. apply IH; lia.
Qed.

Lemma strip_tags_nil : strip_tags [] = [].
Proof. reflexivity. Qed.

Lemma strip_tags_keep (c : Z) (r : str) :
  tag_at (c :: r) = None -> strip_tags (c :: r) = c :: strip_tags r.
Proof. intros H. unfold strip_tags. cbn [length sub_tags]. now rewrite H. Qed.

Lemma strip_tags_drop (s q : str) :
  tag_at s = Some q -> strip_tags s = strip_tags q.
Proof.
  intros H. pose proof (tag_at_shorter _ _ H) as Hl. unfold strip_tags.
  destruct s as [|c r]; [discriminate|]. cbn [length sub_tags]. rewrite H.
  cbn in Hl. apply sub_tags_fuel; lia.
Qed.

(** Induction along the scan of [re.sub]. *)
Lemma strip_tags_ind (P : str -> Prop) :
  P [] ->
  (forall c r, tag_at (c :: r) = None -> P r -> P (c :: r)) ->
  (forall s q, tag_at s = Some q -> P q -> P s) ->
  forall s, P s.
Proof.
  intros Hnil Hkeep Hdrop s.
  assert (H : forall n s, (length s <= n)%nat -> P s).
  { induction n as [|n IH]; intros s' Hl.
    - destruct s'; [exact Hnil|cbn in Hl; lia].
    - destruct s' as [|c r]; [exact Hnil|].
      destruct (tag_at (c :: r)) as [q|] eqn:Ht.
      + apply (Hdrop _ q Ht). apply IH.
        apply tag_at_shorter in Ht. cbn in *. lia.
      + apply Hkeep; [exact Ht|]. apply IH. cbn in Hl. lia. }
  apply (H (length s)). lia.
Qed.

(** Nothing is added: what is left was there. *)
Lemma strip_tags_In (x : Z) (s : str) : In x (strip_tags s) -> In x s.
Proof.
  induction s as [|c r Ht IH|s q Ht IH] using strip_tags_ind.
  - exact (fun H => H).
  - rewrite (strip_tags_keep _ _ Ht). intros [H|H]; [now left|right; auto].
  - rewrite (strip_tags_drop _ _ Ht). intros H. apply IH in H.
    apply tag_at_some in Ht as (t & _ & _ & ->).
    right. apply in_or_app. right. now right.
Qed.

Lemma strip_tags_length (s : str) : (length (strip_tags s) <= length s)%nat.
Proof.
  induction s as [|c r Ht IH|s q Ht IH] using strip_tags_ind.
  - cbn. lia.
  - rewrite (strip_tags_keep _ _ Ht). cbn. lia.
  - rewrite (strip_tags_drop _ _ Ht). apply tag_at_shorter in Ht. lia.
Qed.

Lemma tag_at_not_lt (c : Z) (r : str) : c <> 60 -> tag_at (c :: r) = None.
Proof.
  intros H. cbn [tag_at]. destruct (Z.eqb_spec c 60); [congruence|reflexivity].
Qed.

(** A code point that is kept still starts no match afterwards. *)
Lemma tag_at_keep (c : Z) (r : str) :
  tag_at (c :: r) = None -> tag_at (c :: strip_tags r) = None.
Proof.
  intros H. destruct (Z.eq_dec c 60) as [->|Hc]; [|now apply tag_at_not_lt].
  destruct (tag_at_none r H) as [->|[[r' ->]|Hall]].
  - reflexivity.
  - rewrite strip_tags_keep by (now apply tag_at_not_lt). reflexivity.
  - cbn [tag_at]. rewrite Z.eqb_refl.
    assert (Hall' : forallb not_gt (strip_tags r) = true).
    { apply forallb_forall. intros x Hx. apply strip_tags_In in Hx.
      rewrite forallb_forall in Hall. now apply Hall. }
    rewrite (span_all _ _ Hall'). destruct (strip_tags r); reflexivity.
Qed.

Lemma strip_tags_tag_free (s : str) : tag_free (strip_tags s) = true.
Proof.
  induction s as [|c r Ht IH|s q Ht IH] using strip_tags_ind.
  - reflexivity.
  - rewrite (strip_tags_keep _ _ Ht). cbn [tag_free].
    now rewrite (tag_at_keep _ _ Ht).
  - now rewrite (strip_tags_drop _ _ Ht).
Qed.

Lemma tag_free_unchanged (s : str) : tag_free s = true -> strip_tags s = s.
Proof.
  induction s as [|c r IH]; [reflexivity|]. cbn [tag_free].
  destruct (tag_at (c :: r)) eqn:Ht; [discriminate|]. intros H.
  rewrite (strip_tags_keep _ _ Ht). f_equal. now apply IH.
Qed.

(** X16. [re.sub(r'<[^>]+>', '', s)], the fallback of the HTML branch:
    the result holds no match of the pattern, so that a second pass
    changes nothing; a text without match is returned as it is; and a tag
    [<t>], [t] not empty and without [>], after a prefix without [<] is
    removed, the rest being treated in the same way.  The empty tag [<>]
    is kept. *)
Theorem strip_tags_removes_all_tags :
  (forall s, tag_free (strip_tags s) = true)
  /\ (forall s, strip_tags (strip_tags s) = strip_tags s)
  /\ (forall s, tag_free s = true -> strip_tags s = s)
  /\ (forall a t b,
        ~ In 60 a -> t <> [] -> ~ In 62 t ->
        strip_tags (a ++ 60 :: t ++ 62 :: b) = a ++ strip_tags b)
  /\ (forall b, strip_tags (60 :: 62 :: b) = 60 :: 62 :: strip_tags b).
Proof.
  split; [exact strip_tags_tag_free|].
  split; [intros s; apply tag_free_unchanged, strip_tags_tag_free|].
  split; [exact tag_free_unchanged|].
  split.
  - intros a t b Ha Hne Ht. induction a as [|c a IH].
    + cbn [app]. apply strip_tags_drop, tag_at_some. exists t.
      split; [exact Hne|]. split; [|reflexivity].
      apply forallb_forall. intros x Hx. unfold not_gt.
      destruct (Z.eqb_spec x 62) as [->|]; [contradiction|reflexivity].
    + cbn [app]. rewrite strip_tags_keep.
      * f_equal. apply IH. intros H. apply Ha. now right.
      * apply tag_at_not_lt. intros ->. apply Ha. now left.
  - intros b. rewrite strip_tags_keep by reflexivity.
    rewrite strip_tags_keep by (now apply tag_at_not_lt). reflexivity.
Qed.

Lemma strip_tags_removes_all_tags_witness :
  strip_tags (lit "ab<p class=x>cd")
  = lit "ab" ++ strip_tags (lit "cd")
  /\ strip_tags (lit "a < b") = lit "a < b".
Proof.
  destruct strip_tags_removes_all_tags as (_ & _ & H3 & H4 & _). split.
  - apply (H4 (lit "ab") (lit "p class=x") (lit "cd")).
    + vm_compute. intuition discriminate.
    + discriminate.
    + vm_compute. intuition discriminate.
  - apply H3. vm_compute. reflexivity.
Defined.

Definition failed (r : result str) : Prop := exists e, r = Raise e.

Definition is_html (ext : str) : Prop :=
  ext = lit ".html" \/ ext = lit ".htm".

(** X17. Where [read_text_from_file] can raise.  An exception leaves the
    function only from reading a .docx, from opening a .txt, from opening
    an HTML file in the fallback that strips the tags, and, in Gradio
    alone, from opening or parsing an HTML file with bs4.  For every other
    extension (compared in lower case) a text is returned, the empty one
    when nothing could be read; in Flask an HTML file that can be opened
    always gives a text; and without bs4 an HTML file gives its content
    with the tags removed. *)
Theorem read_text_from_file_failures :
  forall fe d rd,
    let ext := str_lower d (splitext_ext rd) in
    (forall e,
        read_text_from_file fe d rd = Raise e ->
        (ext = lit ".docx" /\ docx_text rd = Raise e)
        \/ (ext = lit ".txt" /\ file_text rd = Raise e)
        \/ (is_html ext /\ file_text rd = Raise e
            /\ (bs4_text rd = None
                \/ fe = Flask /\ exists e', bs4_text rd = Some (Raise e')))
        \/ (is_html ext /\ fe = Gradio /\ bs4_text rd = Some (Raise e)))
    /\ (ext <> lit ".docx" -> ext <> lit ".txt" -> ~ is_html ext ->
        exists text,
          read_text_from_file fe d rd = Ok text
          /\ (failed (file_text rd) -> failed (fitz_text rd) ->
              failed (pdfminer_text rd) -> failed (epub_text rd) ->
              text = []))
    /\ (is_html ext -> fe = Flask ->
        forall content, file_text rd = Ok content ->
        exists text, read_text_from_file fe d rd = Ok text)
    /\ (is_html ext -> bs4_text rd = None ->
        forall content, file_text rd = Ok content ->
        read_text_from_file fe d rd = Ok (strip_tags content)
        /\ tag_free (strip_tags content) = true).
Proof.
  intros fe d rd ext.
  assert (Hdocx : lit ".html" <> lit ".docx") by discriminate.
  assert (Htxt : lit ".html" <> lit ".txt") by discriminate.
  assert (Hdocx' : lit ".htm" <> lit ".docx") by discriminate.
  assert (Htxt' : lit ".htm" <> lit ".txt") by discriminate.
  unfold read_text_from_file. fold ext.
  destruct (str_eqb ext (lit ".docx")) eqn:E1.
  { apply str_eqb_spec in E1. split; [intros e H; left; auto|].
    split; [intros H; contradiction|].
    split; intros [H|H]; congruence. }
  destruct (str_eqb ext (lit ".txt")) eqn:E2.
  { apply str_eqb_spec in E2. split; [intros e H; right; left; auto|].
    split; [intros _ H; contradiction|].
    split; intros [H|H]; congruence. }
  destruct (str_eqb ext (lit ".html") || str_eqb ext (lit ".htm")) eqn:E3.
  { assert (Hh : is_html ext).
    { apply orb_true_iff in E3 as [E|E]; apply str_eqb_spec in E;
        [now left|now right]. }
    unfold tags_stripped.
    split.
    { intros e H. right; right.
      destruct fe; destruct (bs4_text rd) as [[text|e']|] eqn:Eb;
        try discriminate;
        try (destruct (file_text rd) as [c|e''] eqn:Ef; [discriminate|];
             inversion H; subst; left; split; [exact Hh|]; split;
             [reflexivity|]; eauto);
        right; inversion H; subst; auto. }
    split; [intros _ _ H; contradiction|].
    split.
    { intros _ -> content Hc. rewrite Hc.
      destruct (bs4_text rd) as [[text|e']|]; eauto. }
    intros _ Hb content Hc. rewrite Hb, Hc.
    split; [destruct fe; reflexivity|apply strip_tags_tag_free]. }
  assert (Hn : ~ is_html ext).
  { apply orb_false_iff in E3 as [Ea Eb]. intros [H|H];
      apply str_eqb_spec in H; congruence. }
  assert (Hok : exists text,
             (if str_eqb ext (lit ".pdf")
              then match fe with
                   | Flask => or_empty (fitz_text rd)
                   | Gradio =>
                       match fitz_text rd with
                       | Ok t => Ok t
                       | Raise _ => or_empty (pdfminer_text rd)
                       end
                   end
              else if str_eqb ext (lit ".epub") then or_empty (epub_text rd)
                   else or_empty (file_text rd)) = Ok text
             /\ (failed (file_text rd) -> failed (fitz_text rd) ->
                 failed (pdfminer_text rd) -> failed (epub_text rd) ->
                 text = [])).
  { unfold or_empty.
    destruct (str_eqb ext (lit ".pdf")); [|destruct (str_eqb ext (lit ".epub"))];
      [destruct fe; destruct (fitz_text rd); [| |
         |destruct (pdfminer_text rd)]
      |destruct (epub_text rd)|destruct (file_text rd)];
      eexists; (split; [reflexivity|]); unfold failed;
      intros [? ?] [? ?] [? ?] [? ?]; congruence. }
  destruct Hok as (text & Hok & Hempty).
  split; [intros e H; rewrite Hok in H; discriminate|].
  split; [intros _ _ _; eauto|].
  split; intros H; contradiction.
Qed.

(** An uploaded [page.HTM] on a machine without bs4. *)
Definition reader_htm : reader := {|
  splitext_ext := lit ".HTM";
  docx_text := Raise (Exn (lit "not a docx"));
  file_text := Ok (lit "<p dir=rtl>" ++ marhaban_bil_alam ++ lit "</p>");
  bs4_text := None;
  fitz_text := Raise (Exn (lit "not a pdf"));
  pdfminer_text := Raise (Exn (lit "not a pdf"));
  epub_text := Raise (Exn (lit "not an epub"))
|}.

Lemma read_text_from_file_failures_witness :
  read_text_from_file Gradio ascii_db reader_htm = Ok marhaban_bil_alam.
Proof.
  destruct (read_text_from_file_failures Gradio ascii_db reader_htm)
    as (_ & _ & _ & H).
  destruct (H (or_intror eq_refl) eq_refl _ eq_refl) as [H1 _].
  rewrite H1. vm_compute. reflexivity.
Defined.

(* ====================================================================== *)
(** * What a job never takes back *)
(* ====================================================================== *)

Lemma feed_of_app (fe : frontend) (a b : list str) :
  feed_of fe (a ++ b) = feed_of fe a ++ feed_of fe b.
Proof. unfold feed_of. now rewrite map_app, concat_app. Qed.

(** One step appends to the results and to the backend log, or leaves
    them as they are. *)
Lemma sys_step_appends (fe : frontend) (w : world) (j : job) (l : label)
    (s s' : system) :
  inv fe w j s -> sys_step fe w j l s = Some s' ->
  (exists more,
      translated_chunks (state s') = translated_chunks (state s) ++ more)
  /\ (exists more, backend_log s' = backend_log s ++ more).
Proof.
  intros (_ & _ & _ & _ & Hpc) Hstep.
  assert (Hsame : translated_chunks (state s') = translated_chunks (state s)
                  -> backend_log s' = backend_log s ->
                  (exists more,
                      translated_chunks (state s')
                      = translated_chunks (state s) ++ more)
                  /\ (exists more, backend_log s' = backend_log s ++ more)).
  { intros -> ->. split; exists []; now rewrite app_nil_r. }
  destruct l as [|c]; cbn [sys_step] in Hstep.
  - unfold worker_step in Hstep. unfold pc_inv in Hpc.
    destruct (worker s) eqn:Epc.
    + destruct Hpc as (Hk & _). apply length_zero_nil in Hk.
      destruct (j_doc j) as [text|e].
      * destruct (locked s); [discriminate|].
        inversion Hstep; subst s'; clear Hstep.
        destruct (init_section_fields fe w j (state s)) as (_ & E2 & _).
        apply Hsame; cbn -[init_section]; [|reflexivity].
        now rewrite E2, Hk.
      * inversion Hstep; subst s'. apply Hsame; reflexivity.
    + destruct (total_chars j <=? i);
        [inversion Hstep; subst s'; apply Hsame; reflexivity|].
      destruct (locked s); [discriminate|].
      destruct (stopped (state s));
        [inversion Hstep; subst s'; apply Hsame; reflexivity|].
      destruct (paused (state s)); inversion Hstep; subst s';
        apply Hsame; reflexivity.
    + destruct (paused (state s)); inversion Hstep; subst s';
        apply Hsame; reflexivity.
    + destruct (locked s); [discriminate|].
      inversion Hstep; subst s'. apply Hsame; reflexivity.
    + rewrite translate_with_ollama_eq in Hstep.
      destruct (request_for _ _ _ _ _) as [r|e];
        inversion Hstep; subst s'; cbn.
      * split; [exists []; now rewrite app_nil_r|eauto].
      * split; exists []; now rewrite app_nil_r.
    + destruct (locked s); [discriminate|].
      inversion Hstep; subst s'.
      destruct (store_section_fields fe j i tr (state s)) as (_ & E2 & _).
      cbn -[store_section]. rewrite E2.
      split; [eauto|exists []; now rewrite app_nil_r].
    + destruct (locked s); [discriminate|].
      inversion Hstep; subst s'.
      destruct (finish_section_cases fe w j s)
        as (_ & F2 & _ & _ & _ & F6 & _).
      apply Hsame; assumption.
    + destruct (locked s); [discriminate|].
      inversion Hstep; subst s'.
      destruct (except_section_fields fe e (state s)) as (_ & E2 & _).
      apply Hsame; cbn -[except_section]; [exact E2|reflexivity].
    + discriminate.
  - unfold command_step in Hstep.
    destruct (locked s); [discriminate|].
    inversion Hstep; subst s'. apply Hsame.
    + destruct c; cbn; try reflexivity.
      * now destruct fe.
      * now destruct (snd (export fe w j (state s))) as [[p t]|].
    + destruct c; cbn; try reflexivity.
      now destruct (snd (export fe w j (state s))) as [[p t]|].
Qed.

Lemma run_appends (fe : frontend) (w : world) (j : job) (ls : list label) :
  forall s s',
    inv fe w j s -> run fe w j ls s = Some s' ->
    (exists more,
        translated_chunks (state s') = translated_chunks (state s) ++ more)
    /\ (exists more, backend_log s' = backend_log s ++ more).
Proof.
  induction ls as [|l ls IH]; intros s s' Hinv Hrun; simpl in Hrun.
  - inversion Hrun; subst. split; exists []; now rewrite app_nil_r.
  - destruct (sys_step fe w j l s) as [s1|] eqn:E; [|discriminate].
    destruct (sys_step_appends fe w j l s s1 Hinv E) as ((m1 & H1) & (n1 & G1)).
    destruct (IH s1 s' (sys_step_inv fe w j l s s1 Hinv E) Hrun)
      as ((m2 & H2) & (n2 & G2)).
    split; [exists (m1 ++ m2)|exists (n1 ++ n2)]; rewrite app_assoc; congruence.
Qed.

(** X18. A job only ever adds to what it has produced.  From any state of
    a job, whatever the worker and the controller do next, the results
    stored are kept, in place, with new ones after them; the live text is
    extended by exactly the new results; the backend log grows at its end;
    and the chunk counter does not go down. *)
Theorem results_append_only :
  forall fe w j st0 s ls s',
    reachable fe w j st0 s ->
    run fe w j ls s = Some s' ->
    (exists more,
        translated_chunks (state s') = translated_chunks (state s) ++ more
        /\ live_feed (state s') = live_feed (state s) ++ feed_of fe more
        /\ current_chunk (state s')
           = current_chunk (state s) + Z.of_nat (length more))
    /\ (exists more, backend_log s' = backend_log s ++ more).
Proof.
  intros fe w j st0 s ls s' Hr Hrun.
  pose proof (reachable_step fe w j st0 ls s s' Hr Hrun) as Hr'.
  destruct (run_appends fe w j ls s s' (reachable_inv fe w j st0 s Hr) Hrun)
    as ((more & Hmore) & Hlog).
  split; [|exact Hlog]. exists more. split; [exact Hmore|].
  destruct (reachable_inv2 fe w j st0 s Hr) as (Hf & _).
  destruct (reachable_inv2 fe w j st0 s' Hr') as (Hf' & _).
  destruct (reachable_inv fe w j st0 s Hr) as (_ & Hc & _).
  destruct (reachable_inv fe w j st0 s' Hr') as (_ & Hc' & _).
  split.
  - now rewrite Hf', Hf, Hmore, feed_of_app.
  - rewrite Hc', Hc, Hmore, length_app. lia.
Qed.

Lemma results_append_only_witness :
  translated_chunks
    (state (after Flask demo_world job_2500
              (schedule_second_in_flight ++ [Work; Cmd Pause; Work])))
  = translated_chunks
      (state (after Flask demo_world job_2500 schedule_second_in_flight))
    ++ [marhaban_bil_alam].
Proof.
  destruct (results_append_only Flask demo_world job_2500 fresh_state
              (after Flask demo_world job_2500 schedule_second_in_flight)
              [Work; Cmd Pause; Work]
              (after Flask demo_world job_2500
                 (schedule_second_in_flight ++ [Work; Cmd Pause; Work])))
    as ((more & Hmore & _) & _).
  - apply after_reachable. vm_compute. discriminate.
  - vm_compute. reflexivity.
  - rewrite Hmore. f_equal.
    apply (app_inv_head
             (translated_chunks
                (state (after Flask demo_world job_2500
                          schedule_second_in_flight)))).
    rewrite <- Hmore. vm_compute. reflexivity.
Defined.

(* ====================================================================== *)
(** * A custom prompt that cannot be formatted (Gradio) *)
(* ====================================================================== *)








(* ====================================================================== *)
(** * Jobs one after the other, and a start while a worker is alive *)
(* ====================================================================== *)

(** A worker thread: its job (the arguments it was started with), where it
    stands, the backend invocations it has made and the documents it has
    written. *)
Record thread := {
  t_job : job;
  t_pc : pc;
  t_log : list request;
  t_artifacts : list (str * str)
}.

(** The process: the one [TranslationState] with its lock, the worker
    started last and the workers started before it, the latest first.
    [start_translation] tests nothing before it resets the state and
    starts a thread, and nothing ends a thread but its own return. *)
Record pool := {
  shared : TranslationState;
  lock : bool;
  current : thread;
  earlier : list thread;
  pool_exports : list (str * str)
}.

(** The process as one worker sees it. *)
Definition view (p : pool) (t : thread) : system :=
  {| state := shared p; locked := lock p; worker := t_pc t;
     backend_log := t_log t; artifacts := t_artifacts t;
     exports := pool_exports p |}.

Definition thread_of (j : job) (s : system) : thread :=
  {| t_job := j; t_pc := worker s; t_log := backend_log s;
     t_artifacts := artifacts s |}.

Fixpoint replace_nth (k : nat) (t : thread) (ts : list thread) : list thread :=
  match ts, k with
  | [], _ => []
  | _ :: ts', O => t :: ts'
  | t' :: ts', S k' => t' :: replace_nth k' t ts'
  end.

Inductive pool_label :=
| Current (l : label)     (* the worker started last, or a command *)
| Earlier (k : nat)       (* the worker of an earlier start *)
| Start (j : job).        (* [start_translation] on a new upload *)

(** One step of the process.  A start waits for the lock, which [reset]
    takes, and is taken in one step: [reset], the options (Gradio) and the
    new thread.  The commands act on the shared state whichever worker is
    alive; the worker of an earlier start goes on with the arguments it
    was started with. *)

Definition pool_step (fe : frontend) (w : world) (l : pool_label) (p : pool)
  : option pool :=
  match l with
  | Current l =>
      let j := t_job (current p) in
      match sys_step fe w j l (view p (current p)) with
      | Some s =>
          Some {| shared := state s; lock := locked s;
                  current := thread_of j s; earlier := earlier p;
                  pool_exports := exports s |}
      | None => None
      end
  | Earlier k =>
      match nth_error (earlier p) k with
      | Some t =>
          match worker_step fe w (t_job t) (view p t) with
          | Some s =>
              Some {| shared := state s; lock := locked s;
                      current := current p;
                      earlier := replace_nth k (thread_of (t_job t) s)
                                   (earlier p);
                      pool_exports := exports s |}
          | None => None
          end
      | None => None
      end
  | Start j =>
      if lock p then None                      (* [reset] takes the lock *)
      else
        let s := start_translation fe j (shared p) in
        Some {| shared := state s; lock := locked s;
                current := thread_of j s;
                earlier := current p :: earlier p;
                pool_exports := exports s |}
  end.

Fixpoint pool_run (fe : frontend) (w : world) (ls : list pool_label)
    (p : pool) : option pool :=
  match ls with
  | [] => Some p
  | l :: ls' =>
      match pool_step fe w l p with
      | Some p' => pool_run fe w ls' p'
      | None => None
      end
  end.

(** The process after the first start. *)
Definition pool_init (fe : frontend) (j : job) (st0 : TranslationState)
  : pool :=
  let s := start_translation fe j st0 in
  {| shared := state s; lock := locked s; current := thread_of j s;
     earlier := []; pool_exports := exports s |}.

Definition returned (t : thread) : bool :=
  match t_pc t with PDone => true | _ => false end.

(** Every start of the schedule is made when the worker started before it
    has returned. *)
Fixpoint one_at_a_time (fe : frontend) (w : world) (ls : list pool_label)
    (p : pool) : bool :=
  match ls with
  | [] => true
  | l :: ls' =>
      match l with Start _ => returned (current p) | _ => true end
      && match pool_step fe w l p with
         | Some p' => one_at_a_time fe w ls' p'
         | None => true
         end
  end.

Lemma view_thread_of (p : pool) (j : job) (s : system) :
  shared p = state s -> lock p = locked s -> pool_exports p = exports s ->
  view p (thread_of j s) = s.
Proof. intros E1 E2 E3. unfold view. rewrite E1, E2, E3. now destruct s. Qed.

(** With one worker at a time the process is the current job: the workers
    of the earlier starts have returned, and what the current worker sees
    is a state of its job. *)
Lemma pool_run_one_job (fe : frontend) (w : world) (ls : list pool_label) :
  forall p p',
    forallb returned (earlier p) = true ->
    (exists st0,
        reachable fe w (t_job (current p)) st0 (view p (current p))) ->
    one_at_a_time fe w ls p = true ->
    pool_run fe w ls p = Some p' ->
    forallb returned (earlier p') = true
    /\ exists st0,
         reachable fe w (t_job (current p')) st0 (view p' (current p')).
Proof.
  induction ls as [|l ls IH]; intros p p' Hearlier Hreach Hone Hrun.
  - inversion Hrun; subst. auto.
  - cbn [pool_run] in Hrun. cbn [one_at_a_time] in Hone.
    apply andb_true_iff in Hone as [Hstart Hone].
    destruct (pool_step fe w l p) as [p1|] eqn:Estep; [|discriminate].
    apply (IH p1 p'); try assumption; clear IH Hrun Hone.
    + destruct l as [l|k|j]; cbn [pool_step] in Estep.
      * destruct (sys_step fe w _ l _); inversion Estep; subst. exact Hearlier.
      * destruct (nth_error (earlier p) k) as [t|] eqn:Ek; [|discriminate].
        rewrite forallb_forall in Hearlier.
        pose proof (Hearlier t (nth_error_In _ _ Ek)) as Ht.
        unfold returned in Ht. unfold worker_step in Estep.
        cbn [view worker] in Estep.
        destruct (t_pc t); discriminate.
      * destruct (lock p); [discriminate|]. inversion Estep; subst.
        cbn [earlier forallb]. now rewrite Hstart, Hearlier.
    + destruct l as [l|k|j]; cbn [pool_step] in Estep.
      * destruct (sys_step fe w _ l _) as [s|] eqn:Es; inversion Estep; subst.
        cbn [current t_job thread_of].
        rewrite view_thread_of by reflexivity.
        destruct Hreach as [st0 Hr]. exists st0.
        apply (reachable_step fe w _ st0 [l] _ s Hr). cbn. now rewrite Es.
      * destruct (nth_error (earlier p) k) as [t|] eqn:Ek; [|discriminate].
        rewrite forallb_forall in Hearlier.
        pose proof (Hearlier t (nth_error_In _ _ Ek)) as Ht.
        unfold returned in Ht. unfold worker_step in Estep.
        cbn [view worker] in Estep.
        destruct (t_pc t); discriminate.
      * destruct (lock p); [discriminate|]. inversion Estep; subst.
        cbn [current t_job thread_of].
        rewrite view_thread_of by reflexivity.
        exists (shared p). exists []. reflexivity.
Qed.

Lemma pool_init_one_job (fe : frontend) (w : world) (j : job)
    (st0 : TranslationState) (ls : list pool_label) (p : pool) :
  one_at_a_time fe w ls (pool_init fe j st0) = true ->
  pool_run fe w ls (pool_init fe j st0) = Some p ->
  exists st,
    reachable fe w (t_job (current p)) st (view p (current p)).
Proof.
  intros Hone Hrun.
  apply (pool_run_one_job fe w ls (pool_init fe j st0) p); try assumption.
  - reflexivity.
  - exists st0. exists []. reflexivity.
Qed.

(** The process a schedule leads to, from the first start. *)
Definition pool_after (fe : frontend) (w : world) (j : job)
    (ls : list pool_label) : pool :=
  match pool_run fe w ls (pool_init fe j fresh_state) with
  | Some p => p
  | None => pool_init fe j fresh_state
  end.

(** The worker of the first upload is in its third backend call when the
    document is uploaded and started again; the call returns and the
    worker stores its result. *)
Definition schedule_restart_in_flight : list pool_label :=
  repeat (Current Work) 11 ++ [Start job_2500; Earlier 0%nat; Earlier 0%nat].

(** The worker of the first upload holds its first result, not yet
    stored, when the second start comes; the new worker stores two
    results, then the first worker stores its one. *)
Definition schedule_restart_overtaken : list pool_label :=
  repeat (Current Work) 3 ++ [Start job_2500] ++ repeat (Current Work) 9
  ++ [Earlier 0%nat; Earlier 0%nat].

(** C1, as stated, fails: after a start made while the worker of the
    start before is alive, that worker stores into the state the new start
    has reset.  At a poll with the lock free there is one result and the
    index is 3; or there are three results and the index is 1. *)
Lemma second_start_breaks_results_index :
  (let p := pool_after Flask demo_world job_2500 schedule_restart_in_flight in
   pool_run Flask demo_world schedule_restart_in_flight
     (pool_init Flask job_2500 fresh_state) = Some p
   /\ (exists p', pool_step Flask demo_world (Current (Cmd Status)) p = Some p')
   /\ lock p = false
   /\ length (translated_chunks (shared p)) = 1%nat
   /\ current_chunk (shared p) = 3
   /\ Z.of_nat (length (translated_chunks (shared p)))
      <> current_chunk (shared p))
  /\ (let p := pool_after Gradio demo_world job_2500
                 schedule_restart_overtaken in
      pool_run Gradio demo_world schedule_restart_overtaken
        (pool_init Gradio job_2500 fresh_state) = Some p
      /\ lock p = false
      /\ length (translated_chunks (shared p)) = 3%nat
      /\ current_chunk (shared p) = 1
      /\ ~ Z.of_nat (length (translated_chunks (shared p)))
           <= current_chunk (shared p)).
Proof.
  split; cbv zeta.
  - split; [vm_compute; reflexivity|].
    split; [eexists; vm_compute; reflexivity|].
    repeat split; try (vm_compute; reflexivity).
    vm_compute. discriminate.
  - split; [vm_compute; reflexivity|].
    repeat split; try (vm_compute; reflexivity).
    vm_compute. intros H. now apply H.
Qed.

(** C1. [reset] leaves no result and index zero; the block that stores a
    result appends one result and sets the index to the ordinal of the
    chunk, [i // batch_size + 1], which for the chunk that starts at
    [k * batch_size] is [k + 1].  As long as every start is made when the
    worker of the start before has returned, in every state of the
    process, at any interleaving of the worker with the pause, stop,
    status and export commands, the number of results equals
    [current_chunk] and does not exceed [total_chunks] of the job, so that
    a status poll, which runs only when the lock is free, reads equal
    values. *)
Theorem results_length_is_chunk_index :
  (forall st,
      translated_chunks (reset st) = [] /\ current_chunk (reset st) = 0)
  /\ (forall fe j i tr st,
        translated_chunks (store_section fe j i tr st)
        = translated_chunks st ++ [tr]
        /\ current_chunk (store_section fe j i tr st) = i / batch_size j + 1)
  /\ (forall j (k : nat),
        chunk_num j (Z.of_nat k * batch_size j) = Z.of_nat k + 1)
  /\ (forall fe w j st0 ls p,
        pool_run fe w ls (pool_init fe j st0) = Some p ->
        one_at_a_time fe w ls (pool_init fe j st0) = true ->
        Z.of_nat (length (translated_chunks (shared p)))
        = current_chunk (shared p)
        /\ Z.of_nat (length (translated_chunks (shared p)))
           <= current_chunk (shared p)
        /\ current_chunk (shared p) <= job_total_chunks (t_job (current p))
        /\ (forall p',
              pool_step fe w (Current (Cmd Status)) p = Some p' ->
              lock p = false
              /\ Z.of_nat (length (snap_results (get_status (shared p'))))
                 = snap_current_chunk (get_status (shared p')))).
Proof.
  split; [intros st; split; reflexivity|].
  split; [intros fe j i tr st; destruct fe; split; reflexivity|].
  split; [intros j k; rewrite chunk_num_at; lia|].
  intros fe w j st0 ls p Hrun Hone.
  destruct (pool_init_one_job fe w j st0 ls p Hone Hrun) as [st Hr].
  destruct (reachable_inv fe w _ st _ Hr) as (_ & Hcur & HkN & _).
  cbn [view state] in Hcur, HkN.
  assert (Hst : forall p',
             pool_step fe w (Current (Cmd Status)) p = Some p' ->
             lock p = false /\ shared p' = shared p).
  { intros p' Hstep. cbn in Hstep. unfold command_step in Hstep.
    cbn [view locked] in Hstep. destruct (lock p); [discriminate|].
    inversion Hstep; subst. auto. }
  repeat split; try lia.
  - now apply Hst in H.
  - apply Hst in H as [_ ->]. cbn. lia.
Qed.

(** An empty upload is translated, then a document of three chunks is
    started; its first result is stored and a poll comes in. *)
Definition schedule_second_job_polled : list pool_label :=
  repeat (Current Work) 3 ++ [Start job_2500] ++ repeat (Current Work) 5
  ++ [Current (Cmd Status)].

Lemma results_length_is_chunk_index_witness :
  Z.of_nat (length (translated_chunks
                      (shared (pool_after Flask demo_world job_empty
                                 schedule_second_job_polled))))
  = current_chunk (shared (pool_after Flask demo_world job_empty
                             schedule_second_job_polled))
  /\ current_chunk (shared (pool_after Flask demo_world job_empty
                              schedule_second_job_polled)) = 1.
Proof.
  destruct results_length_is_chunk_index as (_ & _ & _ & H).
  destruct (H Flask demo_world job_empty fresh_state
              schedule_second_job_polled
              (pool_after Flask demo_world job_empty
                 schedule_second_job_polled))
    as (E & _).
  - vm_compute. reflexivity.
  - vm_compute. reflexivity.
  - split; [exact E|]. vm_compute. reflexivity.
Defined.

(** X2. As long as every start is made when the worker of the start
    before has returned, in every state of the process
    [0 <= current_chunk <= total_chunks], and [total_chunks] is zero
    (before the document is read, or when it cannot be read) or the number
    of chunks of the document of the current job. *)
Theorem progress_within_bounds :
  forall fe w j st0 ls p,
    pool_run fe w ls (pool_init fe j st0) = Some p ->
    one_at_a_time fe w ls (pool_init fe j st0) = true ->
    0 <= current_chunk (shared p) <= total_chunks (shared p)
    /\ (total_chunks (shared p) = 0
        \/ total_chunks (shared p) = job_total_chunks (t_job (current p))).
Proof.
  intros fe w j st0 ls p Hrun Hone.
  destruct (pool_init_one_job fe w j st0 ls p Hone Hrun) as [st Hr].
  exact (job_progress_within_bounds fe w _ st _ Hr).
Qed.

Lemma progress_within_bounds_witness :
  current_chunk (shared (pool_after Flask demo_world job_empty
                           schedule_second_job_polled)) = 1
  /\ total_chunks (shared (pool_after Flask demo_world job_empty
                             schedule_second_job_polled)) = 3.
Proof.
  destruct (progress_within_bounds Flask demo_world job_empty fresh_state
              schedule_second_job_polled
              (pool_after Flask demo_world job_empty
                 schedule_second_job_polled))
    as (_ & [H|H]).
  - vm_compute. reflexivity.
  - vm_compute. reflexivity.
  - exfalso. revert H. vm_compute. discriminate.
  - split; [vm_compute; reflexivity|]. rewrite H. vm_compute. reflexivity.
Defined.



